(** * CaptureKit: transition graph, store synchronisation and preview renderer

    A shallow embedding of the transition code of the repository:
    - [TRANSITION_TYPES], [TransitionManager] (transitions module),
    - [saveTransitionToStore], [removeTransitionFromStore],
      [getTransitionBetween] (transitions integration, v2),
    - [TransitionsStoreMonitor] (store monitor with the track snapshot),
    - [applyTransitionEffect], [renderTransitionPreview] (canvas preview).

    JavaScript numbers are IEEE 754 binary64 values; they are modelled with the
    executable specification [spec_float] at precision 53 and [emax] 1024.
    Values that the host supplies ([crypto.randomUUID()], [Date.now()]) are
    explicit arguments of the functions that read them. *)

From Stdlib Require Import ZArith List String Ascii Bool Lia.
From Stdlib Require Import SpecFloat.
Import ListNotations.
Open Scope string_scope.

Set Implicit Arguments.

(* ------------------------------------------------------------------------- *)
(** ** JavaScript numbers *)

Module Num.

Definition num := spec_float.

Definition prec : Z := 53.
Definition emax : Z := 1024.

Definition NaN : num := S754_nan.
Definition Infinity : num := S754_infinity false.

(** An integer literal. *)
Definition ofZ (z : Z) : num := binary_normalize prec emax z 0 false.

Definition add : num -> num -> num := SFadd prec emax.
Definition sub : num -> num -> num := SFsub prec emax.
Definition mul : num -> num -> num := SFmul prec emax.
Definition div : num -> num -> num := SFdiv prec emax.
Definition neg : num -> num := SFopp.

(** A decimal literal [n/d] with [n] and [d] exactly representable: the
      literal denotes the binary64 value nearest to the quotient, which is what
      the correctly rounded division returns. *)
Definition dec (n d : Z) : num := div (ofZ n) (ofZ d).

Definition zero : num := S754_zero false.
Definition one : num := Eval vm_compute in ofZ 1.
Definition two : num := Eval vm_compute in ofZ 2.
Definition half : num := Eval vm_compute in dec 1 2.

Definition is_nan (x : num) : bool :=
    match x with S754_nan => true | _ => false end.

Definition is_zero (x : num) : bool :=
    match x with S754_zero _ => true | _ => false end.

Definition is_neg_zero (x : num) : bool :=
    match x with S754_zero true => true | _ => false end.

Definition is_finite (x : num) : bool :=
    match x with S754_zero _ | S754_finite _ _ _ => true | _ => false end.

(** [x < y], false when either side is NaN. *)
Definition ltb (x y : num) : bool := SFltb x y.
Definition leb (x y : num) : bool := SFleb x y.

(** Truthiness of a number: every number except [0], [-0] and [NaN]. *)
Definition truthy (x : num) : bool := negb (is_zero x || is_nan x).

(** [Math.min(a, b)]: NaN when either argument is NaN; [-0] is below [+0]. *)
Definition min (a b : num) : num :=
    match SFcompare a b with
    | None => NaN
    | Some Lt => a
    | Some Gt => b
    | Some Eq => if is_neg_zero a then a else if is_neg_zero b then b else a
    end.

(** [Math.max(a, b)]: NaN when either argument is NaN; [+0] is above [-0]. *)
Definition max (a b : num) : num :=
    match SFcompare a b with
    | None => NaN
    | Some Lt => b
    | Some Gt => a
    | Some Eq => if is_neg_zero a then b else a
    end.

(** Decidable equality of the representations. *)
Definition eqb (x y : num) : bool :=
    match x, y with
    | S754_zero s, S754_zero t => Bool.eqb s t
    | S754_infinity s, S754_infinity t => Bool.eqb s t
    | S754_nan, S754_nan => true
    | S754_finite s m e, S754_finite t n f =>
        Bool.eqb s t && Pos.eqb m n && Z.eqb e f
    | _, _ => false
    end.

End Num.

Definition num : Set := Num.num.

(* ------------------------------------------------------------------------- *)
(** ** Strings *)

(** [String.prototype.toUpperCase] on the ASCII range: the letters [a]-[z] are
    mapped to [A]-[Z], every other byte is kept.  (Strings are byte strings
    here; the ids and keys of the catalog are ASCII.) *)
Definition upper_ascii (c : ascii) : ascii :=
  let n := nat_of_ascii c in
  if (97 <=? n)%nat && (n <=? 122)%nat then ascii_of_nat (n - 32) else c.

Fixpoint toUpperCase (s : string) : string :=
  match s with
  | EmptyString => EmptyString
  | String c r => String (upper_ascii c) (toUpperCase r)
  end.

(* ------------------------------------------------------------------------- *)
(** ** An insertion-ordered map with string keys (the JavaScript [Map]) *)

Module JsMap.
Section JsMap.
Variable V : Type.

Definition t := list (string * V).

Definition empty : t := [].

Fixpoint get (k : string) (m : t) : option V :=
    match m with
    | [] => None
    | (k', v) :: r => if String.eqb k k' then Some v else get k r
    end.

Definition has (k : string) (m : t) : bool :=
    match get k m with Some _ => true | None => false end.

(** [set] keeps the position of a key that is already present and appends a
      new key at the end. *)
Fixpoint set (k : string) (v : V) (m : t) : t :=
    match m with
    | [] => [(k, v)]
    | (k', v') :: r =>
        if String.eqb k k' then (k', v) :: r else (k', v') :: set k v r
    end.

Fixpoint delete (k : string) (m : t) : t :=
    match m with
    | [] => []
    | (k', v') :: r =>
        if String.eqb k k' then r else (k', v') :: delete k r
    end.

Definition keys (m : t) : list string := map fst m.

(** [Array.from(m.values())]: one entry per key, in insertion order. *)
Definition values (m : t) : list V := map snd m.

End JsMap.
End JsMap.

(* ------------------------------------------------------------------------- *)
(** ** The transition catalog: [TRANSITION_TYPES] and [TRANSITION_PRESETS] *)

Inductive Category := fade | wipe | slide | zoom | effect | shape.

(** One entry of [TRANSITION_TYPES] (the [icon] glyph is display-only and is
    left out). *)
Record TransitionType := {
  tt_id : string;
  tt_name : string;
  category : Category;
  description : string;
  defaultDuration : num;
  tt_parameters : list string
}.

Definition d1_0 : num := Eval vm_compute in Num.ofZ 1.
Definition d0_8 : num := Eval vm_compute in Num.dec 8 10.
Definition d0_7 : num := Eval vm_compute in Num.dec 7 10.
Definition d0_6 : num := Eval vm_compute in Num.dec 6 10.

Definition mkType i n c d dd ps : TransitionType :=
  {| tt_id := i; tt_name := n; category := c; description := d;
     defaultDuration := dd; tt_parameters := ps |}.

(** The object literal, as its (key, value) properties in source order. *)
Definition TRANSITION_TYPES : list (string * TransitionType) := [
  ("CROSSFADE", mkType "crossfade" "Crossfade" fade "Smooth fade between clips" d1_0 ["duration"]);
  ("FADE_TO_BLACK", mkType "fadeToBlack" "Fade to Black" fade "Fade through black" d1_0 ["duration"]);
  ("FADE_TO_WHITE", mkType "fadeToWhite" "Fade to White" fade "Fade through white" d1_0 ["duration"]);
  ("WIPE_LEFT", mkType "wipeLeft" "Wipe Left" wipe "Wipe from right to left" d0_8 ["duration"; "softness"]);
  ("WIPE_RIGHT", mkType "wipeRight" "Wipe Right" wipe "Wipe from left to right" d0_8 ["duration"; "softness"]);
  ("WIPE_UP", mkType "wipeUp" "Wipe Up" wipe "Wipe from bottom to top" d0_8 ["duration"; "softness"]);
  ("WIPE_DOWN", mkType "wipeDown" "Wipe Down" wipe "Wipe from top to bottom" d0_8 ["duration"; "softness"]);
  ("SLIDE_LEFT", mkType "slideLeft" "Slide Left" slide "Slide out left, slide in right" d0_7 ["duration"]);
  ("SLIDE_RIGHT", mkType "slideRight" "Slide Right" slide "Slide out right, slide in left" d0_7 ["duration"]);
  ("SLIDE_UP", mkType "slideUp" "Slide Up" slide "Slide out up, slide in down" d0_7 ["duration"]);
  ("SLIDE_DOWN", mkType "slideDown" "Slide Down" slide "Slide out down, slide in up" d0_7 ["duration"]);
  ("ZOOM_IN", mkType "zoomIn" "Zoom In" zoom "Zoom into next clip" d0_8 ["duration"]);
  ("ZOOM_OUT", mkType "zoomOut" "Zoom Out" zoom "Zoom out to next clip" d0_8 ["duration"]);
  ("PIXELATE", mkType "pixelate" "Pixelate" effect "Pixelate transition" d0_6 ["duration"; "pixelSize"]);
  ("BLUR", mkType "blur" "Blur" effect "Blur transition" d0_8 ["duration"; "blurAmount"]);
  ("MIRROR", mkType "mirror" "Mirror" effect "Mirror flip transition" d0_7 ["duration"]);
  ("CIRCLE_OPEN", mkType "circleOpen" "Circle Open" shape "Circular iris open" d1_0 ["duration"]);
  ("CIRCLE_CLOSE", mkType "circleClose" "Circle Close" shape "Circular iris close" d1_0 ["duration"]);
  ("DIAMOND", mkType "diamond" "Diamond" shape "Diamond shape transition" d0_8 ["duration"])
].

Definition TRANSITION_PRESETS : list (string * list string) := [
  ("smooth", ["crossfade"; "fadeToBlack"]);
  ("dynamic", ["slideLeft"; "slideRight"; "zoomIn"; "zoomOut"]);
  ("creative", ["pixelate"; "blur"; "mirror"; "circleOpen"]);
  ("professional", ["crossfade"; "fadeToBlack"; "wipeLeft"; "wipeRight"])
].

(** [TRANSITION_TYPES[key]]: the own property named [key].  (The properties
    inherited from [Object.prototype] all carry a lower-case letter, so the
    upper-cased keys used below never reach one.) *)
Definition TRANSITION_TYPES_at (key : string) : option TransitionType :=
  JsMap.get key TRANSITION_TYPES.

(** [Object.values(TRANSITION_TYPES)] *)
Definition getAllTransitions : list TransitionType := map snd TRANSITION_TYPES.

(** [Object.values(TRANSITION_TYPES).find(t => t.id === tId)] *)
Definition findTypeById (tId : string) : option TransitionType :=
  find (fun t => String.eqb (tt_id t) tId) getAllTransitions.

(** The ids listed in the catalog. *)
Definition catalogIds : list string := map tt_id getAllTransitions.

(* ------------------------------------------------------------------------- *)
(** ** Transition instances *)

(** The [options] argument: the optional [duration] and the other entries. *)
Record Options := {
  o_duration : option num;
  o_extra : list (string * num)
}.

Definition noOptions : Options := {| o_duration := None; o_extra := [] |}.

(** The object built by [addTransition], [saveTransitionToStore] and
    [addTransitionToProject].  [saveTransitionToStore] writes no [parameters]
    property, hence the option. *)
Record TransitionData := {
  id : string;
  fromClipId : string;
  toClipId : string;
  type : string;
  duration : num;
  parameters : option Options;
  createdAt : Z
}.

(** [a || b] on an optional number: [a] when it is present and truthy. *)
Definition orDefault (a : option num) (b : num) : num :=
  match a with
  | Some x => if Num.truthy x then x else b
  | None => b
  end.

(** An exception value: [new Error(message)]. *)
Inductive JsError := Error (message : string).

Inductive result (A : Type) :=
| Ok (a : A)
| Throw (e : JsError).
Arguments Ok {A} a.
Arguments Throw {A} e.

(* ------------------------------------------------------------------------- *)
(** ** [TransitionManager] *)

Module TransitionManager.

(** [this.transitions]: clipId -> transition data. *)
Definition t := JsMap.t TransitionData.

Definition new : t := JsMap.empty TransitionData.

Definition getTransitionsByCategory (c : Category) : list TransitionType :=
    filter (fun t => match category t, c with
                     | fade, fade | wipe, wipe | slide, slide
                     | zoom, zoom | effect, effect | shape, shape => true
                     | _, _ => false
                     end) getAllTransitions.

(** [addTransition(fromClipId, toClipId, transitionType, options)];
      [uuid] is the value of [crypto.randomUUID()] and [now] of [Date.now()]. *)
Definition addTransition (uuid : string) (now : Z)
      (from to transitionType : string) (options : Options) (m : t)
    : result (TransitionData * t) :=
    match TRANSITION_TYPES_at (toUpperCase transitionType) with
    | None => Throw (Error ("Unknown transition type: " ++ transitionType))
    | Some transition =>
        let transitionData :=
          {| id := uuid;
             fromClipId := from;
             toClipId := to;
             type := transitionType;
             duration := orDefault (o_duration options) (defaultDuration transition);
             parameters := Some options;
             createdAt := now |} in
        Ok (transitionData,
            JsMap.set to transitionData (JsMap.set from transitionData m))
    end.

Definition removeTransition (clipId : string) (m : t) : bool * t :=
    match JsMap.get clipId m with
    | Some transition =>
        (true, JsMap.delete (toClipId transition)
                 (JsMap.delete (fromClipId transition) m))
    | None => (false, m)
    end.

Definition getTransition (clipId : string) (m : t) : option TransitionData :=
    JsMap.get clipId m.

Definition hasTransition (clipId : string) (m : t) : bool :=
    JsMap.has clipId m.

(** [validateTransitionDuration(fromClip, toClip, duration)], on the two clip
      durations. *)
Definition validateTransitionDuration (fromDuration toDuration d : num) : num :=
    let maxDuration := Num.div (Num.min fromDuration toDuration) Num.two in
    Num.min d maxDuration.

Definition clearAll (m : t) : t := JsMap.empty TransitionData.

Definition exportTransitions (m : t) : list TransitionData := JsMap.values m.

(** [importTransitions(data)]: clear, then for each entry set both keys. *)
Definition importTransitions (data : list TransitionData) (m : t) : t :=
    fold_left (fun acc x => JsMap.set (toClipId x) x (JsMap.set (fromClipId x) x acc))
              data (JsMap.empty TransitionData).

End TransitionManager.

(* ------------------------------------------------------------------------- *)
(** ** The external project store *)

(** A clip of a track: [id] and [duration] are the properties the transition
    code reads. *)
Record Clip := {
  clip_id : string;
  clip_duration : num
}.

Record Track := {
  clips : option (list Clip)
}.

Record Project := {
  tracks : option (list Track);
  transitions : option (list TransitionData)
}.

(** The store object; the two booleans say whether [saveNow] and
    [pushSnapshot] are functions. *)
Record Store := {
  project : option Project;
  hasSaveNow : bool;
  hasPushSnapshot : bool
}.

(** What the code does to its surroundings besides writing the store. *)
Inductive Effect :=
| SaveNow
| PushSnapshot
| Console (level message : string)
| Notification (message kind : string)
| RefreshAllBtns
| TopologyChanged
| RetrySave (from to type : string) (d : option num).

(** [store.project.transitions = l] *)
Definition setTransitions (l : list TransitionData) (s : Store) : Store :=
  match project s with
  | Some p =>
      {| project := Some {| tracks := tracks p; transitions := Some l |};
         hasSaveNow := hasSaveNow s;
         hasPushSnapshot := hasPushSnapshot s |}
  | None => s
  end.

(** [store?.project?.transitions || []] *)
Definition storedTransitions (s : option Store) : list TransitionData :=
  match s with
  | Some st =>
      match project st with
      | Some p => match transitions p with Some l => l | None => [] end
      | None => []
      end
  | None => []
  end.

(** The calls of the optional hooks, in call order. *)
Definition callHooks (s : Store) (withSnapshot : bool) : list Effect :=
  (if hasSaveNow s then [SaveNow] else []) ++
  (if withSnapshot && hasPushSnapshot s then [PushSnapshot] else []).

(** The unordered pair test of [saveTransitionToStore] and
    [removeTransitionFromStore]. *)
Definition matchesPair (fromId toId : string) (t : TransitionData) : bool :=
  (String.eqb (fromClipId t) fromId && String.eqb (toClipId t) toId) ||
  (String.eqb (fromClipId t) toId && String.eqb (toClipId t) fromId).

(** [t.fromClipId === clipId || t.toClipId === clipId] *)
Definition touches (clipId : string) (t : TransitionData) : bool :=
  String.eqb (fromClipId t) clipId || String.eqb (toClipId t) clipId.

(* ------------------------------------------------------------------------- *)
(** ** Transitions integration (v2): the store helpers *)

Module Integration.

(** The closure state of [init]: the located store ([getStore()] is modelled
    by its result), the [manager] and the trace of effects. *)
Record World := {
  store : option Store;
  manager : TransitionManager.t;
  trace : list Effect
}.

Definition getStoredTransitions (w : World) : list TransitionData :=
  storedTransitions (store w).

Definition getTransitionBetween (aId bId : string) (w : World)
  : option TransitionData :=
  find (fun t => String.eqb (fromClipId t) aId && String.eqb (toClipId t) bId)
       (getStoredTransitions w).

(** [saveTransitionToStore(fromId, toId, type, duration)].  Without a store the
    call re-arms itself with a timer and returns [null]; a store without
    [project] makes [store.project.transitions] raise a [TypeError]. *)
Definition saveTransitionToStore (uuid : string) (now : Z)
    (fromId toId ty : string) (d : option num) (w : World)
  : result (option TransitionData * World) :=
  match store w with
  | None =>
      Ok (None,
          {| store := None; manager := manager w;
             trace := trace w ++
               [Console "warn" "[Transitions] Editor store not found"; RetrySave fromId toId ty d] |})
  | Some s =>
      match project s with
      | None => Throw (Error "TypeError: cannot read properties of undefined")
      | Some p =>
          let old := match transitions p with Some l => l | None => [] end in
          let kept := filter (fun t => negb (matchesPair fromId toId t)) old in
          let t := {| id := uuid; fromClipId := fromId; toClipId := toId;
                      type := ty; duration := orDefault d d1_0;
                      parameters := None; createdAt := now |} in
          Ok (Some t,
              {| store := Some (setTransitions (kept ++ [t]) s);
                 manager := JsMap.set toId t (JsMap.set fromId t (manager w));
                 trace := trace w ++ callHooks s true ++
                            [Console "log" "[Transitions] Saved"] |})
      end
  end.

(** [removeTransitionFromStore(fromId, toId)] *)
Definition removeTransitionFromStore (fromId toId : string) (w : World) : World :=
  match store w with
  | None => w
  | Some s =>
      match project s with
      | None => w
      | Some p =>
          match transitions p with
          | None => w
          | Some old =>
              {| store := Some (setTransitions
                           (filter (fun t => negb (matchesPair fromId toId t)) old) s);
                 manager := JsMap.delete toId (JsMap.delete fromId (manager w));
                 trace := trace w ++ callHooks s true ++
                            [Console "log" "[Transitions] Removed transition"] |}
          end
      end
  end.

(** [syncFromStore()]: load the stored transitions into the manager. *)
Definition syncFromStore (w : World) : World :=
  match store w with
  | Some {| project := Some {| transitions := Some l |} |} =>
      {| store := store w;
         manager := fold_left
           (fun acc x => JsMap.set (toClipId x) x (JsMap.set (fromClipId x) x acc))
           l (manager w);
         trace := trace w ++ [Console "log" "[Transitions] Synced"; RefreshAllBtns] |}
  | _ => w
  end.

End Integration.

(* ------------------------------------------------------------------------- *)
(** ** [JSON.stringify] of an array of arrays of strings *)

Definition dquote : ascii := ascii_of_nat 34.

Definition hexDigit (n : nat) : ascii :=
  match String.get n "0123456789abcdef" with
  | Some c => c
  | None => "0"%char
  end.

(** The escape of one character inside a JSON string. *)
Definition quoteChar (c : ascii) : string :=
  let n := nat_of_ascii c in
  if (n =? 8)%nat then "\b"
  else if (n =? 9)%nat then "\t"
  else if (n =? 10)%nat then "\n"
  else if (n =? 12)%nat then "\f"
  else if (n =? 13)%nat then "\r"
  else if (n =? 34)%nat then String "\" (String dquote "")
  else if (n =? 92)%nat then "\\"
  else if (n <? 32)%nat then
    "\u00" ++ String (hexDigit (n / 16)) (String (hexDigit (n mod 16)) "")
  else String c "".

Fixpoint quoteBody (s : string) : string :=
  match s with
  | EmptyString => EmptyString
  | String c r => quoteChar c ++ quoteBody r
  end.

Definition quoteJSON (s : string) : string :=
  String dquote (quoteBody s ++ String dquote "").

Definition stringifyArray (items : list string) : string :=
  "[" ++ String.concat "," items ++ "]".

Definition stringifyIds (rows : list (list string)) : string :=
  stringifyArray (map (fun r => stringifyArray (map quoteJSON r)) rows).

(* ------------------------------------------------------------------------- *)
(** ** [TransitionsStoreMonitor] (the monitor that keeps the track snapshot) *)

Module TransitionsStoreMonitor.

(** An entry of [pendingTransitions]. *)
Record Pending := {
  clipId : string;
  transitionType : string;
  options : option Options
}.

(** The monitor, the store that [getEditorStore()] yields, the number of
    transition objects created so far and the trace of effects. *)
Record World := {
  store : option Store;
  pendingTransitions : list Pending;
  lastTrackSnapshot : option string;
  created : nat;
  trace : list Effect
}.

Fixpoint findInClips (cid : string) (cs : list Clip) : option (Clip * option Clip) :=
  match cs with
  | [] => None
  | c :: r =>
      if String.eqb (clip_id c) cid then Some (c, hd_error r)
      else findInClips cid r
  end.

Fixpoint findInTracks (cid : string) (ts : list Track)
  : option (Clip * option Clip) :=
  match ts with
  | [] => None
  | t :: r =>
      match clips t with
      | None => findInTracks cid r
      | Some cs =>
          match findInClips cid cs with
          | Some found => Some found
          | None => findInTracks cid r
          end
      end
  end.

(** [findClipInProject(clipId, editorStore)]: the clip and its successor in
    the same track. *)
Definition findClipInProject (cid : string) (s : Store)
  : option (Clip * option Clip) :=
  match project s with
  | Some {| tracks := Some ts |} => findInTracks cid ts
  | _ => None
  end.

(** The name shown in the notification:
    [TRANSITION_TYPES[transitionType.toUpperCase()]?.name || transitionType]. *)
Definition displayName (ty : string) : string :=
  match TRANSITION_TYPES_at (toUpperCase ty) with
  | Some t => if String.eqb (tt_name t) "" then ty else tt_name t
  | None => ty
  end.

Section Host.

(** [crypto.randomUUID()] and [Date.now()] at the n-th created transition. *)
Variable randomUUID : nat -> string.
Variable dateNow : nat -> Z.

(** [addTransitionToProject(clipId, transitionType, options, editorStore)]:
    the new store, the new creation count and the effects. *)
Definition addTransitionToProject (cid ty : string) (opts : option Options)
    (s : Store) (n : nat) : Store * nat * list Effect :=
  match findClipInProject cid s with
  | None => (s, n, [Console "error" "[TransitionsMonitor] Clip not found"])
  | Some (_, None) =>
      (s, n, [Console "warn" "[TransitionsMonitor] No next clip for transition";
              Notification "Add another clip after this one to create a transition" "warning"])
  | Some (clip, Some nextClip) =>
      let maxDuration :=
        Num.div (Num.min (clip_duration clip) (clip_duration nextClip)) Num.two in
      let d :=
        Num.min (orDefault (match opts with Some o => o_duration o | None => None end) d1_0)
                maxDuration in
      let kept := filter (fun t => negb (touches cid t)) (storedTransitions (Some s)) in
      let transition :=
        {| id := randomUUID n; fromClipId := cid; toClipId := clip_id nextClip;
           type := ty; duration := d;
           parameters := Some (match opts with Some o => o | None => noOptions end);
           createdAt := dateNow n |} in
      (setTransitions (kept ++ [transition]) s, S n,
       (callHooks s true ++
        [Console "log" "[TransitionsMonitor] Added";
         Notification (displayName ty ++ " transition added!") "success";
         RefreshAllBtns])%list)
  end.

(** The flush loop: [while (pending.length > 0) { shift(); add(...) }]. *)
Fixpoint flush (q : list Pending) (s : Store) (n : nat) (tr : list Effect)
  : Store * nat * list Effect :=
  match q with
  | [] => (s, n, tr)
  | p :: rest =>
      let '(s', n', e) :=
        addTransitionToProject (clipId p) (transitionType p) (options p) s n in
      flush rest s' n' (tr ++ e)%list
  end.

(** The snapshot string of the interval callback. *)
Definition trackSnapshot (s : Store) : string :=
  stringifyIds
    (map (fun t => map clip_id (match clips t with Some cs => cs | None => [] end))
         (match project s with
          | Some {| tracks := Some ts |} => ts
          | _ => []
          end)).

Definition snapshotDiffers (snapshot : string) (last : option string) : bool :=
  match last with
  | Some l => negb (String.eqb snapshot l)
  | None => true
  end.

(** One run of the [setInterval] callback of [startMonitoring]; the second
    component is the snapshot the run computed, if it got that far. *)
Definition pollTick (w : World) : World * option string :=
  match store w with
  | None => (w, None)
  | Some s =>
      let '(s', n', tr) := flush (pendingTransitions w) s (created w) (trace w) in
      let snapshot := trackSnapshot s' in
      if snapshotDiffers snapshot (lastTrackSnapshot w) then
        ({| store := Some s'; pendingTransitions := [];
            lastTrackSnapshot := Some snapshot; created := n';
            trace := tr ++ [TopologyChanged] |}, Some snapshot)
      else
        ({| store := Some s'; pendingTransitions := [];
            lastTrackSnapshot := lastTrackSnapshot w; created := n';
            trace := tr |}, Some snapshot)
  end.

(** [handleTransition(clipId, transitionType, options)] *)
Definition handleTransition (cid ty : string) (opts : option Options) (w : World)
  : World :=
  match store w with
  | Some s =>
      let '(s', n', e) := addTransitionToProject cid ty opts s (created w) in
      {| store := Some s'; pendingTransitions := pendingTransitions w;
         lastTrackSnapshot := lastTrackSnapshot w; created := n';
         trace := trace w ++ e |}
  | None =>
      {| store := None;
         pendingTransitions := pendingTransitions w ++
           [{| clipId := cid; transitionType := ty; options := opts |}];
         lastTrackSnapshot := lastTrackSnapshot w; created := created w;
         trace := trace w ++
           [Console "log" "[TransitionsMonitor] Store not ready, queued transition"] |}
  end.

End Host.

(** The monitor right after its constructor ran, in a window whose store
    lookup yields [s]. *)
Definition initial (s : option Store) : World :=
  {| store := s; pendingTransitions := []; lastTrackSnapshot := None;
     created := 0; trace := [] |}.

(** The window's store changes from outside the monitor. *)
Definition withStore (s : option Store) (w : World) : World :=
  {| store := s; pendingTransitions := pendingTransitions w;
     lastTrackSnapshot := lastTrackSnapshot w; created := created w;
     trace := trace w |}.

End TransitionsStoreMonitor.

(* ------------------------------------------------------------------------- *)
(** ** The preview renderer: canvas commands *)

(** A value assigned to [ctx.fillStyle]: a gradient object made by
    [createLinearGradient] and [addColorStop], or the colour string
    [rgba(r, g, b, a)]. *)
Inductive Style :=
| LinearGradient (x0 y0 x1 y1 : num) (stops : list (num * string))
| Rgba (r g b : Z) (a : num).

Inductive CompositeOp := SourceOver | DestinationIn.

(** The calls made on the 2D context, in call order. *)
Inductive Cmd :=
| ClearRect (x y w h : num)
| SetFillStyle (s : Style)
| SetGlobalAlpha (a : num)
| SetGlobalCompositeOperation (op : CompositeOp)
| FillRect (x y w h : num)
| Save
| Restore
| Translate (x y : num)
| Scale (x y : num)
| BeginPath
| Arc (x y radius startAngle endAngle : num)
| Fill.

Definition d0_1 : num := Eval vm_compute in Num.dec 1 10.
Definition d0_9 : num := Eval vm_compute in Num.dec 9 10.
Definition d0_5 : num := Eval vm_compute in Num.dec 5 10.
Definition Math_PI : num :=
  Eval vm_compute in Num.dec 3141592653589793 1000000000000000.

(** [Math.max(0, Math.min(1, progress))] *)
Definition clampProgress (progress : num) : num :=
  Num.max Num.zero (Num.min Num.one progress).

Definition crossfadeCmds (p width height : num) (fromStyle toStyle : Style)
  : list Cmd :=
  [ SetFillStyle fromStyle; FillRect Num.zero Num.zero width height;
    SetGlobalAlpha p;
    SetFillStyle toStyle; FillRect Num.zero Num.zero width height;
    SetGlobalAlpha Num.one ].

Definition fadeThroughCmds (r g b : Z) (p width height : num)
    (fromStyle toStyle : Style) : list Cmd :=
  if Num.ltb p d0_5 then
    [ SetFillStyle fromStyle; FillRect Num.zero Num.zero width height;
      SetFillStyle (Rgba r g b (Num.mul p Num.two));
      FillRect Num.zero Num.zero width height ]
  else
    [ SetFillStyle toStyle; FillRect Num.zero Num.zero width height;
      SetFillStyle (Rgba r g b (Num.mul (Num.sub Num.one p) Num.two));
      FillRect Num.zero Num.zero width height ].

(** [applyTransitionEffect(ctx, type, progress, width, height, fromStyle,
    toStyle)]: the calls it makes on [ctx]. *)
Definition applyTransitionEffect (ty : string) (progress width height : num)
    (fromStyle toStyle : Style) : list Cmd :=
  let p := clampProgress progress in
  let O := Num.zero in
  if String.eqb ty "crossfade" then
    crossfadeCmds p width height fromStyle toStyle
  else if String.eqb ty "fadeToBlack" then
    fadeThroughCmds 0 0 0 p width height fromStyle toStyle
  else if String.eqb ty "fadeToWhite" then
    fadeThroughCmds 255 255 255 p width height fromStyle toStyle
  else if String.eqb ty "wipeLeft" then
    [ SetFillStyle fromStyle; FillRect O O width height;
      SetFillStyle toStyle;
      FillRect (Num.mul width (Num.sub Num.one p)) O (Num.mul width p) height ]
  else if String.eqb ty "wipeRight" then
    [ SetFillStyle fromStyle; FillRect O O width height;
      SetFillStyle toStyle; FillRect O O (Num.mul width p) height ]
  else if String.eqb ty "wipeUp" then
    [ SetFillStyle fromStyle; FillRect O O width height;
      SetFillStyle toStyle;
      FillRect O (Num.mul height (Num.sub Num.one p)) width (Num.mul height p) ]
  else if String.eqb ty "wipeDown" then
    [ SetFillStyle fromStyle; FillRect O O width height;
      SetFillStyle toStyle; FillRect O O width (Num.mul height p) ]
  else if String.eqb ty "slideLeft" then
    [ Save; Translate (Num.mul (Num.neg width) p) O;
      SetFillStyle fromStyle; FillRect O O width height; Restore;
      Save; Translate (Num.mul width (Num.sub Num.one p)) O;
      SetFillStyle toStyle; FillRect O O width height; Restore ]
  else if String.eqb ty "slideRight" then
    [ Save; Translate (Num.mul width p) O;
      SetFillStyle fromStyle; FillRect O O width height; Restore;
      Save; Translate (Num.mul (Num.neg width) (Num.sub Num.one p)) O;
      SetFillStyle toStyle; FillRect O O width height; Restore ]
  else if String.eqb ty "zoomIn" then
    [ SetFillStyle fromStyle; FillRect O O width height;
      Save;
      Translate (Num.div width Num.two) (Num.div height Num.two);
      Scale (Num.add d0_1 (Num.mul d0_9 p)) (Num.add d0_1 (Num.mul d0_9 p));
      Translate (Num.div (Num.neg width) Num.two) (Num.div (Num.neg height) Num.two);
      SetGlobalAlpha p;
      SetFillStyle toStyle; FillRect O O width height;
      Restore;
      SetGlobalAlpha Num.one ]
  else if String.eqb ty "zoomOut" then
    [ SetFillStyle toStyle; FillRect O O width height;
      Save;
      Translate (Num.div width Num.two) (Num.div height Num.two);
      Scale (Num.sub Num.one (Num.mul d0_9 p)) (Num.sub Num.one (Num.mul d0_9 p));
      Translate (Num.div (Num.neg width) Num.two) (Num.div (Num.neg height) Num.two);
      SetFillStyle fromStyle; FillRect O O width height;
      Restore ]
  else if String.eqb ty "circleOpen" then
    [ SetFillStyle fromStyle; FillRect O O width height;
      SetGlobalCompositeOperation DestinationIn;
      BeginPath;
      Arc (Num.div width Num.two) (Num.div height Num.two)
          (Num.mul (Num.max width height) p) O (Num.mul Math_PI Num.two);
      Fill;
      SetGlobalCompositeOperation SourceOver;
      SetFillStyle toStyle; FillRect O O width height ]
  else if String.eqb ty "circleClose" then
    [ SetFillStyle toStyle; FillRect O O width height;
      SetGlobalCompositeOperation DestinationIn;
      BeginPath;
      Arc (Num.div width Num.two) (Num.div height Num.two)
          (Num.mul (Num.max width height) (Num.sub Num.one p)) O
          (Num.mul Math_PI Num.two);
      Fill;
      SetGlobalCompositeOperation SourceOver ]
  else
    crossfadeCmds p width height fromStyle toStyle.

(** The two gradients of [renderTransitionPreview] that stand for the two
    clips. *)
Definition gradient1 (width height : num) : Style :=
  LinearGradient Num.zero Num.zero width height
    [(Num.zero, "#3b82f6"); (Num.one, "#1d4ed8")].

Definition gradient2 (width height : num) : Style :=
  LinearGradient Num.zero Num.zero width height
    [(Num.zero, "#ef4444"); (Num.one, "#b91c1c")].

(** [renderTransitionPreview(transitionType, progress, canvas)]; the canvas
    dimensions [canvas.width] and [canvas.height] are unsigned integers. *)
Definition renderTransitionPreview (ty : string) (progress : num)
    (canvasWidth canvasHeight : N) : list Cmd :=
  let width := Num.ofZ (Z.of_N canvasWidth) in
  let height := Num.ofZ (Z.of_N canvasHeight) in
  ClearRect Num.zero Num.zero width height ::
  applyTransitionEffect ty progress width height
    (gradient1 width height) (gradient2 width height).

(* ------------------------------------------------------------------------- *)
(** ** The 2D context: what the commands paint at one sample point

    The composite at a point is kept as the list of the styles painted there,
    each with its share of the final colour (premultiplied Porter-Duff
    weights); an untouched or cleared point has the empty list. *)

Definition Pixel := list (Style * num).

(** The drawing state of the context; [saved] is the stack of [save()]. *)
Record Ctx := {
  fillStyle : Style;
  globalAlpha : num;
  sx : num; sy : num; tx : num; ty_ : num;
  compositeOp : CompositeOp;
  path : list (num * num * num * num);
  saved : list (Style * num * (num * num * num * num) * CompositeOp)
}.

Definition initialCtx : Ctx :=
  {| fillStyle := Rgba 0 0 0 Num.one; globalAlpha := Num.one;
     sx := Num.one; sy := Num.one; tx := Num.zero; ty_ := Num.zero;
     compositeOp := SourceOver; path := []; saved := [] |}.

Definition withDrawState (c : Ctx) (f : Style) (ga : num)
    (m : num * num * num * num) (op : CompositeOp)
    (pa : list (num * num * num * num))
    (sv : list (Style * num * (num * num * num * num) * CompositeOp)) : Ctx :=
  let '(a, d, e, f') := m in
  {| fillStyle := f; globalAlpha := ga; sx := a; sy := d; tx := e; ty_ := f';
     compositeOp := op; path := pa; saved := sv |}.

Definition matrixOf (c : Ctx) : num * num * num * num :=
  (sx c, sy c, tx c, ty_ c).

Definition inUnit (a : num) : bool := Num.leb Num.zero a && Num.leb a Num.one.

(** The alpha of a style: gradient stops are opaque colours. *)
Definition styleAlpha (s : Style) : num :=
  match s with
  | LinearGradient _ _ _ _ _ => Num.one
  | Rgba _ _ _ a => a
  end.

(** Source-over: the new paint takes its alpha, the rest is scaled down. *)
Definition paintOver (s : Style) (a : num) (px : Pixel) : Pixel :=
  (s, a) :: map (fun e => (fst e, Num.mul (snd e) (Num.sub Num.one a))) px.

(** Destination-in: the destination is kept in proportion to the source
    alpha; where the source does not reach, it is erased. *)
Definition keepIn (a : num) (px : Pixel) : Pixel :=
  map (fun e => (fst e, Num.mul (snd e) a)) px.

Definition composite (c : Ctx) (covered : bool) (px : Pixel) : Pixel :=
  let a := Num.mul (globalAlpha c) (styleAlpha (fillStyle c)) in
  match compositeOp c with
  | SourceOver => if covered then paintOver (fillStyle c) a px else px
  | DestinationIn => if covered then keepIn a px else []
  end.

(** Is the device point ([qx], [qy]) inside the rectangle given in user
    space?  An empty rectangle covers nothing. *)
Definition inRect (c : Ctx) (x y w h qx qy : num) : bool :=
  let x0 := Num.add (Num.mul (sx c) x) (tx c) in
  let x1 := Num.add (Num.mul (sx c) (Num.add x w)) (tx c) in
  let y0 := Num.add (Num.mul (sy c) y) (ty_ c) in
  let y1 := Num.add (Num.mul (sy c) (Num.add y h)) (ty_ c) in
  Num.leb (Num.min x0 x1) qx && Num.ltb qx (Num.max x0 x1) &&
  Num.leb (Num.min y0 y1) qy && Num.ltb qy (Num.max y0 y1).

Definition sq (x : num) : num := Num.mul x x.

(** Inside the closed circle kept in the path as centre and radii in device
    space. *)
Definition inEllipse (e : num * num * num * num) (qx qy : num) : bool :=
  let '(cx, cy, rx, ry) := e in
  Num.ltb (Num.add (Num.mul (sq (Num.sub qx cx)) (sq ry))
                   (Num.mul (sq (Num.sub qy cy)) (sq rx)))
          (Num.mul (sq rx) (sq ry)).

Definition allFinite (l : list num) : bool := forallb Num.is_finite l.

(** One call on the context, seen from the sample point; [arc] with a negative
    radius raises.  Calls with a non-finite argument are ignored, as is an
    assignment of an invalid value.  Only full circles get an interior. *)
Definition step (qx qy : num) (st : Ctx * Pixel) (cmd : Cmd)
  : result (Ctx * Pixel) :=
  let '(c, px) := st in
  match cmd with
  | ClearRect x y w h =>
      Ok (c, if allFinite [x; y; w; h] && inRect c x y w h qx qy then [] else px)
  | SetFillStyle (Rgba r g b a) =>
      if Num.is_finite a then
        Ok (withDrawState c
              (Rgba r g b (Num.max Num.zero (Num.min Num.one a)))
              (globalAlpha c) (matrixOf c) (compositeOp c) (path c) (saved c), px)
      else Ok (c, px)
  | SetFillStyle s =>
      Ok (withDrawState c s (globalAlpha c) (matrixOf c) (compositeOp c)
            (path c) (saved c), px)
  | SetGlobalAlpha a =>
      if inUnit a then
        Ok (withDrawState c (fillStyle c) a (matrixOf c) (compositeOp c)
              (path c) (saved c), px)
      else Ok (c, px)
  | SetGlobalCompositeOperation op =>
      Ok (withDrawState c (fillStyle c) (globalAlpha c) (matrixOf c) op
            (path c) (saved c), px)
  | FillRect x y w h =>
      if allFinite [x; y; w; h] then
        Ok (c, composite c (inRect c x y w h qx qy) px)
      else Ok (c, px)
  | Save =>
      Ok (withDrawState c (fillStyle c) (globalAlpha c) (matrixOf c)
            (compositeOp c) (path c)
            ((fillStyle c, globalAlpha c, matrixOf c, compositeOp c) :: saved c), px)
  | Restore =>
      match saved c with
      | [] => Ok (c, px)
      | (f, ga, m, op) :: rest => Ok (withDrawState c f ga m op (path c) rest, px)
      end
  | Translate x y =>
      if allFinite [x; y] then
        Ok (withDrawState c (fillStyle c) (globalAlpha c)
              (sx c, sy c, Num.add (Num.mul (sx c) x) (tx c),
               Num.add (Num.mul (sy c) y) (ty_ c))
              (compositeOp c) (path c) (saved c), px)
      else Ok (c, px)
  | Scale x y =>
      if allFinite [x; y] then
        Ok (withDrawState c (fillStyle c) (globalAlpha c)
              (Num.mul (sx c) x, Num.mul (sy c) y, tx c, ty_ c)
              (compositeOp c) (path c) (saved c), px)
      else Ok (c, px)
  | BeginPath =>
      Ok (withDrawState c (fillStyle c) (globalAlpha c) (matrixOf c)
            (compositeOp c) [] (saved c), px)
  | Arc x y r a0 a1 =>
      if negb (allFinite [x; y; r; a0; a1]) then Ok (c, px)
      else if Num.ltb r Num.zero then
        Throw (Error "IndexSizeError: the radius provided is negative")
      else if Num.leb (Num.mul Math_PI Num.two) (Num.sub a1 a0) then
        Ok (withDrawState c (fillStyle c) (globalAlpha c) (matrixOf c)
              (compositeOp c)
              ((Num.add (Num.mul (sx c) x) (tx c),
                Num.add (Num.mul (sy c) y) (ty_ c),
                Num.mul (SFabs (sx c)) r, Num.mul (SFabs (sy c)) r) :: path c)
              (saved c), px)
      else Ok (c, px)
  | Fill =>
      Ok (c, composite c (existsb (fun e => inEllipse e qx qy) (path c)) px)
  end.

Fixpoint run (qx qy : num) (cmds : list Cmd) (st : Ctx * Pixel)
  : result (Ctx * Pixel) :=
  match cmds with
  | [] => Ok st
  | cmd :: rest =>
      match step qx qy st cmd with
      | Ok st' => run qx qy rest st'
      | Throw e => Throw e
      end
  end.

(** The composite that the commands leave at the sample point. *)
Definition pixelAt (cmds : list Cmd) (qx qy : num) : result Pixel :=
  match run qx qy cmds (initialCtx, []) with
  | Ok (_, px) => Ok px
  | Throw e => Throw e
  end.

Fixpoint list_eqb {A} (eqb : A -> A -> bool) (l1 l2 : list A) : bool :=
  match l1, l2 with
  | [], [] => true
  | a :: r1, b :: r2 => eqb a b && list_eqb eqb r1 r2
  | _, _ => false
  end.

Definition Style_eqb (s1 s2 : Style) : bool :=
  match s1, s2 with
  | LinearGradient a b c d st1, LinearGradient a' b' c' d' st2 =>
      Num.eqb a a' && Num.eqb b b' && Num.eqb c c' && Num.eqb d d' &&
      list_eqb (fun u v => Num.eqb (fst u) (fst v) && String.eqb (snd u) (snd v))
               st1 st2
  | Rgba r g b a, Rgba r' g' b' a' =>
      Z.eqb r r' && Z.eqb g g' && Z.eqb b b' && Num.eqb a a'
  | _, _ => false
  end.

(** The share of style [s] in the composite. *)
Definition shareOf (s : Style) (px : Pixel) : num :=
  fold_right (fun e acc => if Style_eqb (fst e) s then Num.add (snd e) acc else acc)
             Num.zero px.

(** The composite is the style [s] alone, at full strength. *)
Definition purely (s : Style) (px : Pixel) : bool :=
  Num.eqb (shareOf s px) Num.one &&
  forallb (fun e => Style_eqb (fst e) s || Num.is_zero (snd e)) px.

(** The pixel centres of a [w] by [h] surface. *)
Definition pixelCentres (w h : N) : list (num * num) :=
  flat_map (fun i =>
    map (fun j => (Num.add (Num.ofZ (Z.of_nat i)) d0_5,
                   Num.add (Num.ofZ (Z.of_nat j)) d0_5))
        (seq 0 (N.to_nat h)))
    (seq 0 (N.to_nat w)).

(** Every pixel centre of the preview shows [s] alone. *)
Definition previewShowsOnly (s : Style) (ty : string) (progress : num)
    (w h : N) : bool :=
  let cmds := renderTransitionPreview ty progress w h in
  forallb (fun q =>
             match pixelAt cmds (fst q) (snd q) with
             | Ok px => purely s px
             | Throw _ => false
             end)
          (pixelCentres w h).

Definition fromRegion (w h : N) : Style :=
  gradient1 (Num.ofZ (Z.of_N w)) (Num.ofZ (Z.of_N h)).

Definition toRegion (w h : N) : Style :=
  gradient2 (Num.ofZ (Z.of_N w)) (Num.ofZ (Z.of_N h)).

(* ------------------------------------------------------------------------- *)
(** ** Transitions integration (v1): the handlers of the transitions panel *)

Module IntegrationV1.

(** The effects of the handlers: those on the store and the page as before,
    and [updateClipTransitionIndicator(clipId, hasTransition)]. *)
Inductive UiEffect :=
| Host (e : Effect)
| Indicator (clipId : string) (hasTransition : bool).

(** The closure state of [initTransitionsIntegration]: the store that
    [getEditorStoreFromWindow()] yields, the [manager] and the trace. *)
Record World := {
  store : option Store;
  manager : TransitionManager.t;
  trace : list UiEffect
}.

(** [t.fromClipId !== clipId && t.toClipId !== clipId] *)
Definition apartFrom (clipId : string) (t : TransitionData) : bool :=
  negb (String.eqb (fromClipId t) clipId) && negb (String.eqb (toClipId t) clipId).

Section Dom.

(** [findClipInDOM(clipId)]: the clip read from the data attributes of the
    element that [document.querySelector] finds, if it finds one. *)
Variable findClipInDOM : string -> option Clip.

(** [findClipInProject(clipId)]: the store's tracks, or the page when there
    is no store or no [project.tracks]; the page yields no successor. *)
Definition findClipInProject (cid : string) (w : World)
  : option (Clip * option Clip) :=
  match store w with
  | Some {| project := Some {| tracks := Some ts |} |} =>
      TransitionsStoreMonitor.findInTracks cid ts
  | _ => option_map (fun c => (c, None)) (findClipInDOM cid)
  end.

(** [saveTransitionToProject(clipId, transition)] *)
Definition saveTransitionToProject (cid : string) (transition : TransitionData)
    (w : World) : result World :=
  match store w with
  | None => Ok w
  | Some s =>
      match project s with
      | None => Throw (Error "TypeError: cannot read properties of undefined")
      | Some p =>
          let old := match transitions p with Some l => l | None => [] end in
          Ok {| store := Some (setTransitions
                                 (filter (apartFrom cid) old ++ [transition]) s);
                manager := manager w;
                trace := trace w ++ map Host (callHooks s false) ++
                           [Host (Console "log" "[Transitions] Saved to project")] |}
      end
  end.

(** [removeTransitionFromProject(clipId)] *)
Definition removeTransitionFromProject (cid : string) (w : World) : World :=
  match store w with
  | Some s =>
      match project s with
      | Some {| transitions := Some old |} =>
          {| store := Some (setTransitions (filter (apartFrom cid) old) s);
             manager := manager w;
             trace := trace w ++ map Host (callHooks s false) |}
      | _ => w
      end
  | None => w
  end.

Definition say (e : Effect) (w : World) : World :=
  {| store := store w; manager := manager w; trace := trace w ++ [Host e] |}.

Definition indicate (cid : string) (on : bool) (w : World) : World :=
  {| store := store w; manager := manager w;
     trace := trace w ++ [Indicator cid on] |}.

(** [handleTransitionSelect(clipId, transitionType, options)]; [uuid] and
    [now] are the values of [crypto.randomUUID()] and [Date.now()] in the
    call of [addTransition]. *)
Definition handleTransitionSelect (uuid : string) (now : Z)
    (cid ty : string) (options : Options) (w : World) : result World :=
  let w0 := say (Console "log" "[Transitions] Adding transition") w in
  match findClipInProject cid w0 with
  | None => Ok (say (Notification "Clip not found in timeline" "error") w0)
  | Some (_, None) =>
      Ok (say (Notification "Add another clip after this one to create a transition"
                            "warning") w0)
  | Some (clip, Some nextClip) =>
      let maxDuration :=
        Num.div (Num.min (clip_duration clip) (clip_duration nextClip)) Num.two in
      let d := Num.min (orDefault (o_duration options) d1_0) maxDuration in
      match TransitionManager.addTransition uuid now cid (clip_id nextClip) ty
              {| o_duration := Some d; o_extra := o_extra options |} (manager w0) with
      | Throw e => Throw e
      | Ok (transition, m') =>
          match saveTransitionToProject cid transition
                  {| store := store w0; manager := m'; trace := trace w0 |} with
          | Throw e => Throw e
          | Ok w1 =>
              Ok (say (Notification
                         (TransitionsStoreMonitor.displayName ty ++ " transition added!")
                         "success")
                      (indicate cid true w1))
          end
      end
  end.

(** [handleTransitionRemove(clipId)] *)
Definition handleTransitionRemove (cid : string) (w : World) : World :=
  say (Notification "Transition removed" "info")
      (indicate cid false
         (removeTransitionFromProject cid
            (say (Console "log" "[Transitions] Removing transition from clip") w))).

(** [loadExistingTransitions()] *)
Definition loadExistingTransitions (w : World) : World :=
  match store w with
  | Some {| project := Some {| transitions := Some l |} |} =>
      {| store := store w;
         manager := fold_left
           (fun acc x => JsMap.set (toClipId x) x (JsMap.set (fromClipId x) x acc))
           l (manager w);
         trace := trace w ++
           [Host (Console "log" "[Transitions] Loaded existing transitions")] |}
  | _ => w
  end.

End Dom.

End IntegrationV1.

(* ------------------------------------------------------------------------- *)
(** ** Audio control: the volume of a clip

    The clip objects of the store are taken to be distinct objects: writing a
    field of the clip that [findClipInProject] returns changes that one
    position of the tracks. *)

Module AudioControl.

(** The fields of a clip that the volume functions read or write; an absent
    field is [undefined]. *)
Record AudioClip := {
  ac_id : string;
  ac_volume : option num;
  ac_audioVolume : option num;
  ac_originalVolume : option num
}.

(** The store: [project?.tracks] (absent when there is no project or no
    track list), each track with its optional [clips], and the two hooks. *)
Record AudioStore := {
  a_tracks : option (list (option (list AudioClip)));
  a_hasSaveNow : bool;
  a_hasPushSnapshot : bool
}.

Inductive AudioEffect :=
| AHost (e : Effect)
| UpdateAudioControls (clipId : string).

Record World := {
  store : option AudioStore;
  trace : list AudioEffect
}.

Definition d0_3 : num := Eval vm_compute in Num.dec 3 10.

Fixpoint findInClips (cid : string) (cs : list AudioClip) : option AudioClip :=
  match cs with
  | [] => None
  | c :: r => if String.eqb (ac_id c) cid then Some c else findInClips cid r
  end.

Fixpoint findInTracks (cid : string) (ts : list (option (list AudioClip)))
  : option AudioClip :=
  match ts with
  | [] => None
  | None :: r => findInTracks cid r
  | Some cs :: r =>
      match findInClips cid cs with
      | Some c => Some c
      | None => findInTracks cid r
      end
  end.

(** [findClipInProject(clipId)?.clip] *)
Definition findClipInProject (cid : string) (w : World) : option AudioClip :=
  match store w with
  | Some {| a_tracks := Some ts |} => findInTracks cid ts
  | _ => None
  end.

(** Writing the clip that [findClipInProject] returns. *)
Fixpoint writeInClips (cid : string) (f : AudioClip -> AudioClip)
    (cs : list AudioClip) : list AudioClip :=
  match cs with
  | [] => []
  | c :: r => if String.eqb (ac_id c) cid then f c :: r else c :: writeInClips cid f r
  end.

Fixpoint writeInTracks (cid : string) (f : AudioClip -> AudioClip)
    (ts : list (option (list AudioClip))) : list (option (list AudioClip)) :=
  match ts with
  | [] => []
  | None :: r => None :: writeInTracks cid f r
  | Some cs :: r =>
      match findInClips cid cs with
      | Some _ => Some (writeInClips cid f cs) :: r
      | None => Some cs :: writeInTracks cid f r
      end
  end.

(** [pushSnapshot()] and then [saveNow()], each if it is a function. *)
Definition hooks (s : AudioStore) : list AudioEffect :=
  (if a_hasPushSnapshot s then [AHost PushSnapshot] else []) ++
  (if a_hasSaveNow s then [AHost SaveNow] else []).

(** The assignment of [updateAudioVolume]:
    [clip.audioVolume = Math.max(0, Math.min(1, volume))]. *)
Definition setVolume (volume : num) (c : AudioClip) : AudioClip :=
  {| ac_id := ac_id c; ac_volume := ac_volume c;
     ac_audioVolume := Some (clampProgress volume);
     ac_originalVolume := ac_originalVolume c |}.

(** The assignments of [lowerAudioVolume]. *)
Definition lowered (c : AudioClip) : AudioClip :=
  let newVolume :=
    match ac_audioVolume c with
    | Some av => Num.max Num.zero (Num.sub av d0_3)
    | None => Num.max Num.zero (Num.sub (orDefault (ac_volume c) Num.one) d0_3)
    end in
  {| ac_id := ac_id c; ac_volume := ac_volume c;
     ac_audioVolume := Some (clampProgress newVolume);
     ac_originalVolume :=
       match ac_originalVolume c with
       | Some o => Some o
       | None => Some (orDefault (ac_volume c) Num.one)
       end |}.

(** [updateAudioVolume(clipId, volume)] *)
Definition updateAudioVolume (cid : string) (volume : num) (w : World) : World :=
  match store w with
  | Some s =>
      match a_tracks s with
      | Some ts =>
          match findInTracks cid ts with
          | Some _ =>
              {| store := Some {| a_tracks := Some (writeInTracks cid (setVolume volume) ts);
                                  a_hasSaveNow := a_hasSaveNow s;
                                  a_hasPushSnapshot := a_hasPushSnapshot s |};
                 trace := trace w ++ hooks s |}
          | None => w
          end
      | None => w
      end
  | None => w
  end.

Section Host.

(** [(x * 100).toFixed(0)] *)
Variable percent : num -> string.

(** [lowerAudioVolume(clipId)] *)
Definition lowerAudioVolume (cid : string) (w : World) : World :=
  let log := AHost (Console "log" "[AudioControl] Lowering audio volume for clip") in
  let missing :=
    {| store := store w;
       trace := trace w ++
         [log; AHost (Notification "Could not find selected clip" "error")] |} in
  match store w with
  | Some s =>
      match a_tracks s with
      | Some ts =>
          match findInTracks cid ts with
          | Some c =>
              {| store := Some {| a_tracks := Some (writeInTracks cid lowered ts);
                                  a_hasSaveNow := a_hasSaveNow s;
                                  a_hasPushSnapshot := a_hasPushSnapshot s |};
                 trace := trace w ++ [log] ++ hooks s ++
                   [AHost (Notification
                             ("Audio volume lowered to " ++
                              percent (match ac_audioVolume (lowered c) with
                                       | Some v => v
                                       | None => Num.NaN
                                       end) ++ "%") "success");
                    UpdateAudioControls cid] |}
          | None => missing
          end
      | None => missing
      end
  | None => missing
  end.

End Host.

End AudioControl.

(* ------------------------------------------------------------------------- *)
(** ** [TransitionsStoreMonitor], the version without the track snapshot

    The file holds two versions of the monitor.  This one reports a clip it
    does not find with a notification, does not refresh the inline buttons
    and keeps no snapshot; its [findClipInProject] is the loop of the other
    version. *)

Module TransitionsStoreMonitorV1.

Record World := {
  store : option Store;
  pendingTransitions : list TransitionsStoreMonitor.Pending;
  created : nat;
  trace : list Effect
}.

Section Host.

Variable randomUUID : nat -> string.
Variable dateNow : nat -> Z.

Definition addTransitionToProject (cid ty : string) (opts : option Options)
    (s : Store) (n : nat) : Store * nat * list Effect :=
  match TransitionsStoreMonitor.findClipInProject cid s with
  | None =>
      (s, n, [Console "error" "[Transitions] Could not find clip in project";
              Notification "Could not find selected clip in project" "error"])
  | Some (_, None) =>
      (s, n, [Console "warn" "[Transitions] No next clip found for transition";
              Notification "Add another clip after this one to create a transition" "warning"])
  | Some (clip, Some nextClip) =>
      let maxDuration :=
        Num.div (Num.min (clip_duration clip) (clip_duration nextClip)) Num.two in
      let d :=
        Num.min (orDefault (match opts with Some o => o_duration o | None => None end) d1_0)
                maxDuration in
      let transition :=
        {| id := randomUUID n; fromClipId := cid; toClipId := clip_id nextClip;
           type := ty; duration := d;
           parameters := Some (match opts with Some o => o | None => noOptions end);
           createdAt := dateNow n |} in
      let kept := filter (fun t => negb (touches cid t)) (storedTransitions (Some s)) in
      (setTransitions (kept ++ [transition]) s, S n,
       (callHooks s true ++
        [Console "log" "[Transitions] Added to project";
         Notification (TransitionsStoreMonitor.displayName ty ++ " transition added!")
                      "success"])%list)
  end.

Fixpoint flush (q : list TransitionsStoreMonitor.Pending) (s : Store) (n : nat)
    (tr : list Effect) : Store * nat * list Effect :=
  match q with
  | [] => (s, n, tr)
  | p :: rest =>
      let '(s', n', e) :=
        addTransitionToProject (TransitionsStoreMonitor.clipId p)
          (TransitionsStoreMonitor.transitionType p)
          (TransitionsStoreMonitor.options p) s n in
      flush rest s' n' (tr ++ e)%list
  end.

(** One run of the [setInterval] callback. *)
Definition pollTick (w : World) : World :=
  match store w with
  | None => w
  | Some s =>
      let '(s', n', tr) := flush (pendingTransitions w) s (created w) (trace w) in
      {| store := Some s'; pendingTransitions := []; created := n'; trace := tr |}
  end.

Definition handleTransition (cid ty : string) (opts : option Options) (w : World)
  : World :=
  match store w with
  | Some s =>
      let '(s', n', e) := addTransitionToProject cid ty opts s (created w) in
      {| store := Some s'; pendingTransitions := pendingTransitions w;
         created := n'; trace := trace w ++ e |}
  | None =>
      {| store := None;
         pendingTransitions := pendingTransitions w ++
           [{| TransitionsStoreMonitor.clipId := cid;
               TransitionsStoreMonitor.transitionType := ty;
               TransitionsStoreMonitor.options := opts |}];
         created := created w;
         trace := trace w ++
           [Console "log" "[Transitions] Editor store not ready, queuing transition"] |}
  end.

End Host.

End TransitionsStoreMonitorV1.

(* ------------------------------------------------------------------------- *)
(** ** Vocabulary of the properties *)

(** Two instances join the same unordered pair of clips. *)
Definition samePair (a b : TransitionData) : Prop :=
  matchesPair (fromClipId a) (toClipId a) b = true.

(** The test of [getTransitionBetween]: the instance runs from [aId] to
    [bId]. *)
Definition between (aId bId : string) (t : TransitionData) : bool :=
  String.eqb (fromClipId t) aId && String.eqb (toClipId t) bId.

(** The calls that add to or remove from the graph and the store. *)
Inductive Call :=
| CallAddTransition (uuid : string) (now : Z) (from to ty : string) (opts : Options)
| CallRemoveTransition (clipId : string)
| CallSaveToStore (uuid : string) (now : Z) (from to ty : string) (d : option num)
| CallRemoveFromStore (from to : string)
| CallAddToProject (uuid : string) (now : Z) (clipId ty : string) (opts : option Options).

(** A call that raises leaves the state as it was. *)
Definition applyCall (w : Integration.World) (c : Call) : Integration.World :=
  match c with
  | CallAddTransition uuid now from to ty opts =>
      match TransitionManager.addTransition uuid now from to ty opts
              (Integration.manager w) with
      | Ok (_, m') =>
          {| Integration.store := Integration.store w;
             Integration.manager := m';
             Integration.trace := Integration.trace w |}
      | Throw _ => w
      end
  | CallRemoveTransition clipId =>
      {| Integration.store := Integration.store w;
         Integration.manager :=
           snd (TransitionManager.removeTransition clipId (Integration.manager w));
         Integration.trace := Integration.trace w |}
  | CallSaveToStore uuid now from to ty d =>
      match Integration.saveTransitionToStore uuid now from to ty d w with
      | Ok (_, w') => w'
      | Throw _ => w
      end
  | CallRemoveFromStore from to => Integration.removeTransitionFromStore from to w
  | CallAddToProject uuid now clipId ty opts =>
      match Integration.store w with
      | Some s =>
          let '(s', _, e) :=
            TransitionsStoreMonitor.addTransitionToProject
              (fun _ => uuid) (fun _ => now) clipId ty opts s 0 in
          {| Integration.store := Some s';
             Integration.manager := Integration.manager w;
             Integration.trace := (Integration.trace w ++ e)%list |}
      | None => w
      end
  end.

Definition runCalls (calls : list Call) (w : Integration.World) : Integration.World :=
  fold_left applyCall calls w.

(** The states of the in-memory graph that the manager's methods reach. *)
Inductive reachable : TransitionManager.t -> Prop :=
| reach_new : reachable TransitionManager.new
| reach_add uuid now from to ty opts m t m' :
    reachable m ->
    TransitionManager.addTransition uuid now from to ty opts m = Ok (t, m') ->
    reachable m'
| reach_remove clipId m :
    reachable m ->
    reachable (snd (TransitionManager.removeTransition clipId m))
| reach_clear m :
    reachable m -> reachable (TransitionManager.clearAll m)
| reach_import data m :
    reachable m -> reachable (TransitionManager.importTransitions data m).

(** Every instance of the graph is stored under both of its endpoints. *)
Definition noOrphans (m : TransitionManager.t) : Prop :=
  forall k t,
    TransitionManager.getTransition k m = Some t ->
    TransitionManager.getTransition (fromClipId t) m = Some t /\
    TransitionManager.getTransition (toClipId t) m = Some t.

(** The transition that [addTransitionToProject] builds for a queued entry,
    as the [n]-th created object, when the clip has a successor. *)
Definition plannedTransition (randomUUID : nat -> string) (dateNow : nat -> Z)
    (s : Store) (p : TransitionsStoreMonitor.Pending) (n : nat)
  : option TransitionData :=
  match TransitionsStoreMonitor.findClipInProject
          (TransitionsStoreMonitor.clipId p) s with
  | Some (clip, Some nextClip) =>
      Some {| id := randomUUID n;
              fromClipId := TransitionsStoreMonitor.clipId p;
              toClipId := clip_id nextClip;
              type := TransitionsStoreMonitor.transitionType p;
              duration :=
                Num.min
                  (orDefault
                     (match TransitionsStoreMonitor.options p with
                      | Some o => o_duration o
                      | None => None
                      end) d1_0)
                  (Num.div (Num.min (clip_duration clip) (clip_duration nextClip))
                           Num.two);
              parameters :=
                Some (match TransitionsStoreMonitor.options p with
                      | Some o => o
                      | None => noOptions
                      end);
              createdAt := dateNow n |}
  | _ => None
  end.

(** Some entry of [q] is applied (its clip has a successor) and its clip is an
    endpoint of [t]: applying it removes [t] from the list. *)
Definition removedBy (s : Store) (q : list TransitionsStoreMonitor.Pending)
    (t : TransitionData) : bool :=
  existsb
    (fun p =>
       match TransitionsStoreMonitor.findClipInProject
               (TransitionsStoreMonitor.clipId p) s with
       | Some (_, Some _) => touches (TransitionsStoreMonitor.clipId p) t
       | _ => false
       end) q.

(** The transitions of the queue that are still in the list once the whole
    queue has been applied, in queue order. *)
Fixpoint survivors (randomUUID : nat -> string) (dateNow : nat -> Z)
    (s : Store) (q : list TransitionsStoreMonitor.Pending) (n : nat)
  : list TransitionData :=
  match q with
  | [] => []
  | p :: rest =>
      match plannedTransition randomUUID dateNow s p n with
      | None => survivors randomUUID dateNow s rest n
      | Some t =>
          (if removedBy s rest t then [] else [t]) ++
          survivors randomUUID dateNow s rest (S n)
      end
  end%list.

(** The three fields of a stored transition that the queue entry fixes. *)
Definition edgeOf (t : TransitionData) : string * string * string :=
  (fromClipId t, toClipId t, type t).

(** A number that is not below zero: NaN, a zero, or a positive value. *)
Definition notNegative (x : num) : bool :=
  match x with
  | S754_finite true _ _ | S754_infinity true => false
  | _ => true
  end.

(** A binary64 value proper: the mantissa and the exponent are in canonical
    form. *)
Definition isBinary64 (x : num) : bool := valid_binary Num.prec Num.emax x.

(** A call that the context accepts: every call but [arc] with a finite
    negative radius. *)
Definition accepted (cmd : Cmd) : Prop :=
  match cmd with
  | Arc _ _ r _ _ => notNegative r = true
  | _ => True
  end.

(** The type strings that have a case of their own in the [switch]. *)
Definition switchCases : list string :=
  ["crossfade"; "fadeToBlack"; "fadeToWhite"; "wipeLeft"; "wipeRight";
   "wipeUp"; "wipeDown"; "slideLeft"; "slideRight"; "zoomIn"; "zoomOut";
   "circleOpen"; "circleClose"].

(** The keys of a map are pairwise distinct. *)
Definition wf {V : Type} (m : JsMap.t V) : Prop := NoDup (JsMap.keys m).

(** Each key of the graph is an endpoint of the instance stored under it. *)
Definition keysAreEndpoints (m : TransitionManager.t) : Prop :=
  forall k t, JsMap.get k m = Some t -> k = fromClipId t \/ k = toClipId t.

(** Two instances of the graph on the same unordered pair are one instance. *)
Definition graphPairsUnique (m : TransitionManager.t) : Prop :=
  forall k1 k2 t1 t2,
    TransitionManager.getTransition k1 m = Some t1 ->
    TransitionManager.getTransition k2 m = Some t2 ->
    samePair t1 t2 -> t1 = t2.

(** No two entries of the list are on the same unordered pair. *)
Definition listPairsUnique (l : list TransitionData) : Prop :=
  forall i j t1 t2,
    i <> j -> nth_error l i = Some t1 -> nth_error l j = Some t2 ->
    ~ samePair t1 t2.

(** The same, by recursion on the list. *)
Fixpoint pairwiseApart (l : list TransitionData) : Prop :=
  match l with
  | [] => True
  | a :: r =>
      Forall (fun b => matchesPair (fromClipId a) (toClipId a) b = false) r /\
      pairwiseApart r
  end.

(** The invariant of the in-memory graph. *)
Definition graphInv (m : TransitionManager.t) : Prop :=
  wf m /\ keysAreEndpoints m /\ graphPairsUnique m.

(** The invariant of the graph together with the list of the store. *)
Definition worldInv (w : Integration.World) : Prop :=
  graphInv (Integration.manager w) /\
  pairwiseApart (Integration.getStoredTransitions w).

(** The clip ids of every track, as the snapshot lists them. *)
Definition trackIds (s : Store) : list (list string) :=
  map (fun t => map clip_id (match clips t with Some cs => cs | None => [] end))
      (match project s with
       | Some {| tracks := Some ts |} => ts
       | _ => []
       end).

(** The value of a lower-case hexadecimal digit. *)
Definition hexVal (c : ascii) : nat :=
  let n := nat_of_ascii c in
  if (48 <=? n)%nat && (n <=? 57)%nat then n - 48
  else if (97 <=? n)%nat && (n <=? 102)%nat then n - 87
  else 0.

(** The character that a two-character escape stands for. *)
Definition unescape (e : ascii) : ascii :=
  let n := nat_of_ascii e in
  if (n =? 98)%nat then ascii_of_nat 8
  else if (n =? 116)%nat then ascii_of_nat 9
  else if (n =? 110)%nat then ascii_of_nat 10
  else if (n =? 102)%nat then ascii_of_nat 12
  else if (n =? 114)%nat then ascii_of_nat 13
  else e.

(** Reading back the body of a JSON string up to its closing quote: the
    decoded text and what follows the quote. *)
Fixpoint decodeBody (s : string) : option (string * string) :=
  match s with
  | EmptyString => None
  | String c r =>
      if Ascii.eqb c dquote then Some (EmptyString, r)
      else if Ascii.eqb c "\" then
        match r with
        | EmptyString => None
        | String e r1 =>
            if Ascii.eqb e "u" then
              match r1 with
              | String _ (String _ (String h1 (String h2 r2))) =>
                  match decodeBody r2 with
                  | Some (t, rest) =>
                      Some (String (ascii_of_nat (hexVal h1 * 16 + hexVal h2)) t, rest)
                  | None => None
                  end
              | _ => None
              end
            else
              match decodeBody r1 with
              | Some (t, rest) => Some (String (unescape e) t, rest)
              | None => None
              end
        end
      else
        match decodeBody r with
        | Some (t, rest) => Some (String c t, rest)
        | None => None
        end
  end.

(** What follows the first element of an array: the other elements, each
    after a comma, and the closing bracket. *)
Fixpoint arrayRest {A : Type} (enc : A -> string) (l : list A) (rest : string)
  : string :=
  match l with
  | [] => String "]" rest
  | a :: r => String "," (enc a ++ arrayRest enc r rest)
  end.

(** How often the trace signals a change of the track composition. *)
Definition topologySignals (tr : list Effect) : nat :=
  List.length (filter (fun e => match e with TopologyChanged => true | _ => false end) tr).

(** The calls of the store's own hooks in a list of effects. *)
Definition hookCalls (tr : list Effect) : list Effect :=
  filter (fun e => match e with SaveNow | PushSnapshot => true | _ => false end) tr.

(** The store holds a track in which a clip with id [a] is directly followed
    by a clip with id [b]. *)
Definition adjacentInTrack (s : Store) (a b : string) : Prop :=
  exists p ts t cs pre x y post,
    project s = Some p /\ tracks p = Some ts /\ In t ts /\ clips t = Some cs /\
    cs = (pre ++ x :: y :: post)%list /\ clip_id x = a /\ clip_id y = b.

(** What the store is besides its list of transitions: the tracks and the
    two hooks. *)
Definition storeFrame (s : Store) : option (option (list Track)) * bool * bool :=
  (option_map tracks (project s), hasSaveNow s, hasPushSnapshot s).

(** The calls that reach the monitor: a [transitions:add] event and a run of
    the interval callback. *)
Inductive MonitorCall :=
| MonitorAdd (clipId ty : string) (opts : option Options)
| MonitorTick.

Definition applyMonitorCall (randomUUID : nat -> string) (dateNow : nat -> Z)
    (w : TransitionsStoreMonitor.World) (c : MonitorCall)
  : TransitionsStoreMonitor.World :=
  match c with
  | MonitorAdd cid ty opts =>
      TransitionsStoreMonitor.handleTransition randomUUID dateNow cid ty opts w
  | MonitorTick => fst (TransitionsStoreMonitor.pollTick randomUUID dateNow w)
  end.

Definition runMonitor (randomUUID : nat -> string) (dateNow : nat -> Z)
    (calls : list MonitorCall) (w : TransitionsStoreMonitor.World)
  : TransitionsStoreMonitor.World :=
  fold_left (applyMonitorCall randomUUID dateNow) calls w.

(** No clip is the source of two transitions of the list, and every
    transition of the list joins a clip and the clip after it in a track. *)
Definition monitorListOk (s : Store) (l : list TransitionData) : Prop :=
  NoDup (map fromClipId l) /\
  Forall (fun t => adjacentInTrack s (fromClipId t) (toClipId t)) l.

(** The add event that queues the entry [p]. *)
Definition addOf (p : TransitionsStoreMonitor.Pending) : MonitorCall :=
  MonitorAdd (TransitionsStoreMonitor.clipId p)
             (TransitionsStoreMonitor.transitionType p)
             (TransitionsStoreMonitor.options p).

(** The manager answers every clip with the last stored transition that
    touches it: what [syncFromStore] would load is what the manager holds. *)
Definition inSync (w : Integration.World) : Prop :=
  forall k,
    TransitionManager.getTransition k (Integration.manager w) =
    find (touches k) (rev (Integration.getStoredTransitions w)).

(** What one call does to the drawing state, whatever the sample point. *)
Definition ctxStep (c : Ctx) (cmd : Cmd) : Ctx :=
  match step Num.zero Num.zero (c, []) cmd with
  | Ok (c', _) => c'
  | Throw _ => c
  end.

(** The number is the constant 1. *)
Definition isOne (a : num) : bool :=
  match a with
  | S754_finite false m e => Pos.eqb m 4503599627370496 && Z.eqb e (-52)
  | _ => false
  end.

(** What is known of a drawing state relative to the state [c0] a frame
    started on: whether [globalAlpha] is 1, the compositing operation,
    whether the transform is that of [c0], and the same for each entry that
    the frame pushed on the [save()] stack. *)
Record Known := {
  alphaIsOne : bool;
  knownOp : CompositeOp;
  transformKept : bool;
  pushed : list (bool * CompositeOp * bool)
}.

Definition knownStep (k : Known) (cmd : Cmd) : option Known :=
  match cmd with
  | SetGlobalAlpha a =>
      Some {| alphaIsOne := isOne a; knownOp := knownOp k;
              transformKept := transformKept k; pushed := pushed k |}
  | SetGlobalCompositeOperation op =>
      Some {| alphaIsOne := alphaIsOne k; knownOp := op;
              transformKept := transformKept k; pushed := pushed k |}
  | Translate _ _ | Scale _ _ =>
      Some {| alphaIsOne := alphaIsOne k; knownOp := knownOp k;
              transformKept := false; pushed := pushed k |}
  | Save =>
      Some {| alphaIsOne := alphaIsOne k; knownOp := knownOp k;
              transformKept := transformKept k;
              pushed := (alphaIsOne k, knownOp k, transformKept k) :: pushed k |}
  | Restore =>
      match pushed k with
      | (a, op, t) :: rest =>
          Some {| alphaIsOne := a; knownOp := op; transformKept := t; pushed := rest |}
      | [] => None
      end
  | _ => Some k
  end.

Fixpoint knownRun (k : Known) (cmds : list Cmd) : option Known :=
  match cmds with
  | [] => Some k
  | cmd :: rest =>
      match knownStep k cmd with
      | Some k' => knownRun k' rest
      | None => None
      end
  end.

Definition entryHolds (c0 : Ctx) (a : bool * CompositeOp * bool)
    (e : Style * num * (num * num * num * num) * CompositeOp) : Prop :=
  let '(one, op, kept) := a in
  let '(_, ga, m, op') := e in
  (one = true -> ga = Num.one) /\ op' = op /\ (kept = true -> m = matrixOf c0).

(** The drawing state [c] is as [k] says. *)
Definition holds (c0 : Ctx) (k : Known) (c : Ctx) : Prop :=
  (alphaIsOne k = true -> globalAlpha c = Num.one) /\
  compositeOp c = knownOp k /\
  (transformKept k = true -> matrixOf c = matrixOf c0) /\
  exists entries,
    saved c = (entries ++ saved c0)%list /\
    Forall2 (entryHolds c0) (pushed k) entries.

(** A settled drawing state: [globalAlpha] 1, [source-over], the transform
    and the stack of [c0]. *)
Definition settled : Known :=
  {| alphaIsOne := true; knownOp := SourceOver; transformKept := true; pushed := [] |}.



(* ------------------------------------------------------------------------- *)
(** ** Example data *)

Module Examples.

Definition clip (i : string) (seconds : Z) : Clip :=
  {| clip_id := i; clip_duration := Num.ofZ seconds |}.

(** One track with the clips A (4 s), B (1 s), C (6 s) and D (2 s); no
    transitions yet. *)
Definition store4 : Store :=
  {| project := Some {| tracks := Some [ {| clips := Some
                          [clip "A" 4; clip "B" 1; clip "C" 6; clip "D" 2] |} ];
                        transitions := None |};
     hasSaveNow := true; hasPushSnapshot := true |}.

Definition uuids (n : nat) : string :=
  match n with 0 => "uuid-0" | 1 => "uuid-1" | 2 => "uuid-2" | _ => "uuid-n" end.

Definition clock (n : nat) : Z := 1700000000000 + Z.of_nat n.

Definition world0 : Integration.World :=
  {| Integration.store := Some store4;
     Integration.manager := TransitionManager.new;
     Integration.trace := [] |}.

Definition three : num := Eval vm_compute in Num.ofZ 3.
Definition minusOne : num := Eval vm_compute in Num.ofZ (-1).

Definition want (seconds : num) : Options :=
  {| o_duration := Some seconds; o_extra := [] |}.

(** A run that uses every kind of call. *)
Definition mixedCalls : list Call :=
  [CallSaveToStore "uuid-0" 0 "A" "B" "crossfade" None;
   CallAddTransition "uuid-1" 1 "B" "C" "blur" noOptions;
   CallSaveToStore "uuid-2" 2 "B" "A" "mirror" None;
   CallRemoveTransition "C";
   CallAddToProject "uuid-3" 3 "C" "wipeLeft" None;
   CallRemoveFromStore "A" "B"].

(** The manager after [add(A,B,crossfade)]. *)
Definition graphAB : TransitionManager.t :=
  Integration.manager
    (runCalls [CallAddTransition "uuid-0" 0 "A" "B" "crossfade" noOptions] world0).

(** The manager after [add(A,B,crossfade)] and [add(B,C,blur)]. *)
Definition graphABC : TransitionManager.t :=
  match TransitionManager.addTransition "uuid-0" 0 "A" "B" "crossfade" noOptions
          TransitionManager.new with
  | Ok (_, m) =>
      match TransitionManager.addTransition "uuid-1" 1 "B" "C" "blur" noOptions m with
      | Ok (_, m') => m'
      | Throw _ => m
      end
  | Throw _ => TransitionManager.new
  end.

(** The manager after [add(B,C,crossfade)], [add(A,B,blur)] and
    [add(B,C,mirror)]. *)
Definition graphBCA : TransitionManager.t :=
  Integration.manager
    (runCalls [CallAddTransition "uuid-0" 0 "B" "C" "crossfade" noOptions;
               CallAddTransition "uuid-1" 1 "A" "B" "blur" noOptions;
               CallAddTransition "uuid-2" 2 "B" "C" "mirror" noOptions] world0).

(** The monitor with (A, fade) and then (B, wipeLeft) queued while no store
    was found. *)
Definition queuedAB : TransitionsStoreMonitor.World :=
  TransitionsStoreMonitor.handleTransition uuids clock "B" "wipeLeft" None
    (TransitionsStoreMonitor.handleTransition uuids clock "A" "fade" None
       (TransitionsStoreMonitor.initial None)).

(** The monitor with (A, fade) and then (C, wipeLeft) queued. *)
Definition queuedAC : TransitionsStoreMonitor.World :=
  TransitionsStoreMonitor.handleTransition uuids clock "C" "wipeLeft" None
    (TransitionsStoreMonitor.handleTransition uuids clock "A" "fade" None
       (TransitionsStoreMonitor.initial None)).

(** The monitor in a window that has the store from the start. *)
Definition monitor4 : TransitionsStoreMonitor.World :=
  TransitionsStoreMonitor.initial (Some store4).

(** The same store after the user dropped a clip E at the end of the track. *)
Definition store5 : Store :=
  {| project := Some {| tracks := Some [ {| clips := Some
                          [clip "A" 4; clip "B" 1; clip "C" 6; clip "D" 2; clip "E" 3] |} ];
                        transitions := None |};
     hasSaveNow := true; hasPushSnapshot := true |}.

(** The monitor after its first tick on [store4], and then with the store
    changed to [store5]. *)
Definition ticked4 : TransitionsStoreMonitor.World :=
  fst (TransitionsStoreMonitor.pollTick uuids clock monitor4).

Definition ticked5 : TransitionsStoreMonitor.World :=
  TransitionsStoreMonitor.withStore (Some store5) ticked4.

(** Three add events: at A, at B and at A again. *)
Definition addsABA : list TransitionsStoreMonitor.Pending :=
  [ {| TransitionsStoreMonitor.clipId := "A";
       TransitionsStoreMonitor.transitionType := "fade";
       TransitionsStoreMonitor.options := None |};
    {| TransitionsStoreMonitor.clipId := "B";
       TransitionsStoreMonitor.transitionType := "wipeLeft";
       TransitionsStoreMonitor.options := Some (want three) |};
    {| TransitionsStoreMonitor.clipId := "A";
       TransitionsStoreMonitor.transitionType := "blur";
       TransitionsStoreMonitor.options := None |} ].

(** The manager after [add(A,B,crossfade)] and [add(B,A,blur)]. *)
Definition graphBA : TransitionManager.t :=
  Integration.manager
    (runCalls [CallAddTransition "uuid-0" 0 "A" "B" "crossfade" noOptions;
               CallAddTransition "uuid-1" 1 "B" "A" "blur" noOptions] world0).

(** The integration after [saveTransitionToStore(A, B, crossfade)]. *)
Definition worldAB : Integration.World :=
  runCalls [CallSaveToStore "uuid-0" 0 "A" "B" "crossfade" None] world0.

(** The panel's integration on [store4]; the page has no clip elements. *)
Definition noDom (_ : string) : option Clip := None.

Definition panel0 : IntegrationV1.World :=
  {| IntegrationV1.store := Some store4;
     IntegrationV1.manager := TransitionManager.new;
     IntegrationV1.trace := [] |}.

(** The panel after [handleTransitionSelect(B, crossfade, {duration: 1})]. *)
Definition panelB : IntegrationV1.World :=
  match IntegrationV1.handleTransitionSelect noDom "uuid-0" 0 "B" "crossfade"
          (want Num.one) panel0 with
  | Ok w => w
  | Throw _ => panel0
  end.

(** A store for the audio controls: one track with the clips V (no volume
    fields yet) and W (volume 0.5). *)
Definition audioV : AudioControl.AudioClip :=
  {| AudioControl.ac_id := "V"; AudioControl.ac_volume := None;
     AudioControl.ac_audioVolume := None; AudioControl.ac_originalVolume := None |}.

Definition audioW : AudioControl.AudioClip :=
  {| AudioControl.ac_id := "W"; AudioControl.ac_volume := Some Num.half;
     AudioControl.ac_audioVolume := None; AudioControl.ac_originalVolume := None |}.

Definition audio0 : AudioControl.World :=
  {| AudioControl.store :=
       Some {| AudioControl.a_tracks := Some [None; Some [audioV; audioW]];
               AudioControl.a_hasSaveNow := true;
               AudioControl.a_hasPushSnapshot := false |};
     AudioControl.trace := [] |}.

Definition percentText (_ : num) : string := "?".


(** The panel after a reload of the page: the store of [panelB], a new
    manager. *)
Definition panelReload : IntegrationV1.World :=
  {| IntegrationV1.store := IntegrationV1.store panelB;
     IntegrationV1.manager := TransitionManager.new;
     IntegrationV1.trace := [] |}.

End Examples.

(* ------------------------------------------------------------------------- *)
(** * Properties *)

Unset Implicit Arguments.

(** ** The map *)

Section JsMapFacts.
Variable V : Type.
Implicit Types (m : JsMap.t V) (k : string) (v : V).

Lemma get_set_same k v m : JsMap.get k (JsMap.set k v m) = Some v.
Proof.
  induction m as [|[k' v'] r IH]; simpl.
  - now rewrite String.eqb_refl.
  - destruct (String.eqb k k') eqn:E; simpl; rewrite E; auto.
Qed.

Lemma get_set_other k k' v m :
  k <> k' -> JsMap.get k (JsMap.set k' v m) = JsMap.get k m.
Proof.
  intros Hne. apply String.eqb_neq in Hne.
  induction m as [|[k0 v0] r IH]; simpl.
  - now rewrite Hne.
  - destruct (String.eqb k' k0) eqn:E; simpl.
    + apply String.eqb_eq in E. subst k0. now rewrite Hne.
    + now rewrite IH.
Qed.

Lemma get_set k k' v m :
  JsMap.get k (JsMap.set k' v m) =
  if String.eqb k k' then Some v else JsMap.get k m.
Proof.
  destruct (String.eqb k k') eqn:E.
  - apply String.eqb_eq in E. subst. apply get_set_same.
  - apply String.eqb_neq in E. now apply get_set_other.
Qed.

Lemma get_delete_other k k' m :
  k <> k' -> JsMap.get k (JsMap.delete k' m) = JsMap.get k m.
Proof.
  intros Hne. apply String.eqb_neq in Hne.
  induction m as [|[k0 v0] r IH]; simpl; auto.
  destruct (String.eqb k' k0) eqn:E; simpl.
  - apply String.eqb_eq in E. subst k0. now rewrite Hne.
  - now rewrite IH.
Qed.

Lemma get_none_keys k m : JsMap.get k m = None <-> ~ In k (JsMap.keys m).
Proof.
  induction m as [|[k0 v0] r IH]; simpl.
  - tauto.
  - destruct (String.eqb k k0) eqn:E.
    + apply String.eqb_eq in E. subst. split; [discriminate|tauto].
    + apply String.eqb_neq in E. rewrite IH. split.
      * intros H [H1|H1]; [congruence|tauto].
      * tauto.
Qed.

Lemma get_delete_same k m : wf m -> JsMap.get k (JsMap.delete k m) = None.
Proof.
  unfold wf. induction m as [|[k0 v0] r IH]; simpl; auto.
  intros Hnd. inversion Hnd as [|? ? Hnotin Hnd']. subst.
  destruct (String.eqb k k0) eqn:E; simpl.
  - apply String.eqb_eq in E. subst. now apply get_none_keys.
  - rewrite E. auto.
Qed.

Lemma keys_delete_incl k m x :
  In x (JsMap.keys (JsMap.delete k m)) -> In x (JsMap.keys m).
Proof.
  induction m as [|[k0 v0] r IH]; simpl; auto.
  destruct (String.eqb k k0); simpl; tauto.
Qed.

Lemma wf_delete k m : wf m -> wf (JsMap.delete k m).
Proof.
  unfold wf. induction m as [|[k0 v0] r IH]; simpl; auto.
  intros Hnd. inversion Hnd as [|? ? Hnotin Hnd']. subst.
  destruct (String.eqb k k0); simpl; auto.
  constructor; auto. intros H. apply Hnotin. eapply keys_delete_incl; eauto.
Qed.

Lemma keys_set_incl k v m x :
  In x (JsMap.keys (JsMap.set k v m)) -> x = k \/ In x (JsMap.keys m).
Proof.
  induction m as [|[k0 v0] r IH]; simpl.
  - intuition.
  - destruct (String.eqb k k0); simpl; intuition.
Qed.

Lemma wf_set k v m : wf m -> wf (JsMap.set k v m).
Proof.
  unfold wf. induction m as [|[k0 v0] r IH]; simpl.
  - intros _. constructor; [tauto|constructor].
  - intros Hnd. inversion Hnd as [|? ? Hnotin Hnd']. subst.
    destruct (String.eqb k k0) eqn:E; simpl.
    + constructor; auto.
    + constructor; auto. intros H.
      apply keys_set_incl in H. destruct H as [->|H]; [|tauto].
      now rewrite String.eqb_refl in E.
Qed.

Lemma get_In k v m : JsMap.get k m = Some v -> In (k, v) m.
Proof.
  induction m as [|[k' v'] r IH]; simpl; [discriminate|].
  destruct (String.eqb k k') eqn:E.
  - apply String.eqb_eq in E. intros [= ->]. subst. now left.
  - intros H. right. auto.
Qed.

Lemma In_get k v m : wf m -> In (k, v) m -> JsMap.get k m = Some v.
Proof.
  unfold wf. induction m as [|[k' v'] r IH]; simpl; [tauto|].
  intros Hnd. inversion Hnd as [|? ? Hnotin Hnd']. subst.
  intros [[= -> ->]|H].
  - now rewrite String.eqb_refl.
  - destruct (String.eqb k k') eqn:E; auto.
    apply String.eqb_eq in E. subst. exfalso. apply Hnotin.
    change k' with (fst (k', v)). now apply in_map.
Qed.

(** Deleting keeps what a lookup still finds. *)
Lemma get_delete_some k k' v m :
  wf m -> JsMap.get k (JsMap.delete k' m) = Some v -> JsMap.get k m = Some v.
Proof.
  intros Hwf. destruct (string_dec k k') as [->|Hne].
  - now rewrite get_delete_same.
  - now rewrite get_delete_other.
Qed.

End JsMapFacts.

(** ** Lists *)

Lemma find_app_split {A} (f : A -> bool) (l1 l2 : list A) :
  find f (l1 ++ l2) =
  match find f l1 with Some x => Some x | None => find f l2 end.
Proof.
  induction l1 as [|a r IH]; simpl; auto.
  destruct (f a); auto.
Qed.

Lemma find_none_all {A} (f : A -> bool) (l : list A) :
  (forall x, In x l -> f x = false) -> find f l = None.
Proof.
  induction l as [|a r IH]; simpl; auto.
  intros H. rewrite (H a) by now left. auto.
Qed.

Lemma filter_filter {A} (f g : A -> bool) (l : list A) :
  filter f (filter g l) = filter (fun x => g x && f x) l.
Proof.
  induction l as [|a r IH]; simpl; auto.
  destruct (g a); simpl; [destruct (f a)|]; now rewrite IH.
Qed.

Lemma filter_all {A} (f : A -> bool) (l : list A) :
  (forall x, In x l -> f x = true) -> filter f l = l.
Proof.
  induction l as [|a r IH]; simpl; auto.
  intros H. rewrite (H a) by now left. f_equal. auto.
Qed.

(** ** The store *)

Lemma stored_setTransitions l s p :
  project s = Some p ->
  storedTransitions (Some (setTransitions l s)) = l.
Proof.
  intros H. unfold setTransitions. rewrite H. reflexivity.
Qed.

Lemma project_setTransitions l s p :
  project s = Some p ->
  project (setTransitions l s) =
  Some {| tracks := tracks p; transitions := Some l |}.
Proof.
  intros H. unfold setTransitions. rewrite H. reflexivity.
Qed.

Lemma findClipInProject_setTransitions c l s :
  TransitionsStoreMonitor.findClipInProject c (setTransitions l s) = TransitionsStoreMonitor.findClipInProject c s.
Proof.
  unfold TransitionsStoreMonitor.findClipInProject, setTransitions.
  destruct (project s) as [[ts tr]|] eqn:E; cbn [project tracks].
  - reflexivity.
  - now rewrite E.
Qed.

Lemma findClipInProject_project c s found :
  TransitionsStoreMonitor.findClipInProject c s = Some found -> exists p, project s = Some p.
Proof.
  unfold TransitionsStoreMonitor.findClipInProject. destruct (project s) as [p|]; [eauto|discriminate].
Qed.

(** ** The catalog lookup of [addTransition] *)

Ltac neq_strings :=
  repeat match goal with
  | H : ?a <> ?b |- context [String.eqb ?a ?b] =>
      rewrite (proj2 (String.eqb_neq a b) H)
  | H : ?b <> ?a |- context [String.eqb ?a ?b] =>
      rewrite (proj2 (String.eqb_neq a b) (not_eq_sym H))
  | |- context [String.eqb ?a ?a] => rewrite (String.eqb_refl a)
  end.

(** C2.  [addTransition] looks the type up under its upper-cased id, while the
    catalog keys separate the words with an underscore: for the catalog ids
    [wipeLeft] and [fadeToBlack] the call raises "Unknown transition type",
    whatever the clips, the options and the graph.  Only five of the nineteen
    catalog ids are accepted, and a string such as [Blur], which is no
    catalog id, is accepted and stored as the type. *)
Theorem C2_addTransition_rejects_catalog_ids :
  In "wipeLeft" catalogIds /\ In "fadeToBlack" catalogIds /\
  (forall uuid now from to opts m,
     TransitionManager.addTransition uuid now from to "wipeLeft" opts m
     = Throw (Error "Unknown transition type: wipeLeft")) /\
  (forall uuid now from to opts m,
     TransitionManager.addTransition uuid now from to "fadeToBlack" opts m
     = Throw (Error "Unknown transition type: fadeToBlack")) /\
  filter (fun i => match TRANSITION_TYPES_at (toUpperCase i) with
                   | Some _ => true
                   | None => false
                   end) catalogIds
  = ["crossfade"; "pixelate"; "blur"; "mirror"; "diamond"] /\
  ~ In "Blur" catalogIds /\
  (forall uuid now from to opts m,
     exists t m',
       TransitionManager.addTransition uuid now from to "Blur" opts m = Ok (t, m') /\
       type t = "Blur").
Proof.
  split; [vm_compute; tauto|].
  split; [vm_compute; tauto|].
  split; [reflexivity|].
  split; [reflexivity|].
  split; [reflexivity|].
  split.
  - vm_compute. intros H.
    repeat (destruct H as [H|H]; [discriminate H|]). exact H.
  - intros. eexists. eexists. split; reflexivity.
Qed.

(** ** Requested durations in [addTransition] *)

Lemma addTransition_ok uuid now from to ty opts m T :
  TRANSITION_TYPES_at (toUpperCase ty) = Some T ->
  TransitionManager.addTransition uuid now from to ty opts m =
  Ok ({| id := uuid; fromClipId := from; toClipId := to; type := ty;
         duration := orDefault (o_duration opts) (defaultDuration T);
         parameters := Some opts; createdAt := now |},
      JsMap.set to
        {| id := uuid; fromClipId := from; toClipId := to; type := ty;
           duration := orDefault (o_duration opts) (defaultDuration T);
           parameters := Some opts; createdAt := now |}
        (JsMap.set from
           {| id := uuid; fromClipId := from; toClipId := to; type := ty;
              duration := orDefault (o_duration opts) (defaultDuration T);
              parameters := Some opts; createdAt := now |} m)).
Proof.
  intros H. unfold TransitionManager.addTransition. now rewrite H.
Qed.

(** C8, as stated, fails: a requested duration of -1 second is non-positive,
    yet [addTransition] stores -1 and not the default of [crossfade]. *)
Lemma C8_negative_duration_is_stored :
  ~ (exists t m T,
       TRANSITION_TYPES_at (toUpperCase "crossfade") = Some T /\
       TransitionManager.addTransition "uuid-0" 0 "A" "B" "crossfade"
         (Examples.want Examples.minusOne) TransitionManager.new = Ok (t, m) /\
       duration t = defaultDuration T).
Proof.
  intros (t & m & T & HT & Hadd & Hd).
  vm_compute in HT. injection HT as <-.
  vm_compute in Hadd. injection Hadd as <- _.
  vm_compute in Hd. discriminate Hd.
Qed.

(** The requested duration after [|| fallback]. *)
Lemma orDefault_cases a b :
  orDefault a b =
  match a with
  | None => b
  | Some d => if Num.is_zero d || Num.is_nan d then b else d
  end.
Proof.
  unfold orDefault, Num.truthy. destruct a as [d|]; auto.
  destruct (Num.is_zero d || Num.is_nan d); reflexivity.
Qed.

(** C8 (amended).  No requested duration makes an add fail.
    [addTransition], for a type that it resolves, stores the default of the
    type when the requested duration is absent, [0], [-0] or [NaN], and stores
    any other requested duration, a negative or an infinite one too, as it
    is.  [addTransitionToProject], for a clip with a successor, falls back to
    1.0 in the same cases and then takes the minimum with half of the
    shorter of the two clips. *)
Theorem C8_requested_duration :
  (forall uuid now from to ty opts m T,
     TRANSITION_TYPES_at (toUpperCase ty) = Some T ->
     exists t m',
       TransitionManager.addTransition uuid now from to ty opts m = Ok (t, m') /\
       duration t =
         match o_duration opts with
         | None => defaultDuration T
         | Some d =>
             if Num.is_zero d || Num.is_nan d then defaultDuration T else d
         end) /\
  (forall randomUUID dateNow cid ty opts s n clip nextClip,
     TransitionsStoreMonitor.findClipInProject cid s = Some (clip, Some nextClip) ->
     exists t,
       storedTransitions
         (Some (fst (fst (TransitionsStoreMonitor.addTransitionToProject
                            randomUUID dateNow cid ty opts s n)))) =
       (filter (fun x => negb (touches cid x)) (storedTransitions (Some s))
        ++ [t])%list /\
       duration t =
         Num.min
           match opts with
           | Some {| o_duration := Some d |} =>
               if Num.is_zero d || Num.is_nan d then d1_0 else d
           | _ => d1_0
           end
           (Num.div (Num.min (clip_duration clip) (clip_duration nextClip))
                    Num.two)).
Proof.
  split.
  - intros uuid now from to ty opts m T HT.
    rewrite (addTransition_ok uuid now from to ty opts m T HT).
    eexists. eexists. split; [reflexivity|]. simpl. apply orDefault_cases.
  - intros randomUUID dateNow cid ty opts s n clip nextClip Hf.
    unfold TransitionsStoreMonitor.addTransitionToProject. rewrite Hf.
    cbn [fst].
    destruct (findClipInProject_project cid s _ Hf)
      as [p Hp].
    eexists. split.
    + apply (stored_setTransitions _ s p Hp).
    + cbn [duration]. rewrite orDefault_cases.
      destruct opts as [[[d|] extra]|]; reflexivity.
Qed.

Lemma C8_requested_duration_witness :
  (exists t m',
     TransitionManager.addTransition "uuid-0" 0 "A" "B" "blur"
       (Examples.want Num.NaN) TransitionManager.new = Ok (t, m') /\
     duration t = d0_8) /\
  (exists t,
     storedTransitions
       (Some (fst (fst (TransitionsStoreMonitor.addTransitionToProject
                          Examples.uuids Examples.clock "C" "blur"
                          (Some (Examples.want Num.zero)) Examples.store4 0)))) =
     [t] /\
     duration t = d1_0).
Proof.
  destruct C8_requested_duration as [H1 H2]. split.
  - exact (H1 "uuid-0" 0%Z "A" "B" "blur" (Examples.want Num.NaN)
              TransitionManager.new
              (mkType "blur" "Blur" effect "Blur transition" d0_8
                      ["duration"; "blurAmount"])
              eq_refl).
  - exact (H2 Examples.uuids Examples.clock "C" "blur"
              (Some (Examples.want Num.zero)) Examples.store4 0
              (Examples.clip "C" 6) (Examples.clip "D" 2) eq_refl).
Defined.

(** ** Adding a second transition at a shared clip *)

(** C1, as stated, fails on both writing paths.  After [add(A,B,crossfade)] and
    [add(B,C,blur)] the in-memory graph still answers the lookup of A with the
    first instance; after the same two calls of [saveTransitionToStore] the
    list keeps the first instance and [getTransitionBetween(A,B)] returns
    it. *)
Lemma C1_prior_instance_stays :
  ~ (forall t1,
       fromClipId t1 = "A" -> toClipId t1 = "B" -> type t1 = "crossfade" ->
       TransitionManager.getTransition "A" Examples.graphABC <> Some t1) /\
  ~ (Integration.getTransitionBetween "A" "B"
       (runCalls [CallSaveToStore "uuid-0" 0 "A" "B" "crossfade" None;
                  CallSaveToStore "uuid-1" 1 "B" "C" "blur" None]
                 Examples.world0) = None).
Proof.
  split.
  - intros H.
    apply (H {| id := "uuid-0"; fromClipId := "A"; toClipId := "B";
                type := "crossfade"; duration := d1_0;
                parameters := Some noOptions; createdAt := 0 |});
      reflexivity.
  - vm_compute. discriminate.
Qed.

Lemma between_matchesPair a b t :
  between a b t = true -> matchesPair a b t = true.
Proof.
  unfold between, matchesPair. intros ->. reflexivity.
Qed.

(** The store path: two saves at a shared clip. *)
Lemma save_twice_at_a_shared_clip
    u1 n1 u2 n2 A B C ty1 ty2 d1 d2 (w : Integration.World) s p :
  A <> B -> B <> C -> A <> C ->
  Integration.store w = Some s -> project s = Some p ->
  exists t1 t2 w1 w2,
    Integration.saveTransitionToStore u1 n1 A B ty1 d1 w = Ok (Some t1, w1) /\
    Integration.saveTransitionToStore u2 n2 B C ty2 d2 w1 = Ok (Some t2, w2) /\
    edgeOf t1 = (A, B, ty1) /\ id t1 = u1 /\
    edgeOf t2 = (B, C, ty2) /\ id t2 = u2 /\
    Integration.getTransitionBetween A B w2 = Some t1 /\
    Integration.getTransitionBetween B C w2 = Some t2 /\
    TransitionManager.getTransition B (Integration.manager w2) = Some t2 /\
    TransitionManager.getTransition C (Integration.manager w2) = Some t2.
Proof.
  intros HAB HBC HAC Hs Hp.
  set (old := match transitions p with Some l => l | None => [] end).
  set (t1 := {| id := u1; fromClipId := A; toClipId := B; type := ty1;
                duration := orDefault d1 d1_0; parameters := None;
                createdAt := n1 |}).
  set (t2 := {| id := u2; fromClipId := B; toClipId := C; type := ty2;
                duration := orDefault d2 d1_0; parameters := None;
                createdAt := n2 |}).
  set (l1 := (filter (fun t => negb (matchesPair A B t)) old ++ [t1])%list).
  set (l2 := (filter (fun t => negb (matchesPair B C t)) l1 ++ [t2])%list).
  set (w1 := {| Integration.store := Some (setTransitions l1 s);
                Integration.manager :=
                  JsMap.set B t1 (JsMap.set A t1 (Integration.manager w));
                Integration.trace :=
                  (Integration.trace w ++ callHooks s true ++
                     [Console "log" "[Transitions] Saved"])%list |}).
  set (w2 := {| Integration.store := Some (setTransitions l2 (setTransitions l1 s));
                Integration.manager :=
                  JsMap.set C t2 (JsMap.set B t2 (Integration.manager w1));
                Integration.trace :=
                  (Integration.trace w1 ++ callHooks (setTransitions l1 s) true ++
                     [Console "log" "[Transitions] Saved"])%list |}).
  exists t1, t2, w1, w2.
  split.
  { unfold Integration.saveTransitionToStore. rewrite Hs, Hp. reflexivity. }
  split.
  { unfold Integration.saveTransitionToStore. cbn [Integration.store w1].
    rewrite (project_setTransitions _ s p Hp). reflexivity. }
  assert (Hstored : Integration.getStoredTransitions w2 = l2).
  { unfold Integration.getStoredTransitions. cbn [Integration.store w2].
    eapply stored_setTransitions. eapply project_setTransitions. exact Hp. }
  assert (Hl2 : l2 = (filter (fun t => negb (matchesPair B C t))
                        (filter (fun t => negb (matchesPair A B t)) old)
                      ++ [t1; t2])%list).
  { assert (E : matchesPair B C t1 = false).
    { unfold matchesPair. simpl. now neq_strings. }
    unfold l2, l1. rewrite filter_app. simpl. rewrite E. simpl.
    now rewrite <- app_assoc. }
  repeat split.
  - unfold Integration.getTransitionBetween.
    fold (between A B). rewrite Hstored, Hl2, find_app_split.
    rewrite find_none_all.
    + simpl. unfold between. simpl. now neq_strings.
    + intros x Hx. apply filter_In in Hx. destruct Hx as [Hx _].
      apply filter_In in Hx. destruct Hx as [_ Hx].
      destruct (between A B x) eqn:E; auto.
      apply between_matchesPair in E. now rewrite E in Hx.
  - unfold Integration.getTransitionBetween.
    fold (between B C). rewrite Hstored, Hl2, find_app_split.
    rewrite find_none_all.
    + simpl. unfold between. simpl. now neq_strings.
    + intros x Hx. apply filter_In in Hx. destruct Hx as [_ Hx].
      destruct (between B C x) eqn:E; auto.
      apply between_matchesPair in E. now rewrite E in Hx.
  - cbn [Integration.manager w2]. unfold TransitionManager.getTransition.
    rewrite get_set_other by exact HBC. apply get_set_same.
  - cbn [Integration.manager w2]. unfold TransitionManager.getTransition.
    apply get_set_same.
Qed.

(** The graph path: two adds at a shared clip. *)
Lemma add_twice_at_a_shared_clip
    u1 n1 u2 n2 A B C ty1 ty2 o1 o2 (m : TransitionManager.t) T1 T2 :
  B <> C ->
  TRANSITION_TYPES_at (toUpperCase ty1) = Some T1 ->
  TRANSITION_TYPES_at (toUpperCase ty2) = Some T2 ->
  exists t1 m1 t2 m2,
    TransitionManager.addTransition u1 n1 A B ty1 o1 m = Ok (t1, m1) /\
    TransitionManager.addTransition u2 n2 B C ty2 o2 m1 = Ok (t2, m2) /\
    edgeOf t2 = (B, C, ty2) /\ id t2 = u2 /\
    TransitionManager.getTransition B m2 = Some t2 /\
    TransitionManager.getTransition C m2 = Some t2.
Proof.
  intros HBC H1 H2.
  rewrite (addTransition_ok u1 n1 A B ty1 o1 m T1 H1).
  eexists. eexists.
  rewrite (addTransition_ok u2 n2 B C ty2 o2 _ T2 H2).
  eexists. eexists.
  split; [reflexivity|]. split; [reflexivity|].
  split; [reflexivity|]. split; [reflexivity|].
  unfold TransitionManager.getTransition. split.
  - rewrite get_set_other by exact HBC. apply get_set_same.
  - apply get_set_same.
Qed.

(** C1 (amended).  An add removes what has the same unordered pair and
    nothing else.  For distinct clips A, B, C, after [add(A,B,t1)] and
    [add(B,C,t2)]:
    - through [addTransition], for two types that it resolves, the graph
      answers the lookups of B and of C with the second instance;
    - through [saveTransitionToStore], on a store with a project,
      [getTransitionBetween(B,C)] returns the second instance,
      [getTransitionBetween(A,B)] still returns the first one, and the graph
      answers the lookups of B and of C with the second instance. *)
Theorem C1_second_add_at_a_shared_clip :
  (forall u1 n1 u2 n2 A B C ty1 ty2 o1 o2 (m : TransitionManager.t) T1 T2,
     A <> B -> B <> C -> A <> C ->
     TRANSITION_TYPES_at (toUpperCase ty1) = Some T1 ->
     TRANSITION_TYPES_at (toUpperCase ty2) = Some T2 ->
     exists t1 m1 t2 m2,
       TransitionManager.addTransition u1 n1 A B ty1 o1 m = Ok (t1, m1) /\
       TransitionManager.addTransition u2 n2 B C ty2 o2 m1 = Ok (t2, m2) /\
       edgeOf t2 = (B, C, ty2) /\ id t2 = u2 /\
       TransitionManager.getTransition B m2 = Some t2 /\
       TransitionManager.getTransition C m2 = Some t2) /\
  (forall u1 n1 u2 n2 A B C ty1 ty2 d1 d2 (w : Integration.World) s p,
     A <> B -> B <> C -> A <> C ->
     Integration.store w = Some s -> project s = Some p ->
     exists t1 t2 w1 w2,
       Integration.saveTransitionToStore u1 n1 A B ty1 d1 w = Ok (Some t1, w1) /\
       Integration.saveTransitionToStore u2 n2 B C ty2 d2 w1 = Ok (Some t2, w2) /\
       edgeOf t1 = (A, B, ty1) /\ id t1 = u1 /\
       edgeOf t2 = (B, C, ty2) /\ id t2 = u2 /\
       Integration.getTransitionBetween A B w2 = Some t1 /\
       Integration.getTransitionBetween B C w2 = Some t2 /\
       TransitionManager.getTransition B (Integration.manager w2) = Some t2 /\
       TransitionManager.getTransition C (Integration.manager w2) = Some t2).
Proof.
  split.
  - intros u1 n1 u2 n2 A B C ty1 ty2 o1 o2 m T1 T2 _ HBC _ H1 H2.
    now apply (add_twice_at_a_shared_clip u1 n1 u2 n2 A B C ty1 ty2 o1 o2 m T1 T2).
  - intros. now apply (save_twice_at_a_shared_clip u1 n1 u2 n2 A B C ty1 ty2
                         d1 d2 w s p).
Qed.

Lemma C1_second_add_at_a_shared_clip_witness :
  (exists t1 m1 t2 m2,
     TransitionManager.addTransition "uuid-0" 0 "A" "B" "crossfade" noOptions
       TransitionManager.new = Ok (t1, m1) /\
     TransitionManager.addTransition "uuid-1" 1 "B" "C" "blur" noOptions m1
       = Ok (t2, m2) /\
     edgeOf t2 = ("B", "C", "blur") /\ id t2 = "uuid-1" /\
     TransitionManager.getTransition "B" m2 = Some t2 /\
     TransitionManager.getTransition "C" m2 = Some t2) /\
  (exists t1 t2 w1 w2,
     Integration.saveTransitionToStore "uuid-0" 0 "A" "B" "crossfade" None
       Examples.world0 = Ok (Some t1, w1) /\
     Integration.saveTransitionToStore "uuid-1" 1 "B" "C" "blur" None w1
       = Ok (Some t2, w2) /\
     edgeOf t1 = ("A", "B", "crossfade") /\ id t1 = "uuid-0" /\
     edgeOf t2 = ("B", "C", "blur") /\ id t2 = "uuid-1" /\
     Integration.getTransitionBetween "A" "B" w2 = Some t1 /\
     Integration.getTransitionBetween "B" "C" w2 = Some t2 /\
     TransitionManager.getTransition "B" (Integration.manager w2) = Some t2 /\
     TransitionManager.getTransition "C" (Integration.manager w2) = Some t2).
Proof.
  destruct C1_second_add_at_a_shared_clip as [H1 H2]. split.
  - refine (H1 "uuid-0" 0%Z "uuid-1" 1%Z "A" "B" "C" "crossfade" "blur"
               noOptions noOptions TransitionManager.new
               (mkType "crossfade" "Crossfade" fade "Smooth fade between clips"
                       d1_0 ["duration"])
               (mkType "blur" "Blur" effect "Blur transition" d0_8
                       ["duration"; "blurAmount"])
               _ _ _ eq_refl eq_refl); discriminate.
  - refine (H2 "uuid-0" 0%Z "uuid-1" 1%Z "A" "B" "C" "crossfade" "blur" None None
               Examples.world0 Examples.store4
               {| tracks := Some [ {| clips := Some
                    [Examples.clip "A" 4; Examples.clip "B" 1;
                     Examples.clip "C" 6; Examples.clip "D" 2] |} ];
                  transitions := None |}
               _ _ _ eq_refl eq_refl); discriminate.
Defined.

(** ** The duration clamp *)

(** C5.  The clips A and B last 4 s and 1 s.  For a requested duration of
    3 s, [validateTransitionDuration] and [addTransitionToProject] give 0.5 s,
    half of the shorter clip; [saveTransitionToStore] stores the 3 s
    unclamped.  Called with the default of the crossfade, 1.0 s, as the picker
    does, it stores 1.0 s, which is above the 0.5 s of the rule as well. *)
Theorem C5_saveTransitionToStore_does_not_clamp :
  TransitionManager.validateTransitionDuration (Num.ofZ 4) (Num.ofZ 1) Examples.three
    = Num.half /\
  map duration
    (storedTransitions
       (Some (fst (fst (TransitionsStoreMonitor.addTransitionToProject
                          Examples.uuids Examples.clock "A" "crossfade"
                          (Some (Examples.want Examples.three))
                          Examples.store4 0)))))
    = [Num.half] /\
  map duration
    (Integration.getStoredTransitions
       (runCalls [CallSaveToStore "uuid-0" 0 "A" "B" "crossfade" (Some Examples.three)]
                 Examples.world0))
    = [Examples.three] /\
  Examples.three <> Num.half /\
  TransitionManager.validateTransitionDuration (Num.ofZ 4) (Num.ofZ 1) d1_0
    = Num.half /\
  map duration
    (Integration.getStoredTransitions
       (runCalls [CallSaveToStore "uuid-0" 0 "A" "B" "crossfade" (Some d1_0)]
                 Examples.world0))
    = [d1_0] /\
  d1_0 <> Num.half.
Proof.
  split; [reflexivity|].
  split; [reflexivity|].
  split; [reflexivity|].
  split; [discriminate|].
  split; [reflexivity|].
  split; [reflexivity|discriminate].
Qed.

(** ** The preview at its two ends *)

(** C3.  On a 20 by 20 preview:
    - [zoomOut] at progress 1 scales the "from" rectangle to a tenth instead
      of nothing, so the centre pixels still show the "from" region alone;
    - [circleOpen] paints the "to" region over the whole surface at every
      progress, so progress 0 shows the "to" region alone;
    - [circleClose] never paints the "from" region: progress 0 shows the "to"
      region alone and progress 1 leaves the surface empty;
    - the sixteen other catalog ids show the "from" region alone at progress 0
      and the "to" region alone at progress 1 (checked on an 8 by 6
      preview). *)
Theorem C3_preview_endpoints :
  In "zoomOut" catalogIds /\ In "circleOpen" catalogIds /\
  In "circleClose" catalogIds /\
  previewShowsOnly (toRegion 20 20) "zoomOut" Num.one 20 20 = false /\
  match pixelAt (renderTransitionPreview "zoomOut" Num.one 20 20)
                (Num.dec 19 2) (Num.dec 19 2) with
  | Ok px => purely (fromRegion 20 20) px
  | Throw _ => false
  end = true /\
  previewShowsOnly (fromRegion 20 20) "circleOpen" Num.zero 20 20 = false /\
  previewShowsOnly (toRegion 20 20) "circleOpen" Num.zero 20 20 = true /\
  previewShowsOnly (fromRegion 20 20) "circleClose" Num.zero 20 20 = false /\
  previewShowsOnly (toRegion 20 20) "circleClose" Num.zero 20 20 = true /\
  (let cmds := renderTransitionPreview "circleClose" Num.one 20 20 in
   forallb (fun q => match pixelAt cmds (fst q) (snd q) with
                     | Ok [] => true
                     | _ => false
                     end) (pixelCentres 20 20)) = true /\
  forallb (fun ty => previewShowsOnly (fromRegion 8 6) ty Num.zero 8 6 &&
                     previewShowsOnly (toRegion 8 6) ty Num.one 8 6)
          (filter (fun ty => negb (String.eqb ty "zoomOut" ||
                                   String.eqb ty "circleOpen" ||
                                   String.eqb ty "circleClose")) catalogIds)
    = true.
Proof.
  split; [vm_compute; tauto|].
  split; [vm_compute; tauto|].
  split; [vm_compute; tauto|].
  split; [vm_compute; reflexivity|].
  split; [vm_compute; reflexivity|].
  split; [vm_compute; reflexivity|].
  split; [vm_compute; reflexivity|].
  split; [vm_compute; reflexivity|].
  split; [vm_compute; reflexivity|].
  split; [vm_compute; reflexivity|].
  vm_compute; reflexivity.
Qed.

(** ** Progress values outside the unit interval *)

Lemma clampProgress_cases x :
  clampProgress x = Num.NaN \/ clampProgress x = Num.zero \/
  clampProgress x = Num.one \/
  (clampProgress x = x /\ SFcompare Num.one x = Some Gt /\
   SFcompare Num.zero x = Some Lt).
Proof.
  unfold clampProgress, Num.min.
  destruct (SFcompare Num.one x) as [[| |]|] eqn:E1.
  - right. right. left.
    destruct x as [sg|sg| |sg mx ex]; try discriminate E1; reflexivity.
  - right. right. left. reflexivity.
  - unfold Num.max.
    destruct (SFcompare Num.zero x) as [[| |]|] eqn:E0; simpl; auto 10.
  - left. reflexivity.
Qed.

Lemma clampProgress_idempotent x :
  clampProgress (clampProgress x) = clampProgress x.
Proof.
  destruct (clampProgress_cases x) as [H|[H|[H|(H & E1 & E0)]]];
    rewrite H; try reflexivity.
  unfold clampProgress, Num.min. rewrite E1.
  unfold Num.max. rewrite E0. reflexivity.
Qed.

Lemma applyTransitionEffect_default ty progress width height fromStyle toStyle :
  ~ In ty switchCases ->
  applyTransitionEffect ty progress width height fromStyle toStyle =
  crossfadeCmds (clampProgress progress) width height fromStyle toStyle.
Proof.
  intros H. unfold applyTransitionEffect.
  repeat match goal with
  | |- context [String.eqb ty ?c] =>
      destruct (String.eqb_spec ty c) as [->|_];
      [exfalso; apply H; unfold switchCases; simpl; tauto|]
  end.
  reflexivity.
Qed.

(** ** No call of the preview is refused by the context *)

Lemma notNegative_ltb x : notNegative x = true -> Num.ltb x Num.zero = false.
Proof.
  destruct x as [sg|sg| |sg m e]; try destruct sg; try discriminate; reflexivity.
Qed.

Lemma notNegative_round_aux mx ex lx :
  notNegative (binary_round_aux Num.prec Num.emax false mx ex lx) = true.
Proof.
  unfold binary_round_aux.
  destruct (shr_fexp Num.prec Num.emax mx ex lx) as [mrs' e'].
  destruct (shr_fexp Num.prec Num.emax _ e' loc_Exact) as [mrs'' e''].
  destruct (shr_m mrs''); try reflexivity.
  destruct (Z.leb e'' (Z.sub Num.emax Num.prec)); reflexivity.
Qed.

Lemma notNegative_normalize m e :
  (0 <= m)%Z ->
  notNegative (binary_normalize Num.prec Num.emax m e false) = true.
Proof.
  intros Hm. destruct m as [|q|q]; try reflexivity.
  - unfold binary_normalize, binary_round.
    destruct (shl_align q e _) as [mz ez]. apply notNegative_round_aux.
  - lia.
Qed.

Lemma notNegative_ofN n : notNegative (Num.ofZ (Z.of_N n)) = true.
Proof. apply notNegative_normalize. lia. Qed.

Lemma notNegative_mul a b :
  notNegative a = true -> notNegative b = true ->
  notNegative (Num.mul a b) = true.
Proof.
  destruct a as [sa|sa| |sa ma ea], b as [sb|sb| |sb mb eb];
    try destruct sa; try destruct sb; try discriminate; intros _ _;
    try reflexivity.
  apply notNegative_round_aux.
Qed.

Lemma notNegative_max a b :
  notNegative a = true -> notNegative b = true ->
  notNegative (Num.max a b) = true.
Proof.
  intros Ha Hb. unfold Num.max.
  destruct (SFcompare a b) as [[| |]|]; auto.
  destruct (Num.is_neg_zero a); auto.
Qed.

Lemma notNegative_clampProgress x : notNegative (clampProgress x) = true.
Proof.
  destruct (clampProgress_cases x) as [H|[H|[H|(H & _ & E0)]]];
    rewrite H; try reflexivity.
  destruct x as [sg|sg| |sg m e]; try destruct sg; try discriminate E0;
    reflexivity.
Qed.

Lemma iter_xO_double d p : (Zpos p * 2 <= Zpos (Pos.iter xO p d))%Z.
Proof.
  induction d as [|d IH] using Pos.peano_ind.
  - simpl. lia.
  - rewrite Pos.iter_succ. lia.
Qed.

Lemma digits2_pos_bound m : (Zpos m < 2 ^ Zpos (digits2_pos m))%Z.
Proof.
  induction m as [m IH|m IH|]; simpl digits2_pos.
  - rewrite Pos2Z.inj_succ, Z.pow_succ_r by lia. lia.
  - rewrite Pos2Z.inj_succ, Z.pow_succ_r by lia. lia.
  - reflexivity.
Qed.

Lemma isBinary64_mantissa sg m e :
  isBinary64 (S754_finite sg m e) = true -> (Zpos m < 2 ^ 53)%Z.
Proof.
  unfold isBinary64, valid_binary, bounded, canonical_mantissa, fexp.
  intros H. apply andb_prop in H. destruct H as [H _].
  apply Z.eqb_eq in H.
  assert (Hd : (Zpos (digits2_pos m) <= 53)%Z) by (unfold Num.prec in H; lia).
  pose proof (digits2_pos_bound m) as Hb.
  assert ((2 ^ Zpos (digits2_pos m) <= 2 ^ 53)%Z)
    by (apply Z.pow_le_mono_r; lia).
  lia.
Qed.

Lemma SFcompare_positive m1 e1 m2 e2 :
  SFcompare (S754_finite false m1 e1) (S754_finite false m2 e2) =
  Some match Z.compare e1 e2 with
       | Lt => Lt
       | Gt => Gt
       | Eq => Pos.compare m1 m2
       end.
Proof. reflexivity. Qed.

(** For a binary64 progress value, [1 - p] is not negative. *)
Lemma notNegative_one_minus_clamp x :
  isBinary64 x = true ->
  notNegative (Num.sub Num.one (clampProgress x)) = true.
Proof.
  intros Hv.
  destruct (clampProgress_cases x) as [H|[H|[H|(H & E1 & E0)]]];
    rewrite H; try reflexivity.
  destruct x as [sg|sg| |sg m e]; try destruct sg; try discriminate E0;
    try discriminate E1.
  apply isBinary64_mantissa in Hv.
  unfold Num.sub, Num.one, SFsub.
  apply notNegative_normalize.
  unfold cond_Zopp.
  unfold Num.one in E1. rewrite SFcompare_positive in E1.
  change (2 ^ 53)%Z with 9007199254740992%Z in Hv.
  revert E1.
  destruct (Z.compare_spec (-52) e) as [Ec|Ec|Ec]; intros E1;
    try discriminate E1.
  - subst e. rewrite Z.min_id. unfold shl_align. rewrite Z.sub_diag.
    cbn [fst]. injection E1 as E1. apply Pos.compare_gt_iff in E1.
    apply Pos2Z.pos_lt_pos in E1.
    apply Z.le_0_sub. apply Z.lt_le_incl. exact E1.
  - assert (He : (e - -52 < 0)%Z) by (clear - Ec; lia).
    rewrite Z.min_r by (clear - Ec; lia).
    unfold shl_align. rewrite Z.sub_diag.
    destruct (e - -52)%Z as [|q|q] eqn:Eq; try (clear - He; lia).
    cbn [fst].
    apply Z.le_0_sub. apply Z.lt_le_incl.
    eapply Z.lt_le_trans; [exact Hv|].
    exact (iter_xO_double q 4503599627370496).
Qed.

Lemma step_accepted qx qy st cmd :
  accepted cmd -> exists st', step qx qy st cmd = Ok st'.
Proof.
  destruct st as [c px]. destruct cmd; simpl; intros Hacc;
    try (eexists; reflexivity).
  - destruct s; [eexists; reflexivity|].
    destruct (Num.is_finite a); eexists; reflexivity.
  - destruct (inUnit a); eexists; reflexivity.
  - destruct (Num.is_finite x && (Num.is_finite y &&
               (Num.is_finite w && (Num.is_finite h && true))));
      eexists; reflexivity.
  - destruct (saved c) as [|[[[f ga] m] op] rest]; eexists; reflexivity.
  - destruct (Num.is_finite x && (Num.is_finite y && true));
      eexists; reflexivity.
  - destruct (Num.is_finite x && (Num.is_finite y && true));
      eexists; reflexivity.
  - destruct (negb _); [eexists; reflexivity|].
    rewrite (notNegative_ltb _ Hacc).
    destruct (Num.leb _ _); eexists; reflexivity.
Qed.

Lemma run_accepted qx qy cmds :
  Forall accepted cmds -> forall st, exists st', run qx qy cmds st = Ok st'.
Proof.
  induction 1 as [|cmd rest Hc _ IH]; intros st; simpl.
  - eexists; reflexivity.
  - destruct (step_accepted qx qy st cmd Hc) as [st' ->]. apply IH.
Qed.

Lemma preview_accepted ty progress w h :
  isBinary64 progress = true ->
  Forall accepted (renderTransitionPreview ty progress w h).
Proof.
  intros Hv. unfold renderTransitionPreview.
  constructor; [exact I|].
  pose proof (notNegative_ofN w) as Hw.
  pose proof (notNegative_ofN h) as Hh.
  pose proof (notNegative_clampProgress progress) as Hp.
  pose proof (notNegative_one_minus_clamp progress Hv) as Hq.
  unfold applyTransitionEffect, crossfadeCmds, fadeThroughCmds.
  repeat match goal with
  | |- context [String.eqb ty ?c] => destruct (String.eqb ty c)
  | |- context [Num.ltb ?a ?b] => destruct (Num.ltb a b)
  end;
  repeat (constructor; try exact I);
  simpl; apply notNegative_mul; auto using notNegative_max.
Qed.

(** C10.  The preview depends on the progress value only through
    [Math.max(0, Math.min(1, progress))]: for every type string, every number
    given as progress and every canvas size, the calls made on the context
    are those made for the clamped progress.  A type string without a case of
    its own gets the calls of the crossfade.  For a binary64 progress value
    the context accepts every call, so rendering raises for no type
    string. *)
Theorem C10_preview_total ty progress w h :
  renderTransitionPreview ty progress w h =
    renderTransitionPreview ty (clampProgress progress) w h /\
  (forall width height fromStyle toStyle,
     applyTransitionEffect ty progress width height fromStyle toStyle =
     applyTransitionEffect ty (clampProgress progress) width height
       fromStyle toStyle) /\
  (~ In ty switchCases ->
   forall width height fromStyle toStyle,
     applyTransitionEffect ty progress width height fromStyle toStyle =
     crossfadeCmds (clampProgress progress) width height fromStyle toStyle) /\
  (isBinary64 progress = true ->
   forall qx qy,
     exists px, pixelAt (renderTransitionPreview ty progress w h) qx qy = Ok px).
Proof.
  assert (Happly : forall width height fromStyle toStyle,
     applyTransitionEffect ty progress width height fromStyle toStyle =
     applyTransitionEffect ty (clampProgress progress) width height
       fromStyle toStyle).
  { intros. unfold applyTransitionEffect.
    now rewrite clampProgress_idempotent. }
  split; [|split; [exact Happly|split]].
  - unfold renderTransitionPreview. now rewrite Happly.
  - intros Hty width height fromStyle toStyle.
    now apply applyTransitionEffect_default.
  - intros Hv qx qy. unfold pixelAt.
    destruct (run_accepted qx qy _ (preview_accepted ty progress w h Hv)
                (initialCtx, [])) as [[c px] ->].
    now exists px.
Qed.

Lemma C10_preview_total_witness :
  renderTransitionPreview "diamond" (Num.dec 3 2) 300 150 =
    renderTransitionPreview "diamond" Num.one 300 150 /\
  applyTransitionEffect "diamond" (Num.dec 3 2) (Num.ofZ 300) (Num.ofZ 150)
    (fromRegion 300 150) (toRegion 300 150) =
  crossfadeCmds Num.one (Num.ofZ 300) (Num.ofZ 150)
    (fromRegion 300 150) (toRegion 300 150) /\
  exists px,
    pixelAt (renderTransitionPreview "diamond" (Num.dec 3 2) 300 150)
            (Num.dec 1 2) (Num.dec 1 2) = Ok px.
Proof.
  destruct (C10_preview_total "diamond" (Num.dec 3 2) 300 150)
    as (H1 & _ & H3 & H4).
  split; [exact H1|split].
  - apply H3. unfold switchCases. simpl.
    intros H; repeat (destruct H as [H|H]; [discriminate H|]); exact H.
  - apply H4. reflexivity.
Defined.

(** ** The poll tick of the store monitor *)

Section MonitorFacts.
Import TransitionsStoreMonitor.
Variable randomUUID : nat -> string.
Variable dateNow : nat -> Z.

Lemma snapshotDiffers_same snapshot : snapshotDiffers snapshot (Some snapshot) = false.
Proof. unfold snapshotDiffers. now rewrite String.eqb_refl. Qed.

Lemma pollTick_twice w :
  pollTick randomUUID dateNow (fst (pollTick randomUUID dateNow w)) =
  (fst (pollTick randomUUID dateNow w), snd (pollTick randomUUID dateNow w)).
Proof.
  unfold pollTick.
  destruct (store w) as [s|] eqn:Es.
  - destruct (flush randomUUID dateNow (pendingTransitions w) s (created w) (trace w))
      as [[s' n'] tr].
    destruct (snapshotDiffers (trackSnapshot s') (lastTrackSnapshot w)) eqn:Ed;
      cbn [fst snd store pendingTransitions created trace lastTrackSnapshot flush].
    + now rewrite snapshotDiffers_same.
    + now rewrite Ed.
  - cbn [fst snd]. now rewrite Es.
Qed.

(** What one call of [addTransitionToProject] does to the store and to the
    creation count. *)
Lemma addTransitionToProject_planned p s n :
  fst (addTransitionToProject randomUUID dateNow (clipId p) (transitionType p)
         (options p) s n) =
  match plannedTransition randomUUID dateNow s p n with
  | Some t =>
      (setTransitions
         (filter (fun x => negb (touches (clipId p) x)) (storedTransitions (Some s))
          ++ [t]) s, S n)
  | None => (s, n)
  end.
Proof.
  unfold addTransitionToProject, plannedTransition.
  destruct (findClipInProject (clipId p) s) as [[clip [nextClip|]]|]; reflexivity.
Qed.

Lemma plannedTransition_same_tracks s s0 p n :
  (forall c, findClipInProject c s0 = findClipInProject c s) ->
  plannedTransition randomUUID dateNow s0 p n =
  plannedTransition randomUUID dateNow s p n.
Proof. intros H. unfold plannedTransition. now rewrite H. Qed.

Lemma plannedTransition_some s p n t :
  plannedTransition randomUUID dateNow s p n = Some t ->
  exists clip nextClip,
    findClipInProject (clipId p) s = Some (clip, Some nextClip).
Proof.
  unfold plannedTransition.
  destruct (findClipInProject (clipId p) s) as [[clip [nextClip|]]|];
    try discriminate; eauto.
Qed.

Lemma plannedTransition_none s p n :
  plannedTransition randomUUID dateNow s p n = None ->
  match findClipInProject (clipId p) s with
  | Some (_, Some _) => False
  | _ => True
  end.
Proof.
  unfold plannedTransition.
  destruct (findClipInProject (clipId p) s) as [[clip [nextClip|]]|];
    try discriminate; auto.
Qed.

Lemma flush_stored s q :
  forall s0 n tr,
    (forall c, findClipInProject c s0 = findClipInProject c s) ->
    storedTransitions (Some (fst (fst (flush randomUUID dateNow q s0 n tr)))) =
    (filter (fun t => negb (removedBy s q t)) (storedTransitions (Some s0)) ++
     survivors randomUUID dateNow s q n)%list.
Proof.
  induction q as [|p rest IH]; intros s0 n tr Hsame.
  - cbn [flush fst survivors]. rewrite app_nil_r.
    symmetry. apply filter_all. intros x _. reflexivity.
  - cbn [flush].
    pose proof (addTransitionToProject_planned p s0 n) as Hadd.
    destruct (addTransitionToProject randomUUID dateNow (clipId p)
                (transitionType p) (options p) s0 n) as [[s1 n1] e].
    cbn [fst] in Hadd.
    rewrite (plannedTransition_same_tracks s s0 p n Hsame) in Hadd.
    cbn [survivors].
    destruct (plannedTransition randomUUID dateNow s p n) as [t|] eqn:Ep.
    + injection Hadd as -> ->.
      destruct (plannedTransition_some s p n t Ep) as (clip & nextClip & Hf).
      assert (Hp : exists pr, project s0 = Some pr).
      { eapply findClipInProject_project. rewrite Hsame. exact Hf. }
      destruct Hp as [pr Hpr].
      rewrite IH.
      2:{ intros c. rewrite findClipInProject_setTransitions. apply Hsame. }
      rewrite (stored_setTransitions _ s0 pr Hpr).
      rewrite filter_app, filter_filter, <- app_assoc.
      f_equal.
      * apply filter_ext. intros x. cbn [removedBy existsb].
        rewrite Hf. now rewrite negb_orb.
      * f_equal. cbn [filter]. now destruct (removedBy s rest t).
    + injection Hadd as -> ->.
      rewrite IH by exact Hsame.
      f_equal. apply filter_ext. intros x. cbn [removedBy existsb].
      pose proof (plannedTransition_none s p n Ep) as Hn.
      destruct (findClipInProject (clipId p) s) as [[clip [nextClip|]]|];
        [contradiction| | ]; reflexivity.
Qed.

End MonitorFacts.

(** C7.  A poll tick that follows a poll tick with nothing changed in between
    computes the same snapshot value and leaves the whole state as the first
    tick left it: the store is not written again, the queue stays empty, the
    remembered snapshot is the same and the trace of effects gets no new
    entry, so no hook is called and no topology change is signalled a second
    time. *)
Theorem C7_second_tick_changes_nothing randomUUID dateNow
    (w : TransitionsStoreMonitor.World) :
  let first := TransitionsStoreMonitor.pollTick randomUUID dateNow w in
  let second := TransitionsStoreMonitor.pollTick randomUUID dateNow (fst first) in
  snd second = snd first /\
  fst second = fst first /\
  TransitionsStoreMonitor.trace (fst second) =
    TransitionsStoreMonitor.trace (fst first) /\
  TransitionsStoreMonitor.store (fst second) =
    TransitionsStoreMonitor.store (fst first).
Proof.
  cbv zeta. rewrite pollTick_twice. cbn [fst snd]. auto.
Qed.

(** C4, as stated, fails.  With (A, fade) and then (B, wipeLeft) queued while
    no store was found, the first tick that finds the store (one track A, B,
    C, D) applies both in queue order, and applying the second removes the
    transition of the first, which ends at B: the list holds the transition
    from B to C alone. *)
Lemma C4_second_entry_removes_the_first :
  TransitionsStoreMonitor.store Examples.queuedAB = None /\
  map TransitionsStoreMonitor.clipId
      (TransitionsStoreMonitor.pendingTransitions Examples.queuedAB) = ["A"; "B"] /\
  ~ (map edgeOf
       (storedTransitions
          (TransitionsStoreMonitor.store
             (fst (TransitionsStoreMonitor.pollTick Examples.uuids Examples.clock
                     (TransitionsStoreMonitor.withStore (Some Examples.store4)
                        Examples.queuedAB)))))
     = [("A", "B", "fade"); ("B", "C", "wipeLeft")]).
Proof.
  split; [reflexivity|]. split; [reflexivity|].
  vm_compute. discriminate.
Qed.

(** C4 (amended).  The first poll tick that finds the store applies the queued
    entries in queue order and leaves the queue empty.  Afterwards the list
    of the store holds what was stored before and the transitions of the
    queued entries whose clip has a successor, in queue order, each of them
    unless a later queued entry removed it: an applied entry removes every
    transition that has its clip as an endpoint. *)
Theorem C4_flush_in_queue_order randomUUID dateNow
    (w : TransitionsStoreMonitor.World) (s : Store) :
  let w' := fst (TransitionsStoreMonitor.pollTick randomUUID dateNow
                   (TransitionsStoreMonitor.withStore (Some s) w)) in
  TransitionsStoreMonitor.pendingTransitions w' = [] /\
  storedTransitions (TransitionsStoreMonitor.store w') =
  (filter (fun t => negb (removedBy s (TransitionsStoreMonitor.pendingTransitions w) t))
          (storedTransitions (Some s)) ++
   survivors randomUUID dateNow s (TransitionsStoreMonitor.pendingTransitions w)
             (TransitionsStoreMonitor.created w))%list.
Proof.
  cbv zeta. unfold TransitionsStoreMonitor.pollTick, TransitionsStoreMonitor.withStore.
  cbn [TransitionsStoreMonitor.store TransitionsStoreMonitor.pendingTransitions
       TransitionsStoreMonitor.created TransitionsStoreMonitor.trace
       TransitionsStoreMonitor.lastTrackSnapshot].
  pose proof (flush_stored randomUUID dateNow s
                (TransitionsStoreMonitor.pendingTransitions w) s
                (TransitionsStoreMonitor.created w)
                (TransitionsStoreMonitor.trace w) (fun c => eq_refl)) as H.
  destruct (TransitionsStoreMonitor.flush randomUUID dateNow
              (TransitionsStoreMonitor.pendingTransitions w) s
              (TransitionsStoreMonitor.created w)
              (TransitionsStoreMonitor.trace w)) as [[s' n'] tr].
  cbn [fst] in H.
  destruct (TransitionsStoreMonitor.snapshotDiffers _ _);
    cbn [fst TransitionsStoreMonitor.store
         TransitionsStoreMonitor.pendingTransitions]; auto.
Qed.

(** The two queue orders side by side: entries at A and C keep both
    transitions, in queue order. *)
Example flush_keeps_independent_entries :
  map edgeOf
    (storedTransitions
       (TransitionsStoreMonitor.store
          (fst (TransitionsStoreMonitor.pollTick Examples.uuids Examples.clock
                  (TransitionsStoreMonitor.withStore (Some Examples.store4)
                     Examples.queuedAC)))))
  = [("A", "B", "fade"); ("C", "D", "wipeLeft")].
Proof. reflexivity. Qed.

(** ** Unordered pairs stay unique *)

Lemma matchesPair_sym a b :
  matchesPair (fromClipId a) (toClipId a) b =
  matchesPair (fromClipId b) (toClipId b) a.
Proof.
  unfold matchesPair.
  rewrite (String.eqb_sym (fromClipId b) (fromClipId a)).
  rewrite (String.eqb_sym (toClipId b) (toClipId a)).
  rewrite (String.eqb_sym (fromClipId b) (toClipId a)).
  rewrite (String.eqb_sym (toClipId b) (fromClipId a)).
  f_equal. apply andb_comm.
Qed.

Lemma matchesPair_true f t x :
  matchesPair f t x = true ->
  (fromClipId x = f /\ toClipId x = t) \/ (fromClipId x = t /\ toClipId x = f).
Proof.
  unfold matchesPair. intros H. apply orb_prop in H.
  destruct H as [H|H]; apply andb_prop in H; destruct H as [H1 H2];
    apply String.eqb_eq in H1; apply String.eqb_eq in H2; auto.
Qed.

Lemma pairwiseApart_filter f l : pairwiseApart l -> pairwiseApart (filter f l).
Proof.
  induction l as [|a r IH]; simpl; auto.
  intros [Ha Hr]. destruct (f a); simpl; auto.
  split; auto.
  apply Forall_forall. intros x Hx. apply filter_In in Hx.
  rewrite Forall_forall in Ha. apply Ha. tauto.
Qed.

Lemma pairwiseApart_snoc l t :
  pairwiseApart l ->
  Forall (fun a => matchesPair (fromClipId a) (toClipId a) t = false) l ->
  pairwiseApart (l ++ [t]).
Proof.
  induction l as [|a r IH]; simpl.
  - intros _ _. split; [constructor|exact I].
  - intros [Ha Hr] Hall. inversion Hall as [|? ? Hat Hrt]. subst.
    split; auto.
    apply Forall_app. split; auto.
Qed.

Lemma pairwiseApart_unique l : pairwiseApart l -> listPairsUnique l.
Proof.
  assert (Hlt : forall l, pairwiseApart l ->
            forall i j t1 t2, i < j ->
              nth_error l i = Some t1 -> nth_error l j = Some t2 ->
              matchesPair (fromClipId t1) (toClipId t1) t2 = false).
  { clear l. induction l as [|a r IH]; intros Hl i j t1 t2 Hij H1 H2.
    - destruct i; discriminate.
    - destruct Hl as [Ha Hr].
      destruct j as [|j]; [lia|]. destruct i as [|i]; simpl in H1, H2.
      + injection H1 as <-. rewrite Forall_forall in Ha.
        apply Ha. eapply nth_error_In; eauto.
      + apply (IH Hr i j); auto. lia. }
  intros Hl i j t1 t2 Hij H1 H2 Hsame. unfold samePair in Hsame.
  destruct (Nat.lt_ge_cases i j) as [Hlt'|Hge].
  - rewrite (Hlt l Hl i j t1 t2 Hlt' H1 H2) in Hsame. discriminate.
  - assert (Hji : j < i) by lia.
    rewrite matchesPair_sym in Hsame.
    rewrite (Hlt l Hl j i t2 t1 Hji H2 H1) in Hsame. discriminate.
Qed.

Lemma graphInv_new : graphInv TransitionManager.new.
Proof.
  split; [constructor|]. split; intros k; intros; discriminate.
Qed.

Lemma graphInv_delete k m : graphInv m -> graphInv (JsMap.delete k m).
Proof.
  intros (Hwf & Hke & Hpu). split; [now apply wf_delete|]. split.
  - intros k0 t H. apply Hke. eapply get_delete_some; eauto.
  - intros k1 k2 t1 t2 H1 H2. unfold TransitionManager.getTransition in *.
    apply (Hpu k1 k2); eapply get_delete_some; eauto.
Qed.

Lemma graphInv_set_both m t :
  graphInv m ->
  graphInv (JsMap.set (toClipId t) t (JsMap.set (fromClipId t) t m)).
Proof.
  intros (Hwf & Hke & Hpu).
  assert (Hget : forall k x,
    JsMap.get k (JsMap.set (toClipId t) t (JsMap.set (fromClipId t) t m)) = Some x ->
    (x = t /\ (k = fromClipId t \/ k = toClipId t)) \/
    (JsMap.get k m = Some x /\ k <> fromClipId t /\ k <> toClipId t)).
  { intros k x. rewrite !get_set.
    destruct (String.eqb_spec k (toClipId t)) as [->|Hn1].
    - intros [= <-]. auto.
    - destruct (String.eqb_spec k (fromClipId t)) as [->|Hn2].
      + intros [= <-]. auto.
      + auto. }
  split; [now apply wf_set, wf_set|]. split.
  - intros k x H. apply Hget in H.
    destruct H as [[-> H]|[H _]]; auto.
  - intros k1 k2 t1 t2 H1 H2 Hsame.
    unfold TransitionManager.getTransition in *.
    apply Hget in H1. apply Hget in H2.
    destruct H1 as [[-> _]|(H1 & Hf1 & Ht1)], H2 as [[-> _]|(H2 & Hf2 & Ht2)].
    + reflexivity.
    + exfalso. apply matchesPair_true in Hsame.
      destruct (Hke k2 t2 H2) as [E|E]; rewrite E in *; intuition congruence.
    + exfalso. unfold samePair in Hsame. rewrite matchesPair_sym in Hsame.
      apply matchesPair_true in Hsame.
      destruct (Hke k1 t1 H1) as [E|E]; rewrite E in *; intuition congruence.
    + apply (Hpu k1 k2); auto.
Qed.

Lemma worldInv_call w c : worldInv w -> worldInv (applyCall w c).
Proof.
  intros [Hg Hl]. destruct c as [uuid now from to ty opts|clipId
                                |uuid now from to ty d|from to
                                |uuid now clipId ty opts]; cbn [applyCall].
  - (* addTransition *)
    unfold TransitionManager.addTransition.
    destruct (TRANSITION_TYPES_at (toUpperCase ty)) as [T|]; [|split; auto].
    split; [|exact Hl]. cbn [Integration.manager].
    exact (graphInv_set_both (Integration.manager w)
             {| id := uuid; fromClipId := from; toClipId := to; type := ty;
                duration := orDefault (o_duration opts) (defaultDuration T);
                parameters := Some opts; createdAt := now |} Hg).
  - (* removeTransition *)
    split; [|exact Hl]. cbn [Integration.manager].
    unfold TransitionManager.removeTransition.
    destruct (JsMap.get clipId (Integration.manager w)); cbn [snd]; auto.
    now apply graphInv_delete, graphInv_delete.
  - (* saveTransitionToStore *)
    unfold Integration.saveTransitionToStore.
    destruct (Integration.store w) as [s|] eqn:Es.
    + destruct (project s) as [p|] eqn:Ep; [|split; auto].
      split.
      * cbn [Integration.manager].
        exact (graphInv_set_both (Integration.manager w)
                 {| id := uuid; fromClipId := from; toClipId := to; type := ty;
                    duration := orDefault d d1_0; parameters := None;
                    createdAt := now |} Hg).
      * unfold Integration.getStoredTransitions in *. cbn [Integration.store].
        rewrite (stored_setTransitions _ s p Ep).
        rewrite Es in Hl. unfold storedTransitions in Hl. rewrite Ep in Hl.
        apply pairwiseApart_snoc.
        -- now apply pairwiseApart_filter.
        -- apply Forall_forall. intros x Hx. apply filter_In in Hx.
           destruct Hx as [_ Hx]. rewrite matchesPair_sym. cbn [fromClipId toClipId].
           now destruct (matchesPair from to x).
    + split; auto. unfold Integration.getStoredTransitions in *.
      cbn [Integration.store]. now rewrite Es in Hl.
  - (* removeTransitionFromStore *)
    unfold Integration.removeTransitionFromStore.
    destruct (Integration.store w) as [s|] eqn:Es; [|split; auto].
    destruct (project s) as [p|] eqn:Ep; [|split; auto].
    destruct (transitions p) as [old|] eqn:Et; [|split; auto].
    split.
    + cbn [Integration.manager]. now apply graphInv_delete, graphInv_delete.
    + unfold Integration.getStoredTransitions in *. cbn [Integration.store].
      rewrite (stored_setTransitions _ s p Ep).
      rewrite Es in Hl. unfold storedTransitions in Hl. rewrite Ep, Et in Hl.
      now apply pairwiseApart_filter.
  - (* addTransitionToProject *)
    destruct (Integration.store w) as [s|] eqn:Es; [|split; auto].
    unfold TransitionsStoreMonitor.addTransitionToProject.
    unfold Integration.getStoredTransitions in Hl. rewrite Es in Hl.
    destruct (TransitionsStoreMonitor.findClipInProject clipId s)
      as [[clip [nextClip|]]|] eqn:Ef;
      (split; [exact Hg|]);
      unfold Integration.getStoredTransitions; cbn [Integration.store]; auto.
    destruct (findClipInProject_project clipId s _ Ef) as [p Ep].
    rewrite (stored_setTransitions _ s p Ep).
    apply pairwiseApart_snoc.
    + now apply pairwiseApart_filter.
    + apply Forall_forall. intros x Hx. apply filter_In in Hx.
      destruct Hx as [_ Hx]. rewrite matchesPair_sym. cbn [fromClipId toClipId].
      unfold touches in Hx. unfold matchesPair.
      destruct (String.eqb (fromClipId x) clipId);
        destruct (String.eqb (toClipId x) clipId); try discriminate Hx.
      now rewrite !andb_false_r.
Qed.

Lemma worldInv_run calls : forall w, worldInv w -> worldInv (runCalls calls w).
Proof.
  induction calls as [|c rest IH]; intros w Hw; simpl; auto.
  apply IH. now apply worldInv_call.
Qed.

(** C6.  Start with an empty graph and a store whose list of transitions is
    empty, and make any sequence of calls of [addTransition],
    [removeTransition], [saveTransitionToStore], [removeTransitionFromStore]
    and [addTransitionToProject].  Then two instances found in the graph on
    the same unordered pair of clips are one and the same instance, and no two
    entries of the list of the store are on the same unordered pair. *)
Theorem C6_unordered_pairs_unique (s0 : option Store) (calls : list Call) :
  storedTransitions s0 = [] ->
  let w := runCalls calls
             {| Integration.store := s0;
                Integration.manager := TransitionManager.new;
                Integration.trace := [] |} in
  graphPairsUnique (Integration.manager w) /\
  listPairsUnique (Integration.getStoredTransitions w).
Proof.
  intros H0. cbv zeta.
  assert (Hinv : worldInv {| Integration.store := s0;
                             Integration.manager := TransitionManager.new;
                             Integration.trace := [] |}).
  { split; [apply graphInv_new|].
    unfold Integration.getStoredTransitions. cbn [Integration.store].
    rewrite H0. exact I. }
  destruct (worldInv_run calls _ Hinv) as [(_ & _ & Hg) Hl].
  split; [exact Hg|]. now apply pairwiseApart_unique.
Qed.

Lemma C6_unordered_pairs_unique_witness :
  graphPairsUnique
    (Integration.manager (runCalls Examples.mixedCalls Examples.world0)) /\
  listPairsUnique
    (Integration.getStoredTransitions
       (runCalls Examples.mixedCalls Examples.world0)).
Proof.
  exact (C6_unordered_pairs_unique (Some Examples.store4) Examples.mixedCalls
           eq_refl).
Defined.

(** ** Export followed by import *)

Lemma graphInv_import data :
  forall acc, graphInv acc ->
    graphInv (fold_left
                (fun acc x => JsMap.set (toClipId x) x (JsMap.set (fromClipId x) x acc))
                data acc).
Proof.
  induction data as [|x r IH]; intros acc Hacc; simpl; auto.
  apply IH. now apply graphInv_set_both.
Qed.

Lemma reachable_graphInv m : reachable m -> graphInv m.
Proof.
  induction 1 as [|uuid now from to ty opts m t m' _ IH Hadd
                  |clipId m _ IH|m _ IH|data m _ IH].
  - apply graphInv_new.
  - unfold TransitionManager.addTransition in Hadd.
    destruct (TRANSITION_TYPES_at (toUpperCase ty)) as [T|]; [|discriminate].
    injection Hadd as <- <-.
    exact (graphInv_set_both m
             {| id := uuid; fromClipId := from; toClipId := to; type := ty;
                duration := orDefault (o_duration opts) (defaultDuration T);
                parameters := Some opts; createdAt := now |} IH).
  - unfold TransitionManager.removeTransition.
    destruct (JsMap.get clipId m); cbn [snd]; auto.
    now apply graphInv_delete, graphInv_delete.
  - apply graphInv_new.
  - unfold TransitionManager.importTransitions.
    apply graphInv_import. apply graphInv_new.
Qed.

Lemma get_set_both k x (acc : TransitionManager.t) :
  JsMap.get k (JsMap.set (toClipId x) x (JsMap.set (fromClipId x) x acc)) =
  if touches k x then Some x else JsMap.get k acc.
Proof.
  rewrite !get_set. unfold touches.
  rewrite (String.eqb_sym (fromClipId x) k), (String.eqb_sym (toClipId x) k).
  destruct (String.eqb k (toClipId x)), (String.eqb k (fromClipId x)); reflexivity.
Qed.

(** A lookup after an import finds the last entry of the data that has the
    key as an endpoint. *)
Lemma get_import data :
  forall acc k,
    JsMap.get k
      (fold_left
         (fun acc x => JsMap.set (toClipId x) x (JsMap.set (fromClipId x) x acc))
         data acc) =
    match find (touches k) (rev data) with
    | Some x => Some x
    | None => JsMap.get k acc
    end.
Proof.
  induction data as [|x r IH]; intros acc k; simpl; auto.
  rewrite IH, find_app_split, get_set_both. simpl.
  destruct (find (touches k) (rev r)); auto.
  destruct (touches k x); reflexivity.
Qed.

Lemma touches_true k x :
  touches k x = true -> k = fromClipId x \/ k = toClipId x.
Proof.
  unfold touches. intros H. apply orb_prop in H.
  destruct H as [H|H]; apply String.eqb_eq in H; auto.
Qed.

(** C9, as stated, fails.  The graph reached by [add(B,C,crossfade)],
    [add(A,B,blur)], [add(B,C,mirror)] holds the third instance under B and
    C and the second one under A, which was inserted last.  The export lists
    the second instance last, so the import writes it over the entry of B. *)
Lemma C9_roundtrip_changes_an_entry :
  reachable Examples.graphBCA /\
  ~ (forall k,
       TransitionManager.getTransition k
         (TransitionManager.importTransitions
            (TransitionManager.exportTransitions Examples.graphBCA)
            Examples.graphBCA) =
       TransitionManager.getTransition k Examples.graphBCA).
Proof.
  split.
  - eapply (reach_add "uuid-2" 2 "B" "C" "mirror" noOptions);
      [eapply (reach_add "uuid-1" 1 "A" "B" "blur" noOptions);
        [eapply (reach_add "uuid-0" 0 "B" "C" "crossfade" noOptions);
          [apply reach_new|reflexivity]
        |reflexivity]
      |reflexivity].
  - intros H. specialize (H "B"). vm_compute in H. discriminate H.
Qed.

(** C9 (amended).  In a reachable state of the graph in which every instance is
    stored under both of its endpoints, [importTransitions(exportTransitions())]
    restores the map: every clip is answered with the instance it had, although
    the export lists each instance once per key. *)
Theorem C9_roundtrip_without_orphans (m : TransitionManager.t) :
  reachable m -> noOrphans m ->
  forall k,
    TransitionManager.getTransition k
      (TransitionManager.importTransitions
         (TransitionManager.exportTransitions m) m) =
    TransitionManager.getTransition k m.
Proof.
  intros Hreach Horph k.
  destruct (reachable_graphInv m Hreach) as (Hwf & Hke & _).
  unfold TransitionManager.getTransition, TransitionManager.importTransitions,
    TransitionManager.exportTransitions.
  rewrite get_import.
  destruct (find (touches k) (rev (JsMap.values m))) as [x|] eqn:Ef.
  - apply find_some in Ef. destruct Ef as [Hin Ht].
    apply in_rev in Hin. unfold JsMap.values in Hin.
    apply in_map_iff in Hin. destruct Hin as [[k' x'] [Hx Hin]].
    simpl in Hx. subst x'.
    apply (In_get _ k' x m Hwf) in Hin.
    destruct (Horph k' x Hin) as [Hf Hto].
    unfold TransitionManager.getTransition in Hf, Hto.
    destruct (touches_true k x Ht) as [->| ->]; auto.
  - simpl. destruct (JsMap.get k m) as [t|] eqn:Eg; auto.
    exfalso.
    assert (Hin : In t (rev (JsMap.values m))).
    { apply in_rev. rewrite rev_involutive. unfold JsMap.values.
      apply in_map_iff. exists (k, t). split; auto. now apply get_In. }
    pose proof (find_none _ _ Ef t Hin) as Hn.
    unfold touches in Hn.
    destruct (Hke k t Eg) as [E|E]; rewrite <- E, String.eqb_refl in Hn;
      simpl in Hn; try discriminate Hn.
    now rewrite orb_true_r in Hn.
Qed.

Lemma C9_roundtrip_without_orphans_witness :
  TransitionManager.getTransition "A"
    (TransitionManager.importTransitions
       (TransitionManager.exportTransitions Examples.graphAB) Examples.graphAB) =
  TransitionManager.getTransition "A" Examples.graphAB /\
  TransitionManager.getTransition "B"
    (TransitionManager.importTransitions
       (TransitionManager.exportTransitions Examples.graphAB) Examples.graphAB) =
  TransitionManager.getTransition "B" Examples.graphAB /\
  TransitionManager.getTransition "C"
    (TransitionManager.importTransitions
       (TransitionManager.exportTransitions Examples.graphAB) Examples.graphAB) =
  TransitionManager.getTransition "C" Examples.graphAB.
Proof.
  assert (Hreach : reachable Examples.graphAB).
  { eapply (reach_add "uuid-0" 0 "A" "B" "crossfade" noOptions);
      [apply reach_new|reflexivity]. }
  assert (Horph : noOrphans Examples.graphAB).
  { intros k0 t. unfold TransitionManager.getTransition, Examples.graphAB.
    simpl.
    destruct (String.eqb k0 "A").
    - intros [= <-]. split; reflexivity.
    - destruct (String.eqb k0 "B"); [|discriminate].
      intros [= <-]. split; reflexivity. }
  pose proof (C9_roundtrip_without_orphans Examples.graphAB Hreach Horph) as H.
  exact (conj (H "A") (conj (H "B") (H "C"))).
Defined.

(* ------------------------------------------------------------------------- *)
(** * Further properties of the code *)

(** ** Comparisons of numbers *)

Lemma SFcompare_antisym a b :
  SFcompare b a = option_map CompOpp (SFcompare a b).
Proof.
  destruct a as [sa|sa| |sa ma ea], b as [sb|sb| |sb mb eb];
    try destruct sa; try destruct sb; try reflexivity; simpl;
    rewrite (Z.compare_antisym ea eb);
    destruct (Z.compare ea eb); simpl; try reflexivity;
    rewrite (Pos.compare_cont_antisym ma mb Eq); reflexivity.
Qed.

Lemma SFcompare_refl_not_Lt a : SFcompare a a <> Some Lt.
Proof.
  intros H. pose proof (SFcompare_antisym a a) as E. rewrite H in E.
  discriminate E.
Qed.

Lemma ltb_compare a b :
  Num.ltb a b = match SFcompare a b with Some Lt => true | _ => false end.
Proof. reflexivity. Qed.

Lemma ltb_irrefl a : Num.ltb a a = false.
Proof.
  rewrite ltb_compare. pose proof (SFcompare_refl_not_Lt a) as H.
  destruct (SFcompare a a) as [[| |]|]; try reflexivity. now elim H.
Qed.

Lemma min_not_above_left a b : Num.ltb a (Num.min a b) = false.
Proof.
  unfold Num.min. pose proof (SFcompare_antisym a b) as E.
  destruct (SFcompare a b) as [[| |]|] eqn:C; simpl in E.
  - destruct (Num.is_neg_zero a); [apply ltb_irrefl|].
    destruct (Num.is_neg_zero b); [|apply ltb_irrefl].
    rewrite ltb_compare, C. reflexivity.
  - apply ltb_irrefl.
  - rewrite ltb_compare, C. reflexivity.
  - rewrite ltb_compare. unfold Num.NaN.
    destruct a; reflexivity.
Qed.

Lemma min_not_above_right a b : Num.ltb b (Num.min a b) = false.
Proof.
  unfold Num.min. pose proof (SFcompare_antisym a b) as E.
  destruct (SFcompare a b) as [[| |]|] eqn:C; simpl in E.
  - destruct (Num.is_neg_zero a); [now rewrite ltb_compare, E|].
    destruct (Num.is_neg_zero b); [apply ltb_irrefl|].
    now rewrite ltb_compare, E.
  - now rewrite ltb_compare, E.
  - apply ltb_irrefl.
  - rewrite ltb_compare. unfold Num.NaN.
    destruct b; reflexivity.
Qed.

Lemma min_NaN_left b : Num.min Num.NaN b = Num.NaN.
Proof. reflexivity. Qed.

Lemma min_NaN_right a : Num.min a Num.NaN = Num.NaN.
Proof. unfold Num.min. destruct a; reflexivity. Qed.

Lemma min_is_one_of a b :
  Num.min a b = a \/ Num.min a b = b \/ Num.min a b = Num.NaN.
Proof.
  unfold Num.min. destruct (SFcompare a b) as [[| |]|]; auto.
  destruct (Num.is_neg_zero a); auto. destruct (Num.is_neg_zero b); auto.
Qed.

Lemma clampProgress_range x :
  (Num.is_nan x = true /\ clampProgress x = Num.NaN) \/
  (Num.is_nan x = false /\
   Num.leb Num.zero (clampProgress x) = true /\
   Num.leb (clampProgress x) Num.one = true).
Proof.
  destruct x as [sg|sg| |sg m e].
  - right. destruct sg; repeat split; reflexivity.
  - right. destruct sg; repeat split; reflexivity.
  - left. split; reflexivity.
  - right. split; [reflexivity|].
    unfold clampProgress, Num.min.
    pose proof (SFcompare_antisym Num.one (S754_finite sg m e)) as E1.
    destruct (SFcompare Num.one (S754_finite sg m e)) as [[| |]|] eqn:C1.
    + split; reflexivity.
    + split; reflexivity.
    + unfold Num.max.
      destruct (SFcompare Num.zero (S754_finite sg m e)) as [[| |]|] eqn:C0.
      * split; reflexivity.
      * split.
        -- unfold Num.leb, SFleb. now rewrite C0.
        -- unfold Num.leb, SFleb. now rewrite E1.
      * split; reflexivity.
      * destruct sg; discriminate C0.
    + destruct sg; discriminate C1.
Qed.

(** X1.  [Math.max(0, Math.min(1, x))] is NaN for NaN and otherwise a number
    from 0 to 1: this is what the preview uses as progress and what
    [updateAudioVolume] and [lowerAudioVolume] store as volume. *)
Theorem clamp_in_unit_interval x :
  (Num.is_nan x = true /\ clampProgress x = Num.NaN) \/
  (Num.is_nan x = false /\
   Num.leb Num.zero (clampProgress x) = true /\
   Num.leb (clampProgress x) Num.one = true).
Proof. exact (clampProgress_range x). Qed.

(** ** The snapshot string determines the clip ids *)

Lemma append_assoc_string (a b c : string) : ((a ++ b) ++ c = a ++ (b ++ c))%string.
Proof. induction a as [|x a IH]; simpl; congruence. Qed.

Lemma append_empty_r (a : string) : (a ++ "" = a)%string.
Proof. induction a as [|x a IH]; simpl; congruence. Qed.

Lemma decodeBody_quoteBody s :
  forall rest, decodeBody (quoteBody s ++ String dquote rest) = Some (s, rest).
Proof.
  induction s as [|c s IH]; intros rest.
  - reflexivity.
  - cbn [quoteBody]. rewrite append_assoc_string.
    specialize (IH rest).
    set (tail := (quoteBody s ++ String dquote rest)%string) in *.
    clearbody tail.
    destruct c as [[] [] [] [] [] [] [] []];
      match goal with
      | |- context [quoteChar ?c] =>
          let q := eval vm_compute in (quoteChar c) in
          change (quoteChar c) with q
      end;
      simpl; rewrite IH; reflexivity.
Qed.

Lemma quoteJSON_prefix_free a b r s :
  (quoteJSON a ++ r = quoteJSON b ++ s)%string -> a = b /\ r = s.
Proof.
  unfold quoteJSON. cbn [append]. rewrite !append_assoc_string. cbn [append].
  intros [= H]. apply (f_equal decodeBody) in H.
  rewrite !decodeBody_quoteBody in H. injection H as -> ->. auto.
Qed.

Section ArrayEncoding.
Variable A : Type.
Variable enc : A -> string.
Hypothesis enc_prefix_free :
  forall a b r s, (enc a ++ r = enc b ++ s)%string -> a = b /\ r = s.
Hypothesis enc_head :
  forall a r, exists c t, (enc a ++ r)%string = String c t /\ c <> "]"%char.

Lemma stringifyArray_rest l rest :
  (stringifyArray (map enc l) ++ rest)%string =
  String "[" match l with
             | [] => String "]" rest
             | a :: r => (enc a ++ arrayRest enc r rest)%string
             end.
Proof.
  unfold stringifyArray. cbn [append]. f_equal.
  destruct l as [|a r]; [reflexivity|].
  rewrite append_assoc_string. cbn [append].
  revert a. induction r as [|b r IH]; intros a.
  - reflexivity.
  - cbn [map String.concat arrayRest].
    rewrite append_assoc_string. f_equal. cbn [append]. f_equal.
    apply IH.
Qed.

Lemma arrayRest_inj l1 :
  forall l2 r1 r2, arrayRest enc l1 r1 = arrayRest enc l2 r2 -> l1 = l2 /\ r1 = r2.
Proof.
  induction l1 as [|a l1 IH]; intros [|b l2] r1 r2; cbn [arrayRest];
    intros H; try discriminate H.
  - injection H as ->. auto.
  - injection H as H. apply enc_prefix_free in H. destruct H as [-> H].
    apply IH in H. destruct H as [-> ->]. auto.
Qed.

Lemma stringifyArray_inj l1 l2 r1 r2 :
  (stringifyArray (map enc l1) ++ r1 = stringifyArray (map enc l2) ++ r2)%string ->
  l1 = l2 /\ r1 = r2.
Proof.
  rewrite !stringifyArray_rest. intros [= H].
  destruct l1 as [|a l1], l2 as [|b l2].
  - injection H as ->. auto.
  - exfalso. destruct (enc_head b (arrayRest enc l2 r2)) as (c & t & E & Hc).
    rewrite E in H. injection H as H _. congruence.
  - exfalso. destruct (enc_head a (arrayRest enc l1 r1)) as (c & t & E & Hc).
    rewrite E in H. injection H as H _. congruence.
  - apply enc_prefix_free in H. destruct H as [-> H].
    apply arrayRest_inj in H. destruct H as [-> ->]. auto.
Qed.

End ArrayEncoding.

Lemma stringifyRow_prefix_free a b r s :
  (stringifyArray (map quoteJSON a) ++ r = stringifyArray (map quoteJSON b) ++ s)%string ->
  a = b /\ r = s.
Proof.
  apply stringifyArray_inj.
  - exact quoteJSON_prefix_free.
  - intros x t. unfold quoteJSON. cbn [append]. eexists. eexists.
    split; [reflexivity|]. discriminate.
Qed.

Lemma stringifyIds_injective rows1 rows2 :
  stringifyIds rows1 = stringifyIds rows2 -> rows1 = rows2.
Proof.
  unfold stringifyIds. intros H.
  assert (H' : (stringifyArray
                  (map (fun r => stringifyArray (map quoteJSON r)) rows1) ++ "" =
                stringifyArray
                  (map (fun r => stringifyArray (map quoteJSON r)) rows2) ++ "")%string)
    by now rewrite !append_empty_r.
  apply stringifyArray_inj in H'.
  - tauto.
  - exact stringifyRow_prefix_free.
  - intros x t. unfold stringifyArray. cbn [append]. eexists. eexists.
    split; [reflexivity|]. discriminate.
Qed.

(** X2.  The snapshot string of the poll tick determines the clip ids of
    every track, in order: two stores have the same snapshot exactly when
    their tracks list the same clip ids.  So no change of the track
    composition is missed, whatever characters the ids contain. *)
Theorem trackSnapshot_determines_ids (s1 s2 : Store) :
  TransitionsStoreMonitor.trackSnapshot s1 = TransitionsStoreMonitor.trackSnapshot s2
  <-> trackIds s1 = trackIds s2.
Proof.
  unfold TransitionsStoreMonitor.trackSnapshot. fold (trackIds s1) (trackIds s2).
  split.
  - apply stringifyIds_injective.
  - now intros ->.
Qed.

(** ** The monitor: what an add does and does not do *)

Lemma trackSnapshot_ids_eq s1 s2 :
  trackIds s1 = trackIds s2 ->
  TransitionsStoreMonitor.trackSnapshot s1 = TransitionsStoreMonitor.trackSnapshot s2.
Proof.
  unfold TransitionsStoreMonitor.trackSnapshot. fold (trackIds s1) (trackIds s2).
  now intros ->.
Qed.

Section MonitorMore.
Import TransitionsStoreMonitor.
Variable randomUUID : nat -> string.
Variable dateNow : nat -> Z.

Lemma storeFrame_setTransitions l s : storeFrame (setTransitions l s) = storeFrame s.
Proof.
  unfold storeFrame, setTransitions.
  destruct (project s) as [p|] eqn:E; cbn [project hasSaveNow hasPushSnapshot].
  - reflexivity.
  - now rewrite E.
Qed.

Lemma trackIds_frame s s' : storeFrame s' = storeFrame s -> trackIds s' = trackIds s.
Proof.
  unfold storeFrame, trackIds. intros [= H _ _].
  destruct (project s) as [[ts tr]|], (project s') as [[ts' tr']|];
    simpl in H; try discriminate H; try reflexivity.
  injection H as ->. reflexivity.
Qed.

Lemma findClipInProject_frame s s' c :
  storeFrame s' = storeFrame s -> findClipInProject c s' = findClipInProject c s.
Proof.
  unfold storeFrame, findClipInProject. intros [= H _ _].
  destruct (project s) as [[ts tr]|], (project s') as [[ts' tr']|];
    simpl in H; try discriminate H; try reflexivity.
  injection H as ->. reflexivity.
Qed.

Lemma adjacentInTrack_frame s s' a b :
  storeFrame s' = storeFrame s -> adjacentInTrack s a b -> adjacentInTrack s' a b.
Proof.
  unfold storeFrame. intros [= H _ _] (p & ts & t & cs & pre & x & y & post & Hp & Ht & R).
  rewrite Hp in H. simpl in H. rewrite Ht in H.
  destruct (project s') as [p'|] eqn:Ep'; simpl in H; [|discriminate H].
  injection H as H.
  exists p', ts, t, cs, pre, x, y, post. auto.
Qed.

(** The three outcomes of [addTransitionToProject]. *)
Lemma addTransitionToProject_outcome cid ty opts s n :
  match findClipInProject cid s with
  | Some (clip, Some nextClip) =>
      exists t,
        addTransitionToProject randomUUID dateNow cid ty opts s n =
        (setTransitions
           (filter (fun x => negb (touches cid x)) (storedTransitions (Some s)) ++ [t]) s,
         S n,
         callHooks s true ++
         [Console "log" "[TransitionsMonitor] Added";
          Notification (displayName ty ++ " transition added!") "success";
          RefreshAllBtns])%list /\
        id t = randomUUID n /\ fromClipId t = cid /\ toClipId t = clip_id nextClip /\
        type t = ty /\ createdAt t = dateNow n /\
        duration t =
          TransitionManager.validateTransitionDuration
            (clip_duration clip) (clip_duration nextClip)
            (orDefault (match opts with Some o => o_duration o | None => None end) d1_0)
  | Some (_, None) =>
      addTransitionToProject randomUUID dateNow cid ty opts s n =
      (s, n, [Console "warn" "[TransitionsMonitor] No next clip for transition";
              Notification "Add another clip after this one to create a transition"
                           "warning"])
  | None =>
      addTransitionToProject randomUUID dateNow cid ty opts s n =
      (s, n, [Console "error" "[TransitionsMonitor] Clip not found"])
  end.
Proof.
  unfold addTransitionToProject.
  destruct (findClipInProject cid s) as [[clip [nextClip|]]|]; try reflexivity.
  eexists. split; [reflexivity|]. repeat split.
Qed.

Lemma addTransitionToProject_frame cid ty opts s n :
  storeFrame (fst (fst (addTransitionToProject randomUUID dateNow cid ty opts s n)))
  = storeFrame s /\
  topologySignals (snd (addTransitionToProject randomUUID dateNow cid ty opts s n)) = 0.
Proof.
  pose proof (addTransitionToProject_outcome cid ty opts s n) as H.
  destruct (findClipInProject cid s) as [[clip [nextClip|]]|].
  - destruct H as (t & -> & _). cbn [fst snd]. split.
    + apply storeFrame_setTransitions.
    + unfold callHooks. destruct (hasSaveNow s), (hasPushSnapshot s); reflexivity.
  - rewrite H. auto.
  - rewrite H. auto.
Qed.

Lemma topologySignals_app a b :
  topologySignals (a ++ b) = topologySignals a + topologySignals b.
Proof. unfold topologySignals. now rewrite filter_app, length_app. Qed.

Lemma flush_frame q :
  forall s n tr,
    storeFrame (fst (fst (flush randomUUID dateNow q s n tr))) = storeFrame s /\
    topologySignals (snd (flush randomUUID dateNow q s n tr)) = topologySignals tr.
Proof.
  induction q as [|p rest IH]; intros s n tr; cbn [flush].
  - auto.
  - pose proof (addTransitionToProject_frame (clipId p) (transitionType p)
                  (options p) s n) as [Hf Ht].
    destruct (addTransitionToProject randomUUID dateNow (clipId p)
                (transitionType p) (options p) s n) as [[s1 n1] e].
    cbn [fst snd] in Hf, Ht.
    destruct (IH s1 n1 (tr ++ e)%list) as [Hf' Ht'].
    split.
    + now rewrite Hf'.
    + rewrite Ht', topologySignals_app, Ht. lia.
Qed.

(** X3.  Neither an add event nor a poll tick changes anything of the store
    but its list of transitions: the tracks with their clips and the two
    hooks stay as they are, so the monitor's own writes never change the
    track snapshot. *)
Theorem monitor_writes_only_the_transitions (calls : list MonitorCall)
    (w : World) :
  option_map storeFrame (store (runMonitor randomUUID dateNow calls w)) =
  option_map storeFrame (store w).
Proof.
  revert w. induction calls as [|c rest IH]; intros w; [reflexivity|].
  unfold runMonitor in *. cbn [fold_left]. rewrite IH. clear IH.
  destruct c as [cid ty opts|]; cbn [applyMonitorCall].
  - unfold handleTransition. destruct (store w) as [s|] eqn:Es.
    + pose proof (addTransitionToProject_frame cid ty opts s (created w)) as [Hf _].
      destruct (addTransitionToProject randomUUID dateNow cid ty opts s (created w))
        as [[s1 n1] e].
      cbn [store option_map fst] in *. now rewrite Hf.
    + reflexivity.
  - unfold pollTick. destruct (store w) as [s|] eqn:Es.
    + pose proof (flush_frame (pendingTransitions w) s (created w) (trace w)) as [Hf _].
      destruct (flush randomUUID dateNow (pendingTransitions w) s (created w) (trace w))
        as [[s1 n1] tr].
      cbn [fst] in Hf.
      destruct (snapshotDiffers (trackSnapshot s1) (lastTrackSnapshot w));
        cbn [fst store option_map]; now rewrite Hf.
    + cbn [fst]. now rewrite Es.
Qed.

(** X4.  A poll tick that finds the store signals a change of the track
    composition exactly when the clip ids of the tracks differ from those of
    the store whose snapshot is remembered, and always on the first tick that
    finds a store; it then remembers the new snapshot.  Flushing the queue
    adds no signal. *)
Theorem tick_signals_exactly_changed_ids (w : World) (s : Store) :
  store w = Some s ->
  let w' := fst (pollTick randomUUID dateNow w) in
  (lastTrackSnapshot w = None ->
   topologySignals (trace w') = S (topologySignals (trace w)) /\
   lastTrackSnapshot w' = Some (trackSnapshot s)) /\
  (forall s0,
     lastTrackSnapshot w = Some (trackSnapshot s0) ->
     (trackIds s = trackIds s0 ->
      topologySignals (trace w') = topologySignals (trace w) /\
      lastTrackSnapshot w' = lastTrackSnapshot w) /\
     (trackIds s <> trackIds s0 ->
      topologySignals (trace w') = S (topologySignals (trace w)) /\
      lastTrackSnapshot w' = Some (trackSnapshot s))).
Proof.
  intros Es. cbv zeta. unfold pollTick. rewrite Es.
  pose proof (flush_frame (pendingTransitions w) s (created w) (trace w)) as [Hf Ht].
  destruct (flush randomUUID dateNow (pendingTransitions w) s (created w) (trace w))
    as [[s1 n1] tr].
  cbn [fst snd] in Hf, Ht.
  assert (Hsnap : trackSnapshot s1 = trackSnapshot s).
  { apply trackSnapshot_ids_eq. now apply trackIds_frame. }
  rewrite Hsnap. split.
  - intros ->. cbn [snapshotDiffers fst trace lastTrackSnapshot].
    rewrite topologySignals_app, Ht. cbn. split; [lia|reflexivity].
  - intros s0 Hl. rewrite Hl. cbn [snapshotDiffers]. split.
    + intros Hids. apply trackSnapshot_ids_eq in Hids. rewrite Hids.
      rewrite String.eqb_refl. cbn [negb fst trace lastTrackSnapshot].
      split; [exact Ht|reflexivity].
    + intros Hids.
      destruct (String.eqb_spec (trackSnapshot s) (trackSnapshot s0)) as [E|E].
      * exfalso. apply Hids. now apply stringifyIds_injective.
      * cbn [negb fst trace lastTrackSnapshot].
        rewrite topologySignals_app, Ht. cbn. split; [lia|reflexivity].
Qed.

End MonitorMore.

(** ** The monitor: where a transition is created *)

Lemma findInClips_spec cid cs c nx :
  TransitionsStoreMonitor.findInClips cid cs = Some (c, nx) ->
  exists pre post,
    cs = (pre ++ c :: post)%list /\ clip_id c = cid /\
    ~ In cid (map clip_id pre) /\ nx = hd_error post.
Proof.
  induction cs as [|x r IH]; cbn [TransitionsStoreMonitor.findInClips];
    [discriminate|].
  destruct (String.eqb_spec (clip_id x) cid) as [E|E].
  - intros [= <- <-]. exists [], r. cbn. auto.
  - intros H. destruct (IH H) as (pre & post & -> & Hc & Hn & Hx).
    exists (x :: pre), post. cbn. repeat split; auto.
    intros [F|F]; auto.
Qed.

Lemma findInClips_none cid cs :
  TransitionsStoreMonitor.findInClips cid cs = None -> ~ In cid (map clip_id cs).
Proof.
  induction cs as [|x r IH]; cbn [TransitionsStoreMonitor.findInClips]; [auto|].
  destruct (String.eqb_spec (clip_id x) cid) as [E|E]; [discriminate|].
  intros H [F|F]; [auto|]. now apply (IH H).
Qed.

Lemma findInTracks_spec cid ts found :
  TransitionsStoreMonitor.findInTracks cid ts = Some found ->
  exists t cs, In t ts /\ clips t = Some cs /\
               TransitionsStoreMonitor.findInClips cid cs = Some found.
Proof.
  induction ts as [|t r IH]; cbn [TransitionsStoreMonitor.findInTracks];
    [discriminate|].
  destruct (clips t) as [cs|] eqn:Ec.
  - destruct (TransitionsStoreMonitor.findInClips cid cs) as [f|] eqn:Ef.
    + intros [= <-]. exists t, cs. cbn. auto.
    + intros H. destruct (IH H) as (t' & cs' & Hin & R). exists t', cs'. cbn. auto.
  - intros H. destruct (IH H) as (t' & cs' & Hin & R). exists t', cs'. cbn. auto.
Qed.

Lemma findInTracks_none cid ts :
  TransitionsStoreMonitor.findInTracks cid ts = None ->
  forall t cs, In t ts -> clips t = Some cs -> ~ In cid (map clip_id cs).
Proof.
  induction ts as [|t r IH]; cbn [TransitionsStoreMonitor.findInTracks];
    [intros _ t cs []|].
  destruct (clips t) as [cs0|] eqn:Ec.
  - destruct (TransitionsStoreMonitor.findInClips cid cs0) as [f|] eqn:Ef;
      [discriminate|].
    intros H t' cs [<-|Hin] Hc.
    + rewrite Ec in Hc. injection Hc as <-. now apply findInClips_none.
    + now apply (IH H t').
  - intros H t' cs [<-|Hin] Hc; [congruence|]. now apply (IH H t').
Qed.

Lemma findClipInProject_adjacent cid s clip nextClip :
  TransitionsStoreMonitor.findClipInProject cid s = Some (clip, Some nextClip) ->
  adjacentInTrack s cid (clip_id nextClip).
Proof.
  unfold TransitionsStoreMonitor.findClipInProject.
  destruct (project s) as [[[ts|] tr]|] eqn:Ep; try discriminate.
  intros H. destruct (findInTracks_spec _ _ _ H) as (t & cs & Hin & Hc & Hf).
  destruct (findInClips_spec _ _ _ _ Hf) as (pre & post & -> & Hid & _ & Hx).
  destruct post as [|y post]; [discriminate Hx|]. injection Hx as ->.
  exists {| tracks := Some ts; transitions := tr |}, ts, t,
    (pre ++ clip :: y :: post)%list, pre, clip, y, post.
  repeat split; auto.
Qed.

Section MonitorPlace.
Import TransitionsStoreMonitor.
Variable randomUUID : nat -> string.
Variable dateNow : nat -> Z.

(** X5.  [addTransitionToProject] either does nothing to the store (and calls
    neither [saveNow] nor [pushSnapshot]), or it stores, as the last entry of
    the list, one new transition that starts at the given clip and ends at a
    clip that directly follows it in a track of the store; the entries that
    do not touch the given clip are kept in their order. *)
Theorem addTransitionToProject_joins_neighbours (cid ty : string)
    (opts : option Options) (s : Store) (n : nat) :
  let r := addTransitionToProject randomUUID dateNow cid ty opts s n in
  (fst (fst r) = s /\ snd (fst r) = n /\ hookCalls (snd r) = []) \/
  (exists t,
     storedTransitions (Some (fst (fst r))) =
       (filter (fun x => negb (touches cid x)) (storedTransitions (Some s)) ++ [t])%list /\
     snd (fst r) = S n /\ hookCalls (snd r) = callHooks s true /\
     id t = randomUUID n /\ type t = ty /\ fromClipId t = cid /\
     adjacentInTrack s cid (toClipId t)).
Proof.
  cbv zeta.
  pose proof (addTransitionToProject_outcome randomUUID dateNow cid ty opts s n) as H.
  destruct (findClipInProject cid s) as [[clip [nextClip|]]|] eqn:Ef.
  - right. destruct H as (t & -> & Hid & Hfrom & Hto & Hty & _).
    exists t. cbn [fst snd].
    destruct (findClipInProject_project _ _ _ Ef) as [p Hp].
    rewrite (stored_setTransitions _ _ _ Hp).
    repeat split; auto.
    + unfold callHooks, hookCalls.
      destruct (hasSaveNow s), (hasPushSnapshot s); reflexivity.
    + rewrite Hto. now apply (findClipInProject_adjacent _ _ clip).
  - left. rewrite H. auto.
  - left. rewrite H. auto.
Qed.

(** X6.  When no track of the store holds a clip directly after the given
    one (the clip is unknown, or nothing follows it), [addTransitionToProject]
    and [handleTransition] leave the store, the list of transitions and the
    creation count as they are and call no hook of the store. *)
Theorem no_successor_no_transition (cid ty : string) (opts : option Options)
    (w : World) (s : Store) :
  store w = Some s ->
  (forall b, ~ adjacentInTrack s cid b) ->
  let w' := handleTransition randomUUID dateNow cid ty opts w in
  store w' = Some s /\ created w' = created w /\
  pendingTransitions w' = pendingTransitions w /\
  hookCalls (trace w') = hookCalls (trace w).
Proof.
  intros Es Hno. cbv zeta. unfold handleTransition. rewrite Es.
  pose proof (addTransitionToProject_outcome randomUUID dateNow cid ty opts s
                (created w)) as H.
  destruct (findClipInProject cid s) as [[clip [nextClip|]]|] eqn:Ef.
  - exfalso. apply (Hno (clip_id nextClip)).
    now apply (findClipInProject_adjacent _ _ clip).
  - rewrite H. cbn [store created pendingTransitions trace].
    unfold hookCalls. rewrite filter_app. cbn. rewrite app_nil_r. auto.
  - rewrite H. cbn [store created pendingTransitions trace].
    unfold hookCalls. rewrite filter_app. cbn. rewrite app_nil_r. auto.
Qed.

End MonitorPlace.

Lemma no_successor_no_transition_witness :
  TransitionsStoreMonitor.store
    (TransitionsStoreMonitor.handleTransition Examples.uuids Examples.clock
       "D" "fade" None Examples.monitor4) = Some Examples.store4 /\
  TransitionsStoreMonitor.created
    (TransitionsStoreMonitor.handleTransition Examples.uuids Examples.clock
       "D" "fade" None Examples.monitor4) = 0 /\
  TransitionsStoreMonitor.pendingTransitions
    (TransitionsStoreMonitor.handleTransition Examples.uuids Examples.clock
       "D" "fade" None Examples.monitor4) = [] /\
  hookCalls (TransitionsStoreMonitor.trace
    (TransitionsStoreMonitor.handleTransition Examples.uuids Examples.clock
       "D" "fade" None Examples.monitor4)) = [].
Proof.
  refine (no_successor_no_transition Examples.uuids Examples.clock "D" "fade" None
            Examples.monitor4 Examples.store4 eq_refl _).
  intros b (p & ts & t & cs & pre & x & y & post & Hp & Ht & Hin & Hc & Hcs & Hx & Hy).
  injection Hp as <-. injection Ht as <-.
  destruct Hin as [<-|[]]. injection Hc as <-.
  destruct pre as [|c1 [|c2 [|c3 [|c4 pre]]]]; cbn in Hcs;
    injection Hcs as; subst; try discriminate.
  all: destruct pre; discriminate.
Defined.

Lemma tick_signals_exactly_changed_ids_witness :
  (topologySignals (TransitionsStoreMonitor.trace
     (fst (TransitionsStoreMonitor.pollTick Examples.uuids Examples.clock
             Examples.ticked5))) =
   S (topologySignals (TransitionsStoreMonitor.trace Examples.ticked5)) /\
   TransitionsStoreMonitor.lastTrackSnapshot
     (fst (TransitionsStoreMonitor.pollTick Examples.uuids Examples.clock
             Examples.ticked5)) =
   Some (TransitionsStoreMonitor.trackSnapshot Examples.store5)) /\
  (topologySignals (TransitionsStoreMonitor.trace
     (fst (TransitionsStoreMonitor.pollTick Examples.uuids Examples.clock
             Examples.ticked4))) =
   topologySignals (TransitionsStoreMonitor.trace Examples.ticked4) /\
   TransitionsStoreMonitor.lastTrackSnapshot
     (fst (TransitionsStoreMonitor.pollTick Examples.uuids Examples.clock
             Examples.ticked4)) =
   TransitionsStoreMonitor.lastTrackSnapshot Examples.ticked4).
Proof.
  split.
  - refine (proj2 (proj2 (tick_signals_exactly_changed_ids Examples.uuids
              Examples.clock Examples.ticked5 Examples.store5 eq_refl)
              Examples.store4 eq_refl) _).
    discriminate.
  - exact (proj1 (proj2 (tick_signals_exactly_changed_ids Examples.uuids
              Examples.clock Examples.ticked4 Examples.store4 eq_refl)
              Examples.store4 eq_refl) eq_refl).
Defined.

(** ** The duration cap *)

Lemma is_nan_true x : Num.is_nan x = true -> x = Num.NaN.
Proof. destruct x; try discriminate; reflexivity. Qed.

(** X7.  The duration that [validateTransitionDuration] returns (the rule
    that [addTransitionToProject] applies as well) is never above the
    requested duration and never above half of the shorter clip; it is one
    of the two or NaN, and it is NaN as soon as the request or one of the
    clip durations is NaN. *)
Theorem validateTransitionDuration_bound (f t d : num) :
  Num.ltb d (TransitionManager.validateTransitionDuration f t d) = false /\
  Num.ltb (Num.div (Num.min f t) Num.two)
          (TransitionManager.validateTransitionDuration f t d) = false /\
  (TransitionManager.validateTransitionDuration f t d = d \/
   TransitionManager.validateTransitionDuration f t d = Num.div (Num.min f t) Num.two \/
   TransitionManager.validateTransitionDuration f t d = Num.NaN) /\
  (Num.is_nan f || Num.is_nan t || Num.is_nan d = true ->
   TransitionManager.validateTransitionDuration f t d = Num.NaN).
Proof.
  unfold TransitionManager.validateTransitionDuration. cbv zeta.
  split; [apply min_not_above_left|].
  split; [apply min_not_above_right|].
  split; [apply min_is_one_of|].
  intros H. apply orb_prop in H. destruct H as [H|H].
  - apply orb_prop in H. destruct H as [H|H]; apply is_nan_true in H; subst.
    + rewrite min_NaN_left. apply min_NaN_right.
    + rewrite min_NaN_right. apply min_NaN_right.
  - apply is_nan_true in H. subst. apply min_NaN_left.
Qed.

(** ** Queued adds and direct adds *)

Lemma NoDup_app_cons_last {A} (l : list A) (x : A) :
  NoDup l -> ~ In x l -> NoDup (l ++ [x]).
Proof.
  induction l as [|y r IH]; cbn; intros Hn Hx.
  - constructor; [auto|constructor].
  - inversion Hn as [|? ? Hy Hr]; subst. constructor.
    + rewrite in_app_iff. cbn. intros [F|[F|[]]]; [auto|]. subst. auto.
    + apply IH; auto.
Qed.

Lemma addTransitionToProject_joins_neighbours_aux randomUUID dateNow cid ty opts s n :
  fst (fst (TransitionsStoreMonitor.addTransitionToProject
              randomUUID dateNow cid ty opts s n)) = s /\
  snd (fst (TransitionsStoreMonitor.addTransitionToProject
              randomUUID dateNow cid ty opts s n)) = n \/
  exists t,
    storedTransitions
      (Some (fst (fst (TransitionsStoreMonitor.addTransitionToProject
                         randomUUID dateNow cid ty opts s n)))) =
      (filter (fun x => negb (touches cid x)) (storedTransitions (Some s)) ++ [t])%list /\
    fromClipId t = cid /\ adjacentInTrack s cid (toClipId t).
Proof.
  pose proof (addTransitionToProject_outcome randomUUID dateNow cid ty opts s n) as H.
  destruct (TransitionsStoreMonitor.findClipInProject cid s)
    as [[clip [nextClip|]]|] eqn:Ef.
  - right. destruct H as (t & -> & _ & Hfrom & Hto & _).
    exists t. cbn [fst snd].
    destruct (findClipInProject_project _ _ _ Ef) as [p Hp].
    rewrite (stored_setTransitions _ _ _ Hp). repeat split; auto.
    rewrite Hto. now apply (findClipInProject_adjacent _ _ clip).
  - left. rewrite H. auto.
  - left. rewrite H. auto.
Qed.


Section MonitorReplay.
Import TransitionsStoreMonitor.
Variable randomUUID : nat -> string.
Variable dateNow : nat -> Z.


Lemma runMonitor_app a b w :
  runMonitor randomUUID dateNow (a ++ b) w =
  runMonitor randomUUID dateNow b (runMonitor randomUUID dateNow a w).
Proof. unfold runMonitor. apply fold_left_app. Qed.





(** ** What the monitor's list of transitions always satisfies *)

Lemma NoDup_map_filter {A B} (f : A -> B) (p : A -> bool) l :
  NoDup (map f l) -> NoDup (map f (filter p l)).
Proof.
  induction l as [|x r IH]; cbn; [auto|].
  intros H. inversion H as [|? ? Hn Hr]; subst.
  destruct (p x); cbn; [|auto].
  constructor; [|auto].
  intros F. apply Hn. apply in_map_iff in F. destruct F as (y & <- & Hy).
  apply filter_In in Hy. apply in_map. tauto.
Qed.

Lemma monitorListOk_add cid ty opts s n :
  monitorListOk s (storedTransitions (Some s)) ->
  monitorListOk
    (fst (fst (addTransitionToProject randomUUID dateNow cid ty opts s n)))
    (storedTransitions
       (Some (fst (fst (addTransitionToProject randomUUID dateNow cid ty opts s n))))).
Proof.
  intros [Hn Ha].
  pose proof (addTransitionToProject_frame randomUUID dateNow cid ty opts s n)
    as [Hf _].
  destruct (addTransitionToProject_joins_neighbours_aux randomUUID dateNow cid ty opts s n)
    as [(E & _)|(t & Est & Hfrom & Hadj)].
  - rewrite E. split; assumption.
  - rewrite Est. split.
    + rewrite map_app. cbn [map]. apply NoDup_app_cons_last.
      * now apply NoDup_map_filter.
      * intros F. apply in_map_iff in F. destruct F as (y & Hy & Hin).
        apply filter_In in Hin. destruct Hin as [_ Hin].
        unfold touches in Hin. rewrite Hy, Hfrom, String.eqb_refl in Hin.
        discriminate Hin.
    + apply Forall_app. split.
      * apply Forall_forall. intros x Hx. apply filter_In in Hx.
        rewrite Forall_forall in Ha.
        apply (adjacentInTrack_frame s); [exact Hf|]. apply Ha. tauto.
      * constructor; [|constructor].
        apply (adjacentInTrack_frame s); [exact Hf|]. rewrite Hfrom. exact Hadj.
Qed.

Lemma monitorListOk_flush q :
  forall s n tr,
    monitorListOk s (storedTransitions (Some s)) ->
    monitorListOk (fst (fst (flush randomUUID dateNow q s n tr)))
      (storedTransitions (Some (fst (fst (flush randomUUID dateNow q s n tr))))).
Proof.
  induction q as [|p rest IH]; intros s n tr H; cbn [flush]; [exact H|].
  pose proof (monitorListOk_add (clipId p) (transitionType p) (options p) s n H) as H1.
  destruct (addTransitionToProject randomUUID dateNow (clipId p)
              (transitionType p) (options p) s n) as [[s1 n1] e].
  apply IH. exact H1.
Qed.

(** X9.  Over every sequence of add events and poll ticks on a store, the
    stored list keeps two properties that it has at the start (an empty list
    has them): no clip is the source of two stored transitions, and every
    stored transition joins a clip and the clip directly after it in a track
    of the store. *)
Theorem monitor_keeps_list_consistent (calls : list MonitorCall) (w : World)
    (s : Store) :
  store w = Some s ->
  monitorListOk s (storedTransitions (Some s)) ->
  exists s',
    store (runMonitor randomUUID dateNow calls w) = Some s' /\
    monitorListOk s' (storedTransitions (Some s')).
Proof.
  revert w s. induction calls as [|c rest IH]; intros w s Es H.
  - exists s. auto.
  - unfold runMonitor in *. cbn [fold_left].
    destruct c as [cid ty opts|]; cbn [applyMonitorCall].
    + pose proof (monitorListOk_add cid ty opts s (created w) H) as H1.
      apply (IH _ (fst (fst (addTransitionToProject randomUUID dateNow cid ty opts
                               s (created w))))); [|exact H1].
      unfold handleTransition. rewrite Es.
      destruct (addTransitionToProject randomUUID dateNow cid ty opts s (created w))
        as [[s1 n1] e]. reflexivity.
    + pose proof (monitorListOk_flush (pendingTransitions w) s (created w) (trace w) H)
        as H1.
      apply (IH _ (fst (fst (flush randomUUID dateNow (pendingTransitions w) s
                               (created w) (trace w))))); [|exact H1].
      unfold pollTick. rewrite Es.
      destruct (flush randomUUID dateNow (pendingTransitions w) s (created w) (trace w))
        as [[s1 n1] tr].
      destruct (snapshotDiffers (trackSnapshot s1) (lastTrackSnapshot w)); reflexivity.
Qed.

End MonitorReplay.


Lemma monitor_keeps_list_consistent_witness :
  exists s',
    TransitionsStoreMonitor.store
      (runMonitor Examples.uuids Examples.clock
         (map addOf Examples.addsABA ++ [MonitorTick]) Examples.monitor4) = Some s' /\
    monitorListOk s' (storedTransitions (Some s')).
Proof.
  refine (monitor_keeps_list_consistent Examples.uuids Examples.clock
            (map addOf Examples.addsABA ++ [MonitorTick]) Examples.monitor4
            Examples.store4 eq_refl _).
  split; [constructor|constructor].
Defined.

(** ** The graph: removal and the two keys of an instance *)

Lemma get_delete_both k a b (m : TransitionManager.t) :
  wf m ->
  JsMap.get k (JsMap.delete b (JsMap.delete a m)) =
  if String.eqb k a || String.eqb k b then None else JsMap.get k m.
Proof.
  intros Hwf.
  destruct (String.eqb_spec k b) as [->|Hb].
  - rewrite orb_true_r. apply get_delete_same. now apply wf_delete.
  - rewrite orb_false_r, get_delete_other by assumption.
    destruct (String.eqb_spec k a) as [->|Ha].
    + now apply get_delete_same.
    + now apply get_delete_other.
Qed.

(** X10.  In every state the manager reaches, [removeTransition(clipId)]
    returns whether the clip had an instance; if it had, the clip and both
    endpoints of that instance have none afterwards and every other clip
    keeps what it had.  If it had none, nothing changes. *)
Theorem removeTransition_clears_both_endpoints (m : TransitionManager.t)
    (c : string) :
  reachable m ->
  match TransitionManager.getTransition c m with
  | Some t =>
      fst (TransitionManager.removeTransition c m) = true /\
      TransitionManager.hasTransition c
        (snd (TransitionManager.removeTransition c m)) = false /\
      forall k,
        TransitionManager.getTransition k
          (snd (TransitionManager.removeTransition c m)) =
        if String.eqb k (fromClipId t) || String.eqb k (toClipId t) then None
        else TransitionManager.getTransition k m
  | None => TransitionManager.removeTransition c m = (false, m)
  end.
Proof.
  intros Hr. destruct (reachable_graphInv m Hr) as (Hwf & Hke & _).
  unfold TransitionManager.getTransition, TransitionManager.removeTransition,
    TransitionManager.hasTransition.
  destruct (JsMap.get c m) as [t|] eqn:E; [|reflexivity].
  cbn [fst snd]. split; [reflexivity|].
  assert (Hall : forall k,
             JsMap.get k (JsMap.delete (toClipId t) (JsMap.delete (fromClipId t) m)) =
             if String.eqb k (fromClipId t) || String.eqb k (toClipId t) then None
             else JsMap.get k m).
  { intros k. now apply get_delete_both. }
  split; [|exact Hall].
  unfold JsMap.has. rewrite Hall.
  destruct (Hke c t E) as [->| ->]; rewrite String.eqb_refl;
    rewrite ?orb_true_r; reflexivity.
Qed.

(** X11.  Removal keeps the graph free of half-stored instances: if, in a
    state the manager reaches, every instance is stored under both of its
    endpoints, the same holds after [removeTransition]. *)
Theorem removeTransition_keeps_both_keys (m : TransitionManager.t) (c : string) :
  reachable m -> noOrphans m ->
  noOrphans (snd (TransitionManager.removeTransition c m)).
Proof.
  intros Hr Ho. destruct (reachable_graphInv m Hr) as (Hwf & Hke & _).
  unfold TransitionManager.removeTransition.
  destruct (JsMap.get c m) as [t|] eqn:E; [|exact Ho].
  cbn [snd]. intros k t' Hk. unfold TransitionManager.getTransition in *.
  rewrite get_delete_both in Hk by assumption.
  destruct (String.eqb_spec k (fromClipId t)) as [Ekf|Ekf]; [discriminate Hk|].
  destruct (String.eqb_spec k (toClipId t)) as [Ekt|Ekt]; [discriminate Hk|].
  cbn [orb] in Hk.
  destruct (Ho c t E) as [Hf Ht]. destruct (Ho k t' Hk) as [Hf' Ht'].
  unfold TransitionManager.getTransition in *.
  assert (Hne : t' <> t).
  { intros ->. destruct (Hke k t Hk); contradiction. }
  rewrite !get_delete_both by assumption.
  assert (Hx : forall e, JsMap.get e m = Some t' ->
               String.eqb e (fromClipId t) || String.eqb e (toClipId t) = false).
  { intros e He.
    destruct (String.eqb_spec e (fromClipId t)) as [->|_];
      [rewrite Hf in He; injection He as He; now elim Hne|].
    destruct (String.eqb_spec e (toClipId t)) as [->|_];
      [rewrite Ht in He; injection He as He; now elim Hne|].
    reflexivity. }
  rewrite (Hx _ Hf'), (Hx _ Ht'). auto.
Qed.

(** X12.  [addTransition] keeps the graph free of half-stored instances when
    the instances it displaces at its two clips are instances of the same
    pair of clips (in particular when both clips are free). *)
Theorem addTransition_keeps_both_keys (uuid : string) (now : Z)
    (from to ty : string) (opts : Options) (m m' : TransitionManager.t)
    (t : TransitionData) :
  reachable m -> noOrphans m ->
  (forall t0, TransitionManager.getTransition from m = Some t0 \/
              TransitionManager.getTransition to m = Some t0 ->
              matchesPair from to t0 = true) ->
  TransitionManager.addTransition uuid now from to ty opts m = Ok (t, m') ->
  noOrphans m'.
Proof.
  intros Hr Ho Hd Hadd. destruct (reachable_graphInv m Hr) as (Hwf & Hke & _).
  unfold TransitionManager.addTransition in Hadd.
  destruct (TRANSITION_TYPES_at (toUpperCase ty)) as [T|]; [|discriminate Hadd].
  injection Hadd as Ht Hm'.
  assert (Hfrom : fromClipId t = from) by (rewrite <- Ht; reflexivity).
  assert (Hto : toClipId t = to) by (rewrite <- Ht; reflexivity).
  assert (Hget : forall k, JsMap.get k m' =
                           if touches k t then Some t else JsMap.get k m).
  { intros k. rewrite <- Hm', Ht, <- Hfrom, <- Hto. apply get_set_both. }
  intros k t' Hk. unfold TransitionManager.getTransition in *.
  rewrite Hget in Hk. rewrite !Hget.
  destruct (touches k t) eqn:Etk.
  - injection Hk as <-. unfold touches. rewrite !String.eqb_refl, ?orb_true_r. auto.
  - destruct (Ho k t' Hk) as [Hf' Ht'].
    unfold TransitionManager.getTransition in *.
    assert (Hx : forall e, JsMap.get e m = Some t' -> touches e t = false).
    { intros e He. destruct (touches e t) eqn:Ee; [|reflexivity]. exfalso.
      assert (Hmp : matchesPair from to t' = true).
      { apply Hd. unfold touches in Ee. apply orb_prop in Ee.
        rewrite Hfrom, Hto in Ee.
        destruct Ee as [Ee|Ee]; apply String.eqb_eq in Ee; subst e; auto. }
      unfold matchesPair in Hmp. unfold touches in Etk.
      rewrite Hfrom, Hto in Etk. apply orb_false_elim in Etk.
      destruct Etk as [E1 E2].
      apply String.eqb_neq in E1, E2.
      apply orb_prop in Hmp.
      destruct (Hke k t' Hk) as [Hkk|Hkk];
        destruct Hmp as [Hmp|Hmp]; apply andb_prop in Hmp;
        destruct Hmp as [A B]; apply String.eqb_eq in A, B; congruence. }
    rewrite (Hx _ Hf'), (Hx _ Ht'). auto.
Qed.

Lemma reachable_graphAB : reachable Examples.graphAB.
Proof.
  eapply (reach_add "uuid-0" 0 "A" "B" "crossfade" noOptions);
    [apply reach_new|reflexivity].
Qed.

Lemma reachable_graphABC : reachable Examples.graphABC.
Proof.
  eapply (reach_add "uuid-1" 1 "B" "C" "blur" noOptions);
    [eapply (reach_add "uuid-0" 0 "A" "B" "crossfade" noOptions);
      [apply reach_new|reflexivity]
    |reflexivity].
Qed.

Lemma noOrphans_graphAB : noOrphans Examples.graphAB.
Proof.
  intros k0 t. unfold TransitionManager.getTransition, Examples.graphAB. simpl.
  destruct (String.eqb k0 "A").
  - intros [= <-]. split; reflexivity.
  - destruct (String.eqb k0 "B"); [|discriminate].
    intros [= <-]. split; reflexivity.
Qed.

Lemma removeTransition_clears_both_endpoints_witness :
  fst (TransitionManager.removeTransition "B" Examples.graphABC) = true /\
  TransitionManager.hasTransition "B"
    (snd (TransitionManager.removeTransition "B" Examples.graphABC)) = false /\
  TransitionManager.getTransition "C"
    (snd (TransitionManager.removeTransition "B" Examples.graphABC)) = None /\
  TransitionManager.getTransition "A"
    (snd (TransitionManager.removeTransition "B" Examples.graphABC)) =
  TransitionManager.getTransition "A" Examples.graphABC.
Proof.
  destruct (removeTransition_clears_both_endpoints Examples.graphABC "B"
              reachable_graphABC) as (H1 & H2 & H3).
  exact (conj H1 (conj H2 (conj (H3 "C") (H3 "A")))).
Defined.

Lemma removeTransition_keeps_both_keys_witness :
  noOrphans (snd (TransitionManager.removeTransition "A" Examples.graphAB)).
Proof.
  exact (removeTransition_keeps_both_keys Examples.graphAB "A"
           reachable_graphAB noOrphans_graphAB).
Defined.

Lemma addTransition_keeps_both_keys_witness : noOrphans Examples.graphBA.
Proof.
  eapply (addTransition_keeps_both_keys "uuid-1" 1%Z "B" "A" "blur" noOptions
            Examples.graphAB Examples.graphBA _
            reachable_graphAB noOrphans_graphAB).
  - intros t0 [H|H]; vm_compute in H; injection H as <-; reflexivity.
  - reflexivity.
Defined.

(** ** The store helpers of the integration (v2) *)

Lemma find_filter_agree {A} (p q : A -> bool) l :
  (forall x, In x l -> p x = true -> q x = true) ->
  find p (filter q l) = find p l.
Proof.
  induction l as [|x r IH]; intros H; cbn; [reflexivity|].
  destruct (q x) eqn:Eq; cbn.
  - destruct (p x); [reflexivity|]. apply IH. intros y Hy. apply H. now right.
  - destruct (p x) eqn:Ep.
    + rewrite (H x (or_introl eq_refl) Ep) in Eq. discriminate Eq.
    + apply IH. intros y Hy. apply H. now right.
Qed.

Lemma find_filter_none {A} (p q : A -> bool) l :
  (forall x, q x = true -> p x = false) -> find p (filter q l) = None.
Proof.
  intros H. induction l as [|x r IH]; cbn; [reflexivity|].
  destruct (q x) eqn:Eq; cbn; [|exact IH]. now rewrite (H x Eq).
Qed.

Lemma find_snoc {A} (p : A -> bool) l x :
  find p (l ++ [x]) =
  match find p l with Some y => Some y | None => if p x then Some x else None end.
Proof.
  induction l as [|y r IH]; cbn; [reflexivity|]. destruct (p y); auto.
Qed.

Lemma matchesPair_swap a b x : matchesPair a b x = matchesPair b a x.
Proof. unfold matchesPair. apply orb_comm. Qed.

Lemma between_matchesPair_cases a b from to x :
  between a b x = true -> matchesPair from to x = true ->
  (a, b) = (from, to) \/ (a, b) = (to, from).
Proof.
  unfold between, matchesPair. intros H1 H2.
  apply andb_prop in H1. destruct H1 as [A B]. apply String.eqb_eq in A, B.
  apply orb_prop in H2.
  destruct H2 as [H2|H2]; apply andb_prop in H2; destruct H2 as [C D];
    apply String.eqb_eq in C, D; [left|right]; congruence.
Qed.

Lemma saveTransitionToStore_result uuid now from to ty d w s p :
  Integration.store w = Some s -> project s = Some p ->
  Integration.saveTransitionToStore uuid now from to ty d w =
  Ok (Some {| id := uuid; fromClipId := from; toClipId := to; type := ty;
              duration := orDefault d d1_0; parameters := None; createdAt := now |},
      {| Integration.store := Some (setTransitions
           (filter (fun t => negb (matchesPair from to t))
                   (storedTransitions (Some s)) ++
            [{| id := uuid; fromClipId := from; toClipId := to; type := ty;
                duration := orDefault d d1_0; parameters := None;
                createdAt := now |}]) s);
         Integration.manager :=
           JsMap.set to {| id := uuid; fromClipId := from; toClipId := to; type := ty;
                           duration := orDefault d d1_0; parameters := None;
                           createdAt := now |}
             (JsMap.set from {| id := uuid; fromClipId := from; toClipId := to;
                                type := ty; duration := orDefault d d1_0;
                                parameters := None; createdAt := now |}
                (Integration.manager w));
         Integration.trace := (Integration.trace w ++ callHooks s true ++
                                 [Console "log" "[Transitions] Saved"])%list |}).
Proof.
  intros Es Ep. unfold Integration.saveTransitionToStore, storedTransitions.
  rewrite Es, Ep. reflexivity.
Qed.

(** X13.  On a store with a project, [saveTransitionToStore(from, to, ...)]
    returns a new transition; afterwards [getTransitionBetween(from, to)]
    answers that transition, the reverse direction answers none, every other
    ordered pair is answered as before, and the manager answers [from] and
    [to] with the new transition and every other clip as before. *)
Theorem saveTransitionToStore_lookups (uuid : string) (now : Z)
    (from to ty : string) (d : option num) (w : Integration.World)
    (s : Store) (p : Project) :
  Integration.store w = Some s -> project s = Some p ->
  exists t w',
    Integration.saveTransitionToStore uuid now from to ty d w = Ok (Some t, w') /\
    id t = uuid /\ edgeOf t = (from, to, ty) /\
    Integration.getTransitionBetween from to w' = Some t /\
    (from <> to -> Integration.getTransitionBetween to from w' = None) /\
    (forall a b, (a, b) <> (from, to) -> (a, b) <> (to, from) ->
       Integration.getTransitionBetween a b w' =
       Integration.getTransitionBetween a b w) /\
    (forall k,
       TransitionManager.getTransition k (Integration.manager w') =
       if String.eqb k from || String.eqb k to then Some t
       else TransitionManager.getTransition k (Integration.manager w)).
Proof.
  intros Es Ep. eexists. eexists.
  split; [apply (saveTransitionToStore_result _ _ _ _ _ _ _ _ _ Es Ep)|].
  split; [reflexivity|]. split; [reflexivity|].
  unfold Integration.getTransitionBetween, Integration.getStoredTransitions.
  cbn [Integration.store Integration.manager].
  rewrite (stored_setTransitions _ _ _ Ep), Es.
  fold (between from to). fold (between to from).
  split; [|split; [|split]].
  - rewrite find_snoc, find_filter_none.
    + unfold between. cbn. now rewrite !String.eqb_refl.
    + intros x Hx. apply negb_true_iff in Hx.
      destruct (between from to x) eqn:E; [|reflexivity].
      apply between_matchesPair in E. congruence.
  - intros Hne. rewrite find_snoc, find_filter_none.
    + unfold between. cbn. apply String.eqb_neq in Hne. now rewrite Hne.
    + intros x Hx. apply negb_true_iff in Hx.
      destruct (between to from x) eqn:E; [|reflexivity].
      apply between_matchesPair in E. rewrite matchesPair_swap in E. congruence.
  - intros a b H1 H2. fold (between a b). rewrite find_snoc, find_filter_agree.
    + destruct (find (between a b) (storedTransitions (Some s))); [reflexivity|].
      destruct (between a b _) eqn:E; [|reflexivity].
      unfold between in E. cbn in E. apply andb_prop in E. destruct E as [A B].
      apply String.eqb_eq in A, B. subst. now elim H1.
    + intros x _ Hx. apply negb_true_iff.
      destruct (matchesPair from to x) eqn:E; [|reflexivity].
      destruct (between_matchesPair_cases _ _ _ _ _ Hx E); contradiction.
  - intros k. unfold TransitionManager.getTransition. rewrite !get_set.
    destruct (String.eqb k to); [now rewrite orb_true_r|].
    rewrite orb_false_r. reflexivity.
Qed.

(** X14.  On a store that has a list of transitions,
    [removeTransitionFromStore(from, to)] leaves no stored transition between
    the two clips in either direction and none in the manager for the two
    clips; every other ordered pair and every other clip is answered as
    before. *)
Theorem removeTransitionFromStore_lookups (from to : string)
    (w : Integration.World) (s : Store) (p : Project) (old : list TransitionData) :
  Integration.store w = Some s -> project s = Some p -> transitions p = Some old ->
  wf (Integration.manager w) ->
  Integration.getTransitionBetween from to
    (Integration.removeTransitionFromStore from to w) = None /\
  Integration.getTransitionBetween to from
    (Integration.removeTransitionFromStore from to w) = None /\
  (forall a b, (a, b) <> (from, to) -> (a, b) <> (to, from) ->
     Integration.getTransitionBetween a b
       (Integration.removeTransitionFromStore from to w) =
     Integration.getTransitionBetween a b w) /\
  (forall k,
     TransitionManager.getTransition k
       (Integration.manager (Integration.removeTransitionFromStore from to w)) =
     if String.eqb k from || String.eqb k to then None
     else TransitionManager.getTransition k (Integration.manager w)).
Proof.
  intros Es Ep Et Hwf. unfold Integration.removeTransitionFromStore.
  rewrite Es, Ep, Et.
  unfold Integration.getTransitionBetween, Integration.getStoredTransitions.
  cbn [Integration.store Integration.manager].
  rewrite (stored_setTransitions _ _ _ Ep), Es.
  assert (Hold : storedTransitions (Some s) = old).
  { unfold storedTransitions. now rewrite Ep, Et. }
  rewrite Hold.
  fold (between from to). fold (between to from).
  split; [|split; [|split]].
  - apply find_filter_none. intros x Hx. apply negb_true_iff in Hx.
    destruct (between from to x) eqn:E; [|reflexivity].
    apply between_matchesPair in E. congruence.
  - apply find_filter_none. intros x Hx. apply negb_true_iff in Hx.
    destruct (between to from x) eqn:E; [|reflexivity].
    apply between_matchesPair in E. rewrite matchesPair_swap in E. congruence.
  - intros a b H1 H2. fold (between a b). apply find_filter_agree.
    intros x _ Hx. apply negb_true_iff.
    destruct (matchesPair from to x) eqn:E; [|reflexivity].
    destruct (between_matchesPair_cases _ _ _ _ _ Hx E); contradiction.
  - intros k. unfold TransitionManager.getTransition. now apply get_delete_both.
Qed.

Lemma syncFromStore_result w s p l :
  Integration.store w = Some s -> project s = Some p -> transitions p = Some l ->
  Integration.syncFromStore w =
  {| Integration.store := Integration.store w;
     Integration.manager :=
       fold_left (fun acc x => JsMap.set (toClipId x) x (JsMap.set (fromClipId x) x acc))
                 l (Integration.manager w);
     Integration.trace :=
       (Integration.trace w ++ [Console "log" "[Transitions] Synced"; RefreshAllBtns])%list |}.
Proof.
  intros Es Ep Et. unfold Integration.syncFromStore. rewrite Es.
  destruct s as [pr sn ps]. cbn in Ep. subst pr.
  destruct p as [tk tr]. cbn in Et. subst tr. reflexivity.
Qed.

Lemma syncFromStore_get w s p l k :
  Integration.store w = Some s -> project s = Some p -> transitions p = Some l ->
  TransitionManager.getTransition k
    (Integration.manager (Integration.syncFromStore w)) =
  match find (touches k) (rev l) with
  | Some x => Some x
  | None => TransitionManager.getTransition k (Integration.manager w)
  end.
Proof.
  intros Es Ep Et. rewrite (syncFromStore_result w s p l Es Ep Et).
  cbn [Integration.manager]. unfold TransitionManager.getTransition.
  apply get_import.
Qed.

(** X15.  On a store that has a list of transitions, [syncFromStore] makes
    the manager answer a clip with the last stored transition that touches
    it, and as before when none does; the store is not changed, and a second
    sync changes no answer. *)
Theorem syncFromStore_lookups (w : Integration.World) (s : Store) (p : Project)
    (l : list TransitionData) :
  Integration.store w = Some s -> project s = Some p -> transitions p = Some l ->
  Integration.store (Integration.syncFromStore w) = Integration.store w /\
  (forall k,
     TransitionManager.getTransition k
       (Integration.manager (Integration.syncFromStore w)) =
     match find (touches k) (rev l) with
     | Some x => Some x
     | None => TransitionManager.getTransition k (Integration.manager w)
     end) /\
  (forall k,
     TransitionManager.getTransition k
       (Integration.manager (Integration.syncFromStore (Integration.syncFromStore w))) =
     TransitionManager.getTransition k
       (Integration.manager (Integration.syncFromStore w))).
Proof.
  intros Es Ep Et.
  pose proof (syncFromStore_result w s p l Es Ep Et) as H1.
  assert (Es' : Integration.store (Integration.syncFromStore w) = Some s).
  { rewrite H1. exact Es. }
  pose proof (syncFromStore_result _ s p l Es' Ep Et) as H2.
  split; [now rewrite Es'|].
  assert (Hk : forall k,
             TransitionManager.getTransition k
               (Integration.manager (Integration.syncFromStore w)) =
             match find (touches k) (rev l) with
             | Some x => Some x
             | None => TransitionManager.getTransition k (Integration.manager w)
             end).
  { intros k. rewrite H1. cbn [Integration.manager].
    unfold TransitionManager.getTransition. apply get_import. }
  split; [exact Hk|].
  intros k. rewrite H2. cbn [Integration.manager].
  unfold TransitionManager.getTransition. rewrite get_import.
  fold (TransitionManager.getTransition k
          (Integration.manager (Integration.syncFromStore w))).
  rewrite Hk. destruct (find (touches k) (rev l)); reflexivity.
Qed.

Lemma matchesPair_touches from to k x :
  matchesPair from to x = true -> touches k x = true -> k = from \/ k = to.
Proof.
  unfold matchesPair, touches. intros H1 H2.
  apply orb_prop in H1. apply orb_prop in H2.
  destruct H1 as [H1|H1]; apply andb_prop in H1; destruct H1 as [A B];
    apply String.eqb_eq in A, B;
    destruct H2 as [H2|H2]; apply String.eqb_eq in H2; subst; auto.
Qed.

(** X16.  While transitions are only saved, the manager stays in step with
    the store: if the manager answers every clip with the last stored
    transition that touches it, it still does after [saveTransitionToStore],
    and a following [syncFromStore] changes no answer of the manager. *)
Theorem saveTransitionToStore_keeps_in_sync (uuid : string) (now : Z)
    (from to ty : string) (d : option num) (w w' : Integration.World)
    (t : TransitionData) :
  inSync w ->
  Integration.saveTransitionToStore uuid now from to ty d w = Ok (Some t, w') ->
  inSync w' /\
  forall k,
    TransitionManager.getTransition k
      (Integration.manager (Integration.syncFromStore w')) =
    TransitionManager.getTransition k (Integration.manager w').
Proof.
  intros Hs Hsave.
  destruct (Integration.store w) as [s|] eqn:Es.
  2:{ unfold Integration.saveTransitionToStore in Hsave. rewrite Es in Hsave.
      discriminate Hsave. }
  destruct (project s) as [p|] eqn:Ep.
  2:{ unfold Integration.saveTransitionToStore in Hsave. rewrite Es, Ep in Hsave.
      discriminate Hsave. }
  rewrite (saveTransitionToStore_result _ _ _ _ _ _ _ _ _ Es Ep) in Hsave.
  injection Hsave as Ht Hw'.
  assert (Hfrom : fromClipId t = from) by (rewrite <- Ht; reflexivity).
  assert (Hto : toClipId t = to) by (rewrite <- Ht; reflexivity).
  rewrite Ht in Hw'.
  assert (Hsync : inSync w').
  { intros k. rewrite <- Hw'.
    unfold Integration.getStoredTransitions, TransitionManager.getTransition.
    cbn [Integration.store Integration.manager].
    rewrite (stored_setTransitions _ _ _ Ep), rev_app_distr. cbn [rev app find].
    replace (JsMap.set to t (JsMap.set from t (Integration.manager w)))
      with (JsMap.set (toClipId t) t
              (JsMap.set (fromClipId t) t (Integration.manager w)))
      by (rewrite Hfrom, Hto; reflexivity).
    rewrite get_set_both.
    destruct (touches k t) eqn:Ek; [reflexivity|].
    specialize (Hs k). unfold TransitionManager.getTransition,
      Integration.getStoredTransitions in Hs. rewrite Es in Hs.
    rewrite Hs, <- filter_rev. symmetry. apply find_filter_agree.
    intros x _ Hx. apply negb_true_iff.
    destruct (matchesPair from to x) eqn:E; [|reflexivity].
    exfalso. unfold touches in Ek. rewrite Hfrom, Hto in Ek.
    apply orb_false_elim in Ek. destruct Ek as [E1 E2].
    apply String.eqb_neq in E1, E2.
    destruct (matchesPair_touches _ _ _ _ E Hx); congruence. }
  split; [exact Hsync|].
  intros k.
  assert (Es' : Integration.store w' =
                Some (setTransitions
                        (filter (fun x => negb (matchesPair from to x))
                                (storedTransitions (Some s)) ++ [t]) s)).
  { rewrite <- Hw'. reflexivity. }
  rewrite (syncFromStore_get w' _ _ _ k Es'
             (project_setTransitions _ _ _ Ep) eq_refl).
  rewrite (Hsync k).
  unfold Integration.getStoredTransitions. rewrite Es'.
  rewrite (stored_setTransitions _ _ _ Ep).
  destruct (find (touches k) _); reflexivity.
Qed.

Lemma saveTransitionToStore_lookups_witness :
  exists t w',
    Integration.saveTransitionToStore "uuid-0" 0 "A" "B" "crossfade" None
      Examples.world0 = Ok (Some t, w') /\
    Integration.getTransitionBetween "A" "B" w' = Some t /\
    Integration.getTransitionBetween "B" "A" w' = None.
Proof.
  destruct (saveTransitionToStore_lookups "uuid-0" 0%Z "A" "B" "crossfade" None
              Examples.world0 Examples.store4 _ eq_refl eq_refl)
    as (t & w' & H1 & _ & _ & H2 & H3 & _).
  exists t, w'. split; [exact H1|]. split; [exact H2|].
  apply H3. discriminate.
Defined.

Lemma wf_worldAB : wf (Integration.manager Examples.worldAB).
Proof.
  unfold wf. cbn. constructor.
  - intros [H|[]]. discriminate H.
  - constructor; [intros []|constructor].
Qed.

Lemma removeTransitionFromStore_lookups_witness :
  Integration.getTransitionBetween "A" "B"
    (Integration.removeTransitionFromStore "A" "B" Examples.worldAB) = None /\
  TransitionManager.getTransition "A"
    (Integration.manager
       (Integration.removeTransitionFromStore "A" "B" Examples.worldAB)) = None.
Proof.
  destruct (removeTransitionFromStore_lookups "A" "B" Examples.worldAB
              _ _ _ eq_refl eq_refl eq_refl wf_worldAB) as (H1 & _ & _ & H2).
  exact (conj H1 (H2 "A")).
Defined.

Lemma syncFromStore_lookups_witness :
  Integration.store (Integration.syncFromStore Examples.worldAB) =
  Integration.store Examples.worldAB /\
  TransitionManager.getTransition "B"
    (Integration.manager
       (Integration.syncFromStore (Integration.syncFromStore Examples.worldAB))) =
  TransitionManager.getTransition "B"
    (Integration.manager (Integration.syncFromStore Examples.worldAB)).
Proof.
  destruct (syncFromStore_lookups Examples.worldAB _ _ _ eq_refl eq_refl eq_refl)
    as (H1 & _ & H2).
  exact (conj H1 (H2 "B")).
Defined.

Lemma saveTransitionToStore_keeps_in_sync_witness :
  inSync Examples.worldAB /\
  TransitionManager.getTransition "A"
    (Integration.manager (Integration.syncFromStore Examples.worldAB)) =
  TransitionManager.getTransition "A" (Integration.manager Examples.worldAB).
Proof.
  assert (H0 : inSync Examples.world0) by (intros k; reflexivity).
  destruct (saveTransitionToStore_keeps_in_sync "uuid-0" 0%Z "A" "B" "crossfade"
              None Examples.world0 Examples.worldAB _ H0 eq_refl) as [H1 H2].
  exact (conj H1 (H2 "A")).
Defined.

(** ** The handlers of the transitions panel (v1) *)

Section PanelHandlers.
Import IntegrationV1.
Variable findClipInDOM : string -> option Clip.

Lemma apartFrom_touches c t : apartFrom c t = negb (touches c t).
Proof. unfold apartFrom, touches. now rewrite negb_orb. Qed.

Lemma findClipInProject_store cid w clip nextClip :
  findClipInProject findClipInDOM cid w = Some (clip, Some nextClip) ->
  exists s p ts,
    store w = Some s /\ project s = Some p /\ tracks p = Some ts /\
    TransitionsStoreMonitor.findInTracks cid ts = Some (clip, Some nextClip).
Proof.
  unfold findClipInProject.
  destruct (store w) as [[[[[ts|] tr]|] sn ps]|] eqn:Es;
    try (destruct (findClipInDOM cid); cbn; intros H; discriminate H).
  intros H. eexists. eexists. exists ts.
  split; [reflexivity|]. split; [reflexivity|]. split; [reflexivity|exact H].
Qed.

Lemma handleTransitionSelect_result uuid now cid ty options w clip nextClip T s p :
  findClipInProject findClipInDOM cid w = Some (clip, Some nextClip) ->
  TRANSITION_TYPES_at (toUpperCase ty) = Some T ->
  store w = Some s -> project s = Some p ->
  let t := {| id := uuid; fromClipId := cid; toClipId := clip_id nextClip;
              type := ty;
              duration :=
                orDefault
                  (Some (TransitionManager.validateTransitionDuration
                           (clip_duration clip) (clip_duration nextClip)
                           (orDefault (o_duration options) d1_0)))
                  (defaultDuration T);
              parameters :=
                Some {| o_duration :=
                          Some (TransitionManager.validateTransitionDuration
                                  (clip_duration clip) (clip_duration nextClip)
                                  (orDefault (o_duration options) d1_0));
                        o_extra := o_extra options |};
              createdAt := now |} in
  handleTransitionSelect findClipInDOM uuid now cid ty options w =
  Ok {| store := Some (setTransitions
                         (filter (apartFrom cid) (storedTransitions (Some s)) ++ [t]) s);
        manager := JsMap.set (clip_id nextClip) t (JsMap.set cid t (manager w));
        trace := ((((trace w ++ [Host (Console "log" "[Transitions] Adding transition")])
                    ++ map Host (callHooks s false)
                    ++ [Host (Console "log" "[Transitions] Saved to project")])
                   ++ [Indicator cid true])
                  ++ [Host (Notification
                              (TransitionsStoreMonitor.displayName ty ++
                               " transition added!") "success")])%list |}.
Proof.
  intros Hf HT Es Ep. cbv zeta.
  unfold handleTransitionSelect. cbv zeta.
  assert (Hf0 : findClipInProject findClipInDOM cid
                  (say (Console "log" "[Transitions] Adding transition") w) =
                Some (clip, Some nextClip)) by exact Hf.
  rewrite Hf0. unfold TransitionManager.addTransition. rewrite HT.
  unfold saveTransitionToProject. cbn [store say manager trace].
  rewrite Es, Ep. unfold storedTransitions. rewrite Ep. reflexivity.
Qed.

Lemma handleTransitionRemove_manager cid w :
  manager (handleTransitionRemove cid w) = manager w.
Proof.
  unfold handleTransitionRemove, removeTransitionFromProject.
  cbn [say indicate store manager].
  destruct (store w) as [s|]; [|reflexivity].
  destruct (project s) as [[tk [old|]]|]; reflexivity.
Qed.

Lemma removeTransitionFromProject_stored cid w :
  storedTransitions (store (removeTransitionFromProject cid w)) =
  filter (apartFrom cid) (storedTransitions (store w)).
Proof.
  unfold removeTransitionFromProject, storedTransitions.
  destruct (store w) as [s|] eqn:Es; [|now rewrite Es].
  destruct (project s) as [[tk [old|]]|] eqn:Ep; cbn [store].
  - unfold setTransitions. rewrite Ep. reflexivity.
  - rewrite Es, Ep. reflexivity.
  - rewrite Es, Ep. reflexivity.
Qed.


(** X18.  After [handleTransitionRemove(clipId)] no stored transition touches
    the clip, the stored transitions that do not touch it are kept in their
    order, and the manager is as before (the handler does not write it);
    this holds as well when there is no store, no project or no list. *)
Theorem handleTransitionRemove_outcome (cid : string) (w : World) :
  storedTransitions (store (handleTransitionRemove cid w)) =
    filter (apartFrom cid) (storedTransitions (store w)) /\
  Forall (fun t => touches cid t = false)
         (storedTransitions (store (handleTransitionRemove cid w))) /\
  manager (handleTransitionRemove cid w) = manager w.
Proof.
  assert (H : storedTransitions (store (handleTransitionRemove cid w)) =
              filter (apartFrom cid) (storedTransitions (store w))).
  { unfold handleTransitionRemove. cbn [say indicate store].
    rewrite removeTransitionFromProject_stored. reflexivity. }
  split; [exact H|]. split.
  - rewrite H. apply Forall_forall. intros x Hx. apply filter_In in Hx.
    destruct Hx as [_ Hx]. rewrite apartFrom_touches in Hx.
    now apply negb_true_iff in Hx.
  - apply handleTransitionRemove_manager.
Qed.

(** X19.  Removing right after selecting: for a clip with a successor and a
    type that resolves, [handleTransitionSelect] followed by
    [handleTransitionRemove] on the same clip leaves in the store exactly the
    transitions that did not touch the clip before the selection, while the
    manager still answers the clip with the transition just removed from the
    store. *)
Theorem select_then_remove (uuid : string) (now : Z) (cid ty : string)
    (options : Options) (w w' : World) (clip nextClip : Clip) :
  findClipInProject findClipInDOM cid w = Some (clip, Some nextClip) ->
  handleTransitionSelect findClipInDOM uuid now cid ty options w = Ok w' ->
  storedTransitions (store (handleTransitionRemove cid w')) =
    filter (apartFrom cid) (storedTransitions (store w)) /\
  exists t,
    TransitionManager.getTransition cid (manager (handleTransitionRemove cid w'))
      = Some t /\
    fromClipId t = cid /\ id t = uuid.
Proof.
  intros Hf Hsel.
  destruct (findClipInProject_store _ _ _ _ Hf) as (s & p & ts & Es & Ep & Et & _).
  destruct (TRANSITION_TYPES_at (toUpperCase ty)) as [T|] eqn:HT.
  2:{ unfold handleTransitionSelect in Hsel. cbv zeta in Hsel.
      assert (Hf0 : findClipInProject findClipInDOM cid
                      (say (Console "log" "[Transitions] Adding transition") w) =
                    Some (clip, Some nextClip)) by exact Hf.
      rewrite Hf0 in Hsel. unfold TransitionManager.addTransition in Hsel.
      rewrite HT in Hsel. discriminate Hsel. }
  pose proof (handleTransitionSelect_result uuid now cid ty options w clip
                nextClip T s p Hf HT Es Ep) as R.
  cbv zeta in R.
  match type of R with
  | _ = Ok {| store := _; manager := JsMap.set _ ?t0 _; trace := _ |} =>
      set (t := t0) in *
  end.
  rewrite R in Hsel. injection Hsel as Hw.
  assert (Hst : storedTransitions (store w') =
                (filter (apartFrom cid) (storedTransitions (store w)) ++ [t])%list).
  { rewrite <- Hw. cbn [store]. rewrite (stored_setTransitions _ _ _ Ep), Es.
    reflexivity. }
  assert (Hm : manager w' =
               JsMap.set (clip_id nextClip) t (JsMap.set cid t (manager w))).
  { rewrite <- Hw. reflexivity. }
  clear Hw R.
  rewrite handleTransitionRemove_manager.
  split.
  - unfold handleTransitionRemove. cbn [say indicate store].
    rewrite removeTransitionFromProject_stored. cbn [say store].
    rewrite Hst, filter_app, filter_filter. cbn [filter].
    assert (Ha : apartFrom cid t = false).
    { unfold apartFrom. subst t. cbn [fromClipId]. rewrite String.eqb_refl.
      reflexivity. }
    rewrite Ha, app_nil_r. apply filter_ext. intros x. now rewrite andb_diag.
  - exists t. rewrite Hm. unfold TransitionManager.getTransition. split.
    + rewrite get_set. destruct (String.eqb cid (clip_id nextClip)); [reflexivity|].
      apply get_set_same.
    + split; reflexivity.
Qed.

End PanelHandlers.


Lemma select_then_remove_witness :
  storedTransitions
    (IntegrationV1.store (IntegrationV1.handleTransitionRemove "B" Examples.panelB)) =
  filter (IntegrationV1.apartFrom "B")
         (storedTransitions (IntegrationV1.store Examples.panel0)) /\
  exists t,
    TransitionManager.getTransition "B"
      (IntegrationV1.manager
         (IntegrationV1.handleTransitionRemove "B" Examples.panelB)) = Some t /\
    fromClipId t = "B" /\ id t = "uuid-0".
Proof.
  exact (select_then_remove Examples.noDom "uuid-0" 0%Z "B" "crossfade"
           (Examples.want Num.one) Examples.panel0 Examples.panelB
           (Examples.clip "B" 1) (Examples.clip "C" 6) eq_refl eq_refl).
Defined.

(** ** The drawing state after a preview frame *)

Lemma step_ctx qx qy c px cmd c' px' :
  step qx qy (c, px) cmd = Ok (c', px') -> c' = ctxStep c cmd.
Proof.
  unfold ctxStep.
  destruct cmd; cbn [step];
    repeat match goal with
    | |- context [match ?s with LinearGradient _ _ _ _ _ => _ | Rgba _ _ _ _ => _ end] =>
        destruct s
    | |- context [match saved c with [] => _ | _ :: _ => _ end] =>
        destruct (saved c) as [|[[[? ?] ?] ?] ?]
    | |- context [if ?b then _ else _] => destruct b
    end;
    intros H; try discriminate H; injection H as <- _; reflexivity.
Qed.

Lemma run_ctx qx qy cmds :
  forall c px c' px',
    run qx qy cmds (c, px) = Ok (c', px') -> c' = fold_left ctxStep cmds c.
Proof.
  induction cmds as [|cmd rest IH]; intros c px c' px'; cbn [run fold_left].
  - intros [= <- _]. reflexivity.
  - destruct (step qx qy (c, px) cmd) as [[c1 px1]|e] eqn:E; [|discriminate].
    apply step_ctx in E. subst c1. apply IH.
Qed.

Lemma isOne_true a : isOne a = true -> a = Num.one.
Proof.
  destruct a as [sg|sg| |sg m e]; try discriminate. destruct sg; [discriminate|].
  cbn [isOne]. intros H. apply andb_prop in H. destruct H as [Hm He].
  apply Pos.eqb_eq in Hm. apply Z.eqb_eq in He. subst. reflexivity.
Qed.

Lemma knownStep_sound c0 k c cmd k' :
  holds c0 k c -> knownStep k cmd = Some k' -> holds c0 k' (ctxStep c cmd).
Proof.
  intros (Ha & Hop & Hm & entries & Hs & Hf) Hk.
  unfold ctxStep.
  destruct cmd; cbn [knownStep] in Hk; cbn [step].
  - (* clearRect *) injection Hk as <-.
    repeat split; auto. exists entries. auto.
  - (* fillStyle *) injection Hk as <-.
    destruct s as [?????|r g b a]; [|destruct (Num.is_finite a)];
      (split; [exact Ha|split; [exact Hop|split; [exact Hm|exists entries; auto]]]).
  - (* globalAlpha *) injection Hk as <-.
    destruct (inUnit a) eqn:Eu; cbn [alphaIsOne knownOp transformKept pushed].
    + split; [intros H1; now apply isOne_true|].
      split; [exact Hop|split; [exact Hm|exists entries; auto]].
    + split; [intros H1; apply isOne_true in H1; subst a; discriminate Eu|].
      split; [exact Hop|split; [exact Hm|exists entries; auto]].
  - (* globalCompositeOperation *) injection Hk as <-.
    split; [exact Ha|split; [reflexivity|split; [exact Hm|exists entries; auto]]].
  - (* fillRect *) injection Hk as <-.
    destruct (allFinite [x; y; w; h]);
      (split; [exact Ha|split; [exact Hop|split; [exact Hm|exists entries; auto]]]).
  - (* save *) injection Hk as <-.
    split; [exact Ha|split; [exact Hop|split; [exact Hm|]]].
    exists ((fillStyle c, globalAlpha c, matrixOf c, compositeOp c) :: entries).
    cbn [withDrawState matrixOf saved pushed app]. split; [now rewrite Hs|].
    constructor; [|exact Hf]. cbn. auto.
  - (* restore *)
    destruct (pushed k) as [|[[a op] t] rest] eqn:Ep; [discriminate Hk|].
    injection Hk as <-.
    inversion Hf as [|a0 e0 l0 entries' He Hf' E1 E2]. subst.
    rewrite Hs. cbn [app]. destruct e0 as [[[f ga] m] op'].
    destruct He as (H1 & H2 & H3). destruct m as [[[ma mb] mc] md].
    cbn [withDrawState alphaIsOne knownOp transformKept pushed].
    split; [exact H1|split; [exact H2|split; [exact H3|exists entries'; auto]]].
  - (* translate *) injection Hk as <-.
    destruct (allFinite [x; y]);
      (split; [exact Ha|split; [exact Hop|split; [discriminate|exists entries; auto]]]).
  - (* scale *) injection Hk as <-.
    destruct (allFinite [x; y]);
      (split; [exact Ha|split; [exact Hop|split; [discriminate|exists entries; auto]]]).
  - (* beginPath *) injection Hk as <-.
    split; [exact Ha|split; [exact Hop|split; [exact Hm|exists entries; auto]]].
  - (* arc *) injection Hk as <-.
    destruct (negb (allFinite [x; y; radius; startAngle; endAngle]));
      [|destruct (Num.ltb radius Num.zero);
        [|destruct (Num.leb (Num.mul Math_PI Num.two) (Num.sub endAngle startAngle))]];
      (split; [exact Ha|split; [exact Hop|split; [exact Hm|exists entries; auto]]]).
  - (* fill *) injection Hk as <-.
    split; [exact Ha|split; [exact Hop|split; [exact Hm|exists entries; auto]]].
Qed.

Lemma knownRun_sound c0 cmds :
  forall k c k',
    holds c0 k c -> knownRun k cmds = Some k' ->
    holds c0 k' (fold_left ctxStep cmds c).
Proof.
  induction cmds as [|cmd rest IH]; intros k c k' Hh Hk; cbn [knownRun fold_left] in *.
  - injection Hk as <-. exact Hh.
  - destruct (knownStep k cmd) as [k1|] eqn:E; [|discriminate Hk].
    apply (IH k1); [|exact Hk]. now apply (knownStep_sound c0 k c cmd).
Qed.

Lemma preview_known ty progress w h :
  knownRun settled (renderTransitionPreview ty progress w h) = Some settled.
Proof.
  unfold renderTransitionPreview, applyTransitionEffect, crossfadeCmds,
    fadeThroughCmds.
  repeat match goal with
  | |- context [String.eqb ty ?c] => destruct (String.eqb ty c)
  | |- context [Num.ltb ?a ?b] => destruct (Num.ltb a b)
  end; reflexivity.
Qed.

(** X20.  A preview frame leaves the drawing state of the context settled:
    started on a context with [globalAlpha] 1 and [source-over] compositing,
    [renderTransitionPreview] ends, for every type string, progress, canvas
    size and sample point, with [globalAlpha] 1, [source-over], the
    transform it found and the [save()] stack it found. *)
Theorem preview_leaves_context_settled (ty : string) (progress : num) (w h : N)
    (qx qy : num) (c0 : Ctx) (px0 : Pixel) :
  isBinary64 progress = true ->
  globalAlpha c0 = Num.one ->
  compositeOp c0 = SourceOver ->
  exists c1 px1,
    run qx qy (renderTransitionPreview ty progress w h) (c0, px0) = Ok (c1, px1) /\
    globalAlpha c1 = Num.one /\ compositeOp c1 = SourceOver /\
    matrixOf c1 = matrixOf c0 /\ saved c1 = saved c0.
Proof.
  intros Hv Ha Hop.
  destruct (run_accepted qx qy _ (preview_accepted ty progress w h Hv) (c0, px0))
    as [[c1 px1] H].
  exists c1, px1. split; [exact H|].
  apply run_ctx in H. subst c1.
  assert (H0 : holds c0 settled c0).
  { split; [intros _; exact Ha|]. split; [exact Hop|]. split; [reflexivity|].
    exists []. split; [reflexivity|constructor]. }
  destruct (knownRun_sound c0 _ settled c0 settled H0
              (preview_known ty progress w h))
    as (H1 & H2 & H3 & entries & H4 & H5).
  inversion H5; subst. auto.
Qed.

Lemma preview_leaves_context_settled_witness :
  exists c1 px1,
    run d0_5 d0_5 (renderTransitionPreview "zoomIn" d0_5 8 6) (initialCtx, []) =
      Ok (c1, px1) /\
    globalAlpha c1 = Num.one /\ compositeOp c1 = SourceOver /\
    matrixOf c1 = matrixOf initialCtx /\ saved c1 = saved initialCtx.
Proof.
  exact (preview_leaves_context_settled "zoomIn" d0_5 8%N 6%N d0_5 d0_5
           initialCtx [] eq_refl eq_refl eq_refl).
Defined.

(** ** Audio control: the volume of a clip *)

Section AudioFacts.
Import AudioControl.

Lemma findInClips_id cid cs c : findInClips cid cs = Some c -> ac_id c = cid.
Proof.
  induction cs as [|x r IH]; cbn [findInClips]; [discriminate|].
  destruct (String.eqb_spec (ac_id x) cid) as [E|E]; [|exact IH].
  now intros [= <-].
Qed.

Lemma findInTracks_id cid ts c : findInTracks cid ts = Some c -> ac_id c = cid.
Proof.
  induction ts as [|[cs|] r IH]; cbn [findInTracks]; [discriminate| |exact IH].
  destruct (findInClips cid cs) as [c'|] eqn:E; [|exact IH].
  intros [= <-]. now apply (findInClips_id cid cs).
Qed.

Variable f : AudioClip -> AudioClip.
Hypothesis f_id : forall c, ac_id (f c) = ac_id c.

Lemma findInClips_write k cid cs :
  findInClips k (writeInClips cid f cs) =
  if String.eqb k cid then option_map f (findInClips cid cs) else findInClips k cs.
Proof.
  induction cs as [|x r IH]; cbn [findInClips writeInClips].
  - now destruct (String.eqb k cid).
  - destruct (String.eqb_spec (ac_id x) cid) as [E|E]; cbn [findInClips].
    + rewrite f_id, E.
      destruct (String.eqb_spec k cid) as [->|Hk].
      * now rewrite String.eqb_refl.
      * rewrite String.eqb_sym. apply String.eqb_neq in Hk. now rewrite Hk.
    + rewrite IH.
      destruct (String.eqb_spec k cid) as [->|Hk].
      * apply String.eqb_neq in E. now rewrite E.
      * reflexivity.
Qed.

Lemma findInTracks_write k cid ts :
  findInTracks k (writeInTracks cid f ts) =
  if String.eqb k cid then option_map f (findInTracks cid ts) else findInTracks k ts.
Proof.
  induction ts as [|[cs|] r IH]; cbn [findInTracks writeInTracks].
  - now destruct (String.eqb k cid).
  - destruct (findInClips cid cs) as [c|] eqn:E; cbn [findInTracks].
    + rewrite findInClips_write, E.
      destruct (String.eqb k cid); [reflexivity|].
      reflexivity.
    + rewrite IH.
      destruct (String.eqb_spec k cid) as [->|Hk]; [now rewrite E|].
      reflexivity.
  - exact IH.
Qed.

End AudioFacts.

Lemma setVolume_id v c :
  AudioControl.ac_id (AudioControl.setVolume v c) = AudioControl.ac_id c.
Proof. reflexivity. Qed.

Lemma lowered_id c : AudioControl.ac_id (AudioControl.lowered c) = AudioControl.ac_id c.
Proof. reflexivity. Qed.

(** X21.  [updateAudioVolume(clipId, volume)] changes nothing when the clip
    is not in the store.  Otherwise it writes the one clip that
    [findClipInProject] returns: that clip gets the volume clamped to the
    range from 0 to 1 as its [audioVolume] (NaN for NaN) and keeps its other
    fields, every other clip id is answered with the clip it had, and the
    hooks the store has are called, [pushSnapshot] first. *)
Theorem updateAudioVolume_writes_one_clip (cid : string) (volume : num)
    (w : AudioControl.World) :
  match AudioControl.findClipInProject cid w with
  | None => AudioControl.updateAudioVolume cid volume w = w
  | Some c =>
      AudioControl.findClipInProject cid
        (AudioControl.updateAudioVolume cid volume w) =
        Some (AudioControl.setVolume volume c) /\
      (forall k, k <> cid ->
         AudioControl.findClipInProject k
           (AudioControl.updateAudioVolume cid volume w) =
         AudioControl.findClipInProject k w) /\
      (Num.is_nan volume = false ->
       exists av,
         AudioControl.ac_audioVolume (AudioControl.setVolume volume c) = Some av /\
         Num.leb Num.zero av = true /\ Num.leb av Num.one = true) /\
      exists s,
        AudioControl.store w = Some s /\
        AudioControl.trace (AudioControl.updateAudioVolume cid volume w) =
        (AudioControl.trace w ++ AudioControl.hooks s)%list
  end.
Proof.
  unfold AudioControl.findClipInProject, AudioControl.updateAudioVolume.
  destruct (AudioControl.store w) as [[[ts|] sn ps]|] eqn:Es;
    cbn [AudioControl.a_tracks]; try reflexivity.
  destruct (AudioControl.findInTracks cid ts) as [c|] eqn:Ef; [|reflexivity].
  cbn [AudioControl.store AudioControl.trace AudioControl.a_tracks].
  split; [|split; [|split]].
  - rewrite (findInTracks_write _ (setVolume_id volume)), String.eqb_refl, Ef.
    reflexivity.
  - intros k Hk. rewrite (findInTracks_write _ (setVolume_id volume)).
    apply String.eqb_neq in Hk. now rewrite Hk.
  - intros Hn. eexists. split; [reflexivity|].
    destruct (clampProgress_range volume) as [[H _]|(_ & H1 & H2)]; [congruence|auto].
  - eexists. split; reflexivity.
Qed.

Section AudioLower.
Import AudioControl.
Variable percent : num -> string.

Lemma lowerAudioVolume_find cid w c :
  findClipInProject cid w = Some c ->
  findClipInProject cid (lowerAudioVolume percent cid w) = Some (lowered c) /\
  forall k, k <> cid ->
    findClipInProject k (lowerAudioVolume percent cid w) = findClipInProject k w.
Proof.
  unfold findClipInProject, lowerAudioVolume.
  destruct (store w) as [[[ts|] sn ps]|] eqn:Es; cbn [a_tracks]; try discriminate.
  intros Ef. rewrite Ef. cbn [store a_tracks]. split.
  - now rewrite (findInTracks_write _ lowered_id), String.eqb_refl, Ef.
  - intros k Hk. rewrite (findInTracks_write _ lowered_id).
    apply String.eqb_neq in Hk. now rewrite Hk.
Qed.

Lemma lowered_original c :
  ac_originalVolume (lowered (lowered c)) = ac_originalVolume (lowered c) /\
  ac_originalVolume (lowered c) <> None.
Proof.
  unfold lowered. cbn [ac_originalVolume].
  destruct (ac_originalVolume c); split; try reflexivity; discriminate.
Qed.

(** X22.  Pressing "lower audio" [n] times on a clip of the store applies the
    assignments of [lowerAudioVolume] [n] times to that clip and leaves every
    other clip id with the clip it had.  From the first press on, the clip's
    [originalVolume] is defined and no further press changes it, and its
    [audioVolume] is NaN or a number from 0 to 1. *)
Theorem lowerAudioVolume_repeated (cid : string) (w : World) (c : AudioClip)
    (n : nat) :
  findClipInProject cid w = Some c ->
  findClipInProject cid (Nat.iter n (lowerAudioVolume percent cid) w) =
    Some (Nat.iter n lowered c) /\
  (forall k, k <> cid ->
     findClipInProject k (Nat.iter n (lowerAudioVolume percent cid) w) =
     findClipInProject k w) /\
  ac_originalVolume (Nat.iter (S n) lowered c) = ac_originalVolume (lowered c) /\
  ac_originalVolume (lowered c) <> None /\
  exists av,
    ac_audioVolume (Nat.iter (S n) lowered c) = Some av /\
    (av = Num.NaN \/ (Num.leb Num.zero av = true /\ Num.leb av Num.one = true)).
Proof.
  intros Hf.
  assert (Hiter : findClipInProject cid (Nat.iter n (lowerAudioVolume percent cid) w) =
                    Some (Nat.iter n lowered c) /\
                  forall k, k <> cid ->
                    findClipInProject k (Nat.iter n (lowerAudioVolume percent cid) w) =
                    findClipInProject k w).
  { induction n as [|n [IH1 IH2]]; [split; [exact Hf|reflexivity]|].
    change (Nat.iter (S n) (lowerAudioVolume percent cid) w)
      with (lowerAudioVolume percent cid (Nat.iter n (lowerAudioVolume percent cid) w)).
    change (Nat.iter (S n) lowered c) with (lowered (Nat.iter n lowered c)).
    destruct (lowerAudioVolume_find cid _ _ IH1) as [H1 H2].
    split; [exact H1|]. intros k Hk. now rewrite (H2 k Hk), (IH2 k Hk). }
  destruct Hiter as [H1 H2].
  split; [exact H1|]. split; [exact H2|]. split; [|split].
  - clear. induction n as [|n IH]; [reflexivity|].
    change (Nat.iter (S (S n)) lowered c) with (lowered (Nat.iter (S n) lowered c)).
    change (Nat.iter (S n) lowered c) with (lowered (Nat.iter n lowered c)) in *.
    destruct (lowered_original (Nat.iter n lowered c)) as [E _].
    now rewrite E.
  - apply lowered_original.
  - change (Nat.iter (S n) lowered c) with (lowered (Nat.iter n lowered c)).
    unfold lowered at 1. cbn [ac_audioVolume]. eexists. split; [reflexivity|].
    match goal with
    | |- clampProgress ?x = _ \/ _ =>
        destruct (clampProgress_range x) as [[_ H]|(_ & Ha & Hb)]; auto
    end.
Qed.

End AudioLower.

Lemma lowerAudioVolume_repeated_witness :
  AudioControl.findClipInProject "V"
    (Nat.iter 3 (AudioControl.lowerAudioVolume Examples.percentText "V")
       Examples.audio0) =
  Some (Nat.iter 3 AudioControl.lowered Examples.audioV) /\
  AudioControl.findClipInProject "W"
    (Nat.iter 3 (AudioControl.lowerAudioVolume Examples.percentText "V")
       Examples.audio0) =
  AudioControl.findClipInProject "W" Examples.audio0.
Proof.
  destruct (lowerAudioVolume_repeated Examples.percentText "V" Examples.audio0
              Examples.audioV 3 eq_refl) as (H1 & H2 & _).
  split; [exact H1|]. apply H2. discriminate.
Defined.

(** ** The two versions of the monitor *)

Section TwoMonitors.
Variable randomUUID : nat -> string.
Variable dateNow : nat -> Z.

Lemma hookCalls_callHooks s b : hookCalls (callHooks s b) = callHooks s b.
Proof.
  unfold hookCalls, callHooks.
  destruct (hasSaveNow s), b, (hasPushSnapshot s); reflexivity.
Qed.




End TwoMonitors.


(** X24.  Removing right after saving: on a store with a project,
    [saveTransitionToStore(from, to, ...)] followed by
    [removeTransitionFromStore(from, to)] leaves in the store exactly the
    transitions that were not on that pair of clips before the save, in
    their order, and no transition between the two clips. *)
Theorem save_then_remove_from_store (uuid : string) (now : Z)
    (from to ty : string) (d : option num) (w : Integration.World)
    (s : Store) (p : Project) :
  Integration.store w = Some s -> project s = Some p ->
  exists t w',
    Integration.saveTransitionToStore uuid now from to ty d w = Ok (Some t, w') /\
    Integration.getStoredTransitions
      (Integration.removeTransitionFromStore from to w') =
    filter (fun x => negb (matchesPair from to x))
           (Integration.getStoredTransitions w) /\
    Integration.getTransitionBetween from to
      (Integration.removeTransitionFromStore from to w') = None.
Proof.
  intros Es Ep.
  pose proof (saveTransitionToStore_result uuid now from to ty d w s p Es Ep) as R.
  match type of R with
  | _ = Ok (Some ?t0, ?w0) => set (t := t0) in *; set (w' := w0) in *
  end.
  exists t, w'. split; [exact R|]. clear R.
  assert (Hst : Integration.getStoredTransitions
                  (Integration.removeTransitionFromStore from to w') =
                filter (fun x => negb (matchesPair from to x))
                       (Integration.getStoredTransitions w)).
  { unfold Integration.removeTransitionFromStore. subst w'.
    cbn [Integration.store]. rewrite (project_setTransitions _ _ _ Ep).
    cbn [transitions]. unfold Integration.getStoredTransitions.
    cbn [Integration.store].
    erewrite stored_setTransitions by apply (project_setTransitions _ _ _ Ep).
    rewrite filter_app, filter_filter, Es. cbn [filter].
    assert (Ht : matchesPair from to t = true).
    { unfold matchesPair. subst t. cbn [fromClipId toClipId].
      now rewrite !String.eqb_refl. }
    fold t. rewrite Ht. cbn [negb]. rewrite app_nil_r.
    apply filter_ext. intros x. now rewrite andb_diag. }
  split; [exact Hst|].
  unfold Integration.getTransitionBetween. rewrite Hst.
  fold (between from to). apply find_filter_none.
  intros x Hx. apply negb_true_iff in Hx.
  destruct (between from to x) eqn:E; [|reflexivity].
  apply between_matchesPair in E. congruence.
Qed.

Lemma save_then_remove_from_store_witness :
  exists t w',
    Integration.saveTransitionToStore "uuid-1" 1 "B" "A" "blur" None
      Examples.worldAB = Ok (Some t, w') /\
    Integration.getStoredTransitions
      (Integration.removeTransitionFromStore "B" "A" w') = [] /\
    Integration.getTransitionBetween "B" "A"
      (Integration.removeTransitionFromStore "B" "A" w') = None.
Proof.
  destruct (save_then_remove_from_store "uuid-1" 1%Z "B" "A" "blur" None
              Examples.worldAB _ _ eq_refl eq_refl) as (t & w' & H1 & H2 & H3).
  exists t, w'. split; [exact H1|]. split; [|exact H3].
  rewrite H2. reflexivity.
Defined.

(** X25.  Loading the stored transitions into a new manager is an import of
    the stored list: on a store that has a list of transitions,
    [loadExistingTransitions] leaves the manager that [importTransitions]
    builds from that list, so every clip is answered with the last stored
    transition that touches it and with none when no stored transition
    does. *)
Theorem loadExistingTransitions_is_import (w : IntegrationV1.World) (s : Store)
    (p : Project) (l : list TransitionData) (m0 : TransitionManager.t) :
  IntegrationV1.store w = Some s -> project s = Some p -> transitions p = Some l ->
  IntegrationV1.manager w = TransitionManager.new ->
  IntegrationV1.manager (IntegrationV1.loadExistingTransitions w) =
    TransitionManager.importTransitions l m0 /\
  forall k,
    TransitionManager.getTransition k
      (IntegrationV1.manager (IntegrationV1.loadExistingTransitions w)) =
    find (touches k) (rev l).
Proof.
  intros Es Ep Et Hm.
  assert (H : IntegrationV1.manager (IntegrationV1.loadExistingTransitions w) =
              TransitionManager.importTransitions l m0).
  { unfold IntegrationV1.loadExistingTransitions. rewrite Es.
    destruct s as [pr sn ps]. cbn in Ep. subst pr.
    destruct p as [tk tr]. cbn in Et. subst tr.
    cbn [IntegrationV1.manager]. rewrite Hm. reflexivity. }
  split; [exact H|].
  intros k. rewrite H.
  unfold TransitionManager.getTransition, TransitionManager.importTransitions.
  rewrite get_import. destruct (find (touches k) (rev l)); reflexivity.
Qed.

Lemma loadExistingTransitions_is_import_witness :
  TransitionManager.getTransition "C"
    (IntegrationV1.manager
       (IntegrationV1.loadExistingTransitions Examples.panelReload)) =
  TransitionManager.getTransition "C" (IntegrationV1.manager Examples.panelB) /\
  TransitionManager.getTransition "A"
    (IntegrationV1.manager
       (IntegrationV1.loadExistingTransitions Examples.panelReload)) = None.
Proof.
  destruct (loadExistingTransitions_is_import Examples.panelReload _ _ _
              TransitionManager.new eq_refl eq_refl eq_refl eq_refl) as [_ H].
  split.
  - rewrite (H "C"). reflexivity.
  - exact (H "A").
Defined.
